(** * WorldLayers: the block-counting helpers of [extract_helper.c]

    A shallow embedding of the three chunk-section decoders [dsci_v0],
    [dsci_v2], [dsci_v13] and of the two bit-stream unpackers
    [unpack_block_idxs_wc] and [unpack_block_idxs_nc], followed by the
    properties of the decoders that the design document states, and by
    further properties that the code itself shows: where a call is
    defined, what it reads, and how the calls and the two formats relate.

    Conventions of the embedding.
    - A C unsigned integer of width [w] is a [Z] in [[0, 2^w)]; every
      arithmetic operation of the source that can leave that range is
      followed by its reduction modulo [2^w] ([u16], [u32], [u64]).
      [size_t] is taken to be 64 bits wide.
    - An array is a [list]; reading or writing outside it is undefined
      behaviour in C and is [None] here ([load], [store]).  Shifting a
      [w]-bit value by [w] or more is undefined as well ([shl]).
    - A [for] loop over a constant range is a fold over the list of its
      indices ([for_each]); the [for (;;)] and [while] loops of the
      unpackers are recursions on a fuel of 4096 turns, which the theorems
      show to be enough: every turn writes one at least of the 4096
      values. *)

From Stdlib Require Import ZArith Lia.
From stdpp Require Import base option list list_numbers.

Local Open Scope Z_scope.

(** * The embedding *)

(** ** Machine integers and arrays *)

Definition wrap (w x : Z) : Z := x `mod` 2 ^ w.
Definition u16 : Z → Z := wrap 16.
Definition u32 : Z → Z := wrap 32.
Definition u64 : Z → Z := wrap 64.

(** [x << n] on [w]-bit unsigned operands. *)
Definition shl (w x n : Z) : option Z :=
  if decide (0 ≤ n < w) then Some (wrap w (x ≪ n)) else None.

(** [a[i]] as an rvalue. *)
Definition load {A} (a : list A) (i : Z) : option A :=
  if decide (0 ≤ i) then a !! Z.to_nat i else None.

(** [a[i] = v]. *)
Definition store {A} (a : list A) (i : Z) (v : A) : option (list A) :=
  if decide (0 ≤ i < Z.of_nat (length a)) then Some (<[Z.to_nat i := v]> a)
  else None.

(** [blockCount[i]++] on an array of [uint64_t]. *)
Definition incr (blockCount : list Z) (i : Z) : option (list Z) :=
  c ← load blockCount i; store blockCount i (u64 (c + 1)).

(** [for (i in idxs) s = body i s], stopping at the first undefined step. *)
Fixpoint for_each {S} (idxs : list Z) (body : Z → S → option S) (s : S)
  : option S :=
  match idxs with
  | [] => Some s
  | i :: idxs' => s' ← body i s; for_each idxs' body s'
  end.

(** What a loop body hands back: go on with a state, or [return]. *)
Inductive ctl (S R : Type) : Type :=
  | Next (s : S)
  | Ret (r : R).
Global Arguments Next {S R} s.
Global Arguments Ret {S R} r.

Definition NIBBLE_LO (x : Z) : Z := u32 (Z.land x 15).
Definition NIBBLE_HI (x : Z) : Z := u32 (Z.land (x ≫ 4) 15).

(** Number of cells of a 16x16x16 section, [16 * 16 * 16]. *)
Definition CELLS : Z := 16 * 16 * 16.

(** ** [dsci_v0] *)

Definition idLim_v0 : Z := 256 * 16.

Definition v0_bid1 (b m : Z) : Z := Z.lor (u32 (b ≪ 4)) (NIBBLE_LO m).
Definition v0_bid2 (b m : Z) : Z := Z.lor (u32 (b ≪ 4)) (NIBBLE_HI m).

Definition dsci_v0_body (blocks metadata : list Z) (xz y : Z)
    (blockCount : list Z) : option (list Z) :=
  let idx := y + xz * 128 in
  b0 ← load blocks (idx + 0);
  m0 ← load metadata (idx `div` 2);
  let bid1 := v0_bid1 b0 m0 in
  b1 ← load blocks (idx + 1);
  m1 ← load metadata (idx `div` 2);
  let bid2 := v0_bid2 b1 m1 in
  blockCount ← incr blockCount ((y + 0) * idLim_v0 + bid1);
  incr blockCount ((y + 1) * idLim_v0 + bid2).

(** The values of [y] in [for (y = 0; y < 128; y += 2)]. *)
Definition v0_ys : list Z := (λ k, 2 * k) <$> seqZ 0 64.

Definition dsci_v0 (blockCount blocks metadata : list Z)
  : option (list Z) :=
  for_each (seqZ 0 (16 * 16)) (λ xz,
    for_each v0_ys (λ y, dsci_v0_body blocks metadata xz y)) blockCount.

(** ** [dsci_v2] *)

(** [ySection * 16 + y]: the product [ySection * 16] is a [uint32_t], the
    sum with the [size_t] counter [y] is a [size_t]. *)
Definition layer_coord (ySection y : Z) : Z := u64 (u32 (ySection * 16) + y).

(** [(ySection * 16 + y) * idLim + bid], computed in [size_t]. *)
Definition hist_index (idLim ySection y bid : Z) : Z :=
  u64 (u64 (layer_coord ySection y * idLim) + bid).

Definition v2_bid1 (a2 a b m : Z) : Z :=
  Z.lor (Z.lor (Z.lor (u32 (NIBBLE_LO a2 ≪ 16)) (u32 (NIBBLE_LO a ≪ 12)))
               (u32 (b ≪ 4)))
        (NIBBLE_LO m).

Definition v2_bid2 (a2 a b m : Z) : Z :=
  Z.lor (Z.lor (Z.lor (u32 (NIBBLE_HI a2 ≪ 16)) (u32 (NIBBLE_HI a ≪ 12)))
               (u32 (b ≪ 4)))
        (NIBBLE_HI m).

Definition dsci_v2_body (idLim ySection : Z) (blocks add add2 metadata : list Z)
    (y zx : Z) (blockCount : list Z) : option (list Z) :=
  let idx := zx + y * (16 * 16 `div` 2) in
  a2 ← load add2 idx;
  a ← load add idx;
  b0 ← load blocks (idx * 2 + 0);
  m ← load metadata idx;
  let bid1 := v2_bid1 a2 a b0 m in
  b1 ← load blocks (idx * 2 + 1);
  let bid2 := v2_bid2 a2 a b1 m in
  blockCount ← incr blockCount (hist_index idLim ySection y bid1);
  incr blockCount (hist_index idLim ySection y bid2).

Definition dsci_v2 (blockCount : list Z) (idLim ySection : Z)
    (blocks add add2 metadata : list Z) : option (list Z) :=
  for_each (seqZ 0 16) (λ y,
    for_each (seqZ 0 (16 * 16 `div` 2)) (λ zx,
      dsci_v2_body idLim ySection blocks add add2 metadata y zx)) blockCount.

(** ** The bit-stream unpackers *)

(** The local variables of [unpack_block_idxs_wc] that the loops change. *)
Record wc_state : Type := WcState {
  wc_iout : Z;
  wc_iin : Z;
  wc_packBuf : Z;
  wc_bufSize : Z;
  wc_unpacked : list Z
}.

(** [while (bufSize >= idxBits) { unpacked[iout++] = packBuf & mask;
    if (iout >= 16 * 16 * 16) return; packBuf >>= idxBits;
    bufSize -= idxBits; }] *)
Fixpoint wc_while (fuel : nat) (idxBits mask : Z) (st : wc_state)
  : option (ctl wc_state (list Z)) :=
  match fuel with
  | O => None
  | S fuel' =>
    if decide (idxBits ≤ wc_bufSize st) then
      unpacked ← store (wc_unpacked st) (wc_iout st)
                       (u16 (Z.land (wc_packBuf st) mask));
      let iout := wc_iout st + 1 in
      if decide (CELLS ≤ iout) then Some (Ret unpacked)
      else wc_while fuel' idxBits mask
             (WcState iout (wc_iin st) (wc_packBuf st ≫ idxBits)
                      (u32 (wc_bufSize st - idxBits)) unpacked)
    else Some (Next st)
  end.

(** One turn of the [for (;;)] of [unpack_block_idxs_wc]: the low half of
    [packed[iin]] is fed and drained, then the high half. *)
Definition wc_turn (fuel : nat) (packed : list Z) (idxBits mask : Z)
    (st : wc_state) : option (ctl wc_state (list Z)) :=
  w ← load packed (wc_iin st);
  lo ← shl 64 (Z.land w 4294967295) (wc_bufSize st);
  let st := WcState (wc_iout st) (wc_iin st) (Z.lor (wc_packBuf st) lo)
                    (u32 (wc_bufSize st + 32)) (wc_unpacked st) in
  r ← wc_while fuel idxBits mask st;
  match r with
  | Ret unpacked => Some (Ret unpacked)
  | Next st =>
    w ← load packed (wc_iin st);
    hi ← shl 64 (w ≫ 32) (wc_bufSize st);
    let st := WcState (wc_iout st) (wc_iin st + 1) (Z.lor (wc_packBuf st) hi)
                      (u32 (wc_bufSize st + 32)) (wc_unpacked st) in
    wc_while fuel idxBits mask st
  end.

Fixpoint wc_loop (fuel : nat) (packed : list Z) (idxBits mask : Z)
    (st : wc_state) : option (list Z) :=
  match fuel with
  | O => None
  | S fuel' =>
    r ← wc_turn (Z.to_nat CELLS) packed idxBits mask st;
    match r with
    | Ret unpacked => Some unpacked
    | Next st => wc_loop fuel' packed idxBits mask st
    end
  end.

(** [const uint16_t mask = (1 << idxBits) - 1;] for [idxBits <= 16]. *)
Definition idx_mask (idxBits : Z) : Z := u16 (1 ≪ idxBits - 1).

Definition unpack_block_idxs_wc (packed : list Z) (idxBits : Z)
    (unpacked : list Z) : option (list Z) :=
  if decide (16 < idxBits) then Some unpacked
  else
    wc_loop (Z.to_nat CELLS) packed idxBits (idx_mask idxBits)
            (WcState 0 0 0 0 unpacked).

(** [for (uint32_t i = 64; i >= idxBits; i -= idxBits) {
    unpacked[iout++] = buf & mask; if (iout >= 16 * 16 * 16) return;
    buf >>= idxBits; }], from the current values of [i], [buf], [iout]. *)
Fixpoint nc_for (fuel : nat) (idxBits mask : Z) (i buf iout : Z)
    (unpacked : list Z) : option (ctl (Z * list Z) (list Z)) :=
  match fuel with
  | O => None
  | S fuel' =>
    if decide (idxBits ≤ i) then
      unpacked ← store unpacked iout (u16 (Z.land buf mask));
      let iout := iout + 1 in
      if decide (CELLS ≤ iout) then Some (Ret unpacked)
      else nc_for fuel' idxBits mask (u32 (i - idxBits)) (buf ≫ idxBits)
                  iout unpacked
    else Some (Next (iout, unpacked))
  end.

Fixpoint nc_loop (fuel : nat) (packed : list Z) (idxBits mask : Z)
    (iout iin : Z) (unpacked : list Z) : option (list Z) :=
  match fuel with
  | O => None
  | S fuel' =>
    buf ← load packed iin;
    r ← nc_for (Z.to_nat CELLS) idxBits mask 64 buf iout unpacked;
    match r with
    | Ret unpacked => Some unpacked
    | Next (iout, unpacked) =>
      nc_loop fuel' packed idxBits mask iout (iin + 1) unpacked
    end
  end.

Definition unpack_block_idxs_nc (packed : list Z) (idxBits : Z)
    (unpacked : list Z) : option (list Z) :=
  if decide (16 < idxBits) then Some unpacked
  else
    nc_loop (Z.to_nat CELLS) packed idxBits (idx_mask idxBits) 0 0 unpacked.

(** ** [dsci_v13] *)

(** [while ((1u << idxBits) < maxPaletteIdx + 1) idxBits++;] *)
Fixpoint idxBits_loop (fuel : nat) (idxBits maxPaletteIdx : Z) : option Z :=
  match fuel with
  | O => None
  | S fuel' =>
    p ← shl 32 1 idxBits;
    if decide (p < u32 (maxPaletteIdx + 1))
    then idxBits_loop fuel' (u32 (idxBits + 1)) maxPaletteIdx
    else Some idxBits
  end.

(** [idxBits] starts at 4 and the shift is undefined from 32 on, so 29
    turns decide every run. *)
Definition compute_idxBits (maxPaletteIdx : Z) : option Z :=
  idxBits_loop 29 4 maxPaletteIdx.

Definition dsci_v13_body (idLim ySection : Z) (paletteMap paletteIdxs : list Z)
    (y zx : Z) (blockCount : list Z) : option (list Z) :=
  let idx := zx + y * (16 * 16) in
  pidx ← load paletteIdxs idx;
  bid ← load paletteMap pidx;
  incr blockCount (hist_index idLim ySection y bid).

(** [stack] is what the automatic array [paletteIdxs] holds before it is
    written: its 4096 elements are indeterminate in C. *)
Definition dsci_v13 (blockCount : list Z) (idLim ySection : Z)
    (blockStates paletteMap : list Z) (maxPaletteIdx : Z) (carry : bool)
    (stack : list Z) : option (list Z) :=
  idxBits ← compute_idxBits maxPaletteIdx;
  paletteIdxs ←
    (if carry then unpack_block_idxs_wc blockStates idxBits stack
     else unpack_block_idxs_nc blockStates idxBits stack);
  for_each (seqZ 0 16) (λ y,
    for_each (seqZ 0 (16 * 16)) (λ zx,
      dsci_v13_body idLim ySection paletteMap paletteIdxs y zx)) blockCount.

(** * Definitions for the statements and the proofs *)

(** ** Reading the histogram: how often each entry is incremented *)

(** [a[i]] when the read is known to be in bounds. *)
Definition get (a : list Z) (i : Z) : Z := default 0 (load a i).

(** The increments of one decoder call, as the list of the histogram
    indices they hit, in the order of the hits. *)
Definition incr_all (targets : list Z) (blockCount : list Z)
  : option (list Z) :=
  for_each targets (λ t h, incr h t) blockCount.

(** How many of the hits fall on entry [p]. *)
Definition tally (targets : list Z) (p : nat) : Z :=
  Z.of_nat (length (filter (λ t, t = Z.of_nat p) targets)).

(** Entry [p] moves from [c] to [c + tally targets p], as a [uint64_t]. *)
Definition add_counts (targets : list Z) (blockCount : list Z) : list Z :=
  imap (λ p c, u64 (c + tally targets p)) blockCount.

Definition sumZ (l : list Z) : Z := foldr Z.add 0 l.

Definition in_range (w : Z) (l : list Z) : Prop :=
  Forall (λ x, 0 ≤ x < 2 ^ w) l.

(** ** Nibbles and identifiers *)

(** The two nibbles of a byte, arithmetically. *)
Definition low_nibble (m : Z) : Z := m `mod` 16.
Definition high_nibble (m : Z) : Z := m `div` 16.

(** The unsigned concatenation [add2:add:block:meta] of three nibbles and
    a byte. *)
Definition concat_id (add2 add block meta : Z) : Z :=
  add2 * 2 ^ 16 + add * 2 ^ 12 + block * 2 ^ 4 + meta.

(** ** The cells of [dsci_v0] and [dsci_v2] *)

(** The histogram entries hit for the pair of cells at [idx = y + column * 128]
    and [idx + 1], with [idLimit = 4096]. *)
Definition v0_pair (blocks metadata : list Z) (column y : Z) : list Z :=
  let idx := y + column * 128 in
  [ y * 4096
    + Z.lor (get blocks idx ≪ 4) (low_nibble (get metadata (idx `div` 2)));
    (y + 1) * 4096
    + Z.lor (get blocks (idx + 1) ≪ 4)
            (high_nibble (get metadata (idx `div` 2))) ].

Definition v0_hits (blocks metadata : list Z) : list Z :=
  seqZ 0 256 ≫= λ column, v0_ys ≫= v0_pair blocks metadata column.

(** A 16x16x128 array of bytes and its nibble-packed metadata. *)
Definition wf_v0 (blocks metadata : list Z) : Prop :=
  Z.of_nat (length blocks) = 16 * 16 * 128
  ∧ Z.of_nat (length metadata) = 16 * 16 * 128 `div` 2
  ∧ in_range 8 blocks ∧ in_range 8 metadata.

(** The histogram entries hit for the two cells of nibble slot
    [idx = zx + y * 128]. *)
Definition v2_pair (idLim ySection : Z) (blocks add add2 metadata : list Z)
    (y zx : Z) : list Z :=
  let idx := zx + y * 128 in
  [ layer_coord ySection y * idLim
    + concat_id (low_nibble (get add2 idx)) (low_nibble (get add idx))
                (get blocks (idx * 2 + 0)) (low_nibble (get metadata idx));
    layer_coord ySection y * idLim
    + concat_id (high_nibble (get add2 idx)) (high_nibble (get add idx))
                (get blocks (idx * 2 + 1)) (high_nibble (get metadata idx)) ].

Definition v2_hits (idLim ySection : Z) (blocks add add2 metadata : list Z)
  : list Z :=
  seqZ 0 16 ≫= λ y,
    seqZ 0 128 ≫= v2_pair idLim ySection blocks add add2 metadata y.

(** A 16x16x16 array of bytes and its three nibble-packed companions. *)
Definition wf_v2 (blocks add add2 metadata : list Z) : Prop :=
  Z.of_nat (length blocks) = 4096
  ∧ Z.of_nat (length add) = 2048
  ∧ Z.of_nat (length add2) = 2048
  ∧ Z.of_nat (length metadata) = 2048
  ∧ in_range 8 blocks ∧ in_range 8 add ∧ in_range 8 add2
  ∧ in_range 8 metadata.

(** ** Writing a run of values into the output buffer *)

(** What the extraction loops do with the values [xs] they produce one
    after the other: [unpacked[iout++] = x; if (iout >= 4096) return;]. *)
Fixpoint emit (xs : list Z) (iout : Z) (unpacked : list Z)
  : option (ctl (Z * list Z) (list Z)) :=
  match xs with
  | [] => Some (Next (iout, unpacked))
  | x :: xs' =>
    unpacked' ← store unpacked iout x;
    if decide (CELLS ≤ iout + 1) then Some (Ret unpacked')
    else emit xs' (iout + 1) unpacked'
  end.

(** Go on with [k] after a first run that did not return. *)
Definition and_then {S S' R} (r : option (ctl S R))
    (k : S → option (ctl S' R)) : option (ctl S' R) :=
  r ≫= λ c, match c with Ret o => Some (Ret o) | Next s => k s end.

(** ** Bit fields *)

(** The first [m] fields of [b] bits of [z], lowest first. *)
Definition fields (b z m : Z) : list Z := Z_to_little_endian m b z.

(** ** What [unpack_block_idxs_nc] writes *)

(** Every word gives its [64 / idxBits] low fields; the bits above them are
    dropped. *)
Definition nc_stream (b : Z) (packed : list Z) : list Z :=
  packed ≫= λ w, fields b w (64 `div` b).

(** ** What [unpack_block_idxs_wc] writes *)

(** The words read as one number, the first word lowest. *)
Definition wc_bits (packed : list Z) : Z := little_endian_to_Z 64 packed.

(** Between two feeds, with [T] bits fed so far: the buffer holds the bits
    of the stream from [iout * idxBits] up to [T], and the output holds the
    first [iout] fields of the stream. *)
Definition wc_inv (b S : Z) (u0 : list Z) (T : Z) (st : wc_state) : Prop :=
  0 ≤ wc_iout st < CELLS
  ∧ wc_bufSize st = T - wc_iout st * b
  ∧ 0 ≤ wc_bufSize st < b
  ∧ wc_packBuf st = Z.land (S ≫ (wc_iout st * b)) (Z.ones (wc_bufSize st))
  ∧ wc_unpacked st
    = fields b S (wc_iout st) ++ drop (Z.to_nat (wc_iout st)) u0.

Definition wc_final (b S : Z) (u0 : list Z) : list Z :=
  fields b S CELLS ++ drop (Z.to_nat CELLS) u0.

(** ** The two layouts, written by a packer *)

(** Modelled from the spec: the packing side of the round trip is not in
    the source.  With-carry layout: the values are laid out low-to-high as
    one run of bits, which is cut into 64-bit words (the last one filled
    up with zero bits). *)
Definition pack_wc (b : Z) (vs : list Z) : list Z :=
  Z_to_little_endian ((Z.of_nat (length vs) * b + 63) `div` 64) 64
    (little_endian_to_Z b vs).

(** Modelled from the spec: the packing side of the round trip is not in
    the source.  No-carry layout: each word takes the next [64 / b] values
    low-to-high; no value straddles a word, and the [64 mod b] bits on top
    of every word are not part of any value: the packer leaves [fill] in
    them. *)
Fixpoint pack_nc_words (fuel : nat) (b fill : Z) (vs : list Z) : list Z :=
  match fuel, vs with
  | S fuel', _ :: _ =>
    let per := Z.to_nat (64 `div` b) in
    Z.lor (little_endian_to_Z b (take per vs)) (fill ≪ (64 `div` b * b))
    :: pack_nc_words fuel' b fill (drop per vs)
  | _, _ => []
  end.

Definition pack_nc (b fill : Z) (vs : list Z) : list Z :=
  pack_nc_words (length vs) b fill vs.

(** ** The width search of [dsci_v13] *)

(** [b] is the smallest width from 4 up that has room for [m + 1]
    indices. *)
Definition smallest_width (m b : Z) : Prop :=
  4 ≤ b ∧ m + 1 ≤ 2 ^ b ∧ ∀ b', 4 ≤ b' → m + 1 ≤ 2 ^ b' → b ≤ b'.

(** The same width in closed form. *)
Definition idx_width (m : Z) : Z := Z.max 4 (Z.log2_up (m + 1)).

(** ** The cells of [dsci_v13] *)

(** The 4096 palette indices of a section, by carry mode. *)
Definition v13_indices (carry : bool) (b : Z) (blockStates : list Z)
  : list Z :=
  if carry then fields b (wc_bits blockStates) CELLS
  else take (Z.to_nat CELLS) (nc_stream b blockStates).

(** The words the unpacker reads for 4096 indices of [b] bits. *)
Definition enough_words (carry : bool) (b : Z) (blockStates : list Z)
  : Prop :=
  if carry then 64 * b ≤ Z.of_nat (length blockStates)
  else CELLS ≤ 64 `div` b * Z.of_nat (length blockStates).

(** The histogram entries hit for the cell at [idx = zx + y * 256]. *)
Definition v13_hits (idLim ySection : Z) (paletteMap idxs : list Z)
  : list Z :=
  seqZ 0 16 ≫= λ y, seqZ 0 256 ≫= λ zx,
    [layer_coord ySection y * idLim + get paletteMap (get idxs (zx + y * 256))].

(** What [dsci_v13] is given, the histogram apart: a palette of
    [maxPaletteIdx + 1 <= 2^16] identifiers of 32 bits, enough words of
    block states, every packed index inside the palette, and the 4096
    elements of the local array. *)
Definition wf_v13 (idLim : Z) (blockStates paletteMap : list Z)
    (maxPaletteIdx : Z) (carry : bool) (stack : list Z) : Prop :=
  0 ≤ maxPaletteIdx ∧ maxPaletteIdx + 1 ≤ 2 ^ 16
  ∧ Z.of_nat (length paletteMap) = maxPaletteIdx + 1
  ∧ in_range 32 paletteMap
  ∧ 0 ≤ idLim < 2 ^ 32
  ∧ in_range 64 blockStates
  ∧ enough_words carry (idx_width maxPaletteIdx) blockStates
  ∧ Forall (λ i, i ≤ maxPaletteIdx)
           (v13_indices carry (idx_width maxPaletteIdx) blockStates)
  ∧ Z.of_nat (length stack) = CELLS.

(** ** Where the hits of the 16-layer decoders fall *)

(** The identifiers of the two cells of every nibble slot of a v2
    section. *)
Definition v2_ids (blocks add add2 metadata : list Z) : list Z :=
  seqZ 0 2048 ≫= λ idx,
    [ concat_id (low_nibble (get add2 idx)) (low_nibble (get add idx))
                (get blocks (idx * 2 + 0)) (low_nibble (get metadata idx));
      concat_id (high_nibble (get add2 idx)) (high_nibble (get add idx))
                (get blocks (idx * 2 + 1)) (high_nibble (get metadata idx)) ].

(** Entry [p] belongs to one of the 16 layers from [layer] on, for
    identifiers below [idLim]. *)
Definition in_layers (idLim layer : Z) (p : Z) : Prop :=
  layer * idLim ≤ p < (layer + 16) * idLim.

(** An array of [n] zero elements. *)
Definition zeros (n : Z) : list Z := replicate (Z.to_nat n) 0.

(** ** Well-formed histograms *)

(** The histogram holds the 16 layers of section [ySection]. *)
Definition hist_holds (idLim ySection : Z) (h : list Z) : Prop :=
  0 ≤ ySection
  ∧ (ySection * 16 + 16) * idLim ≤ Z.of_nat (length h).

(** It does, and the layer coordinate fits the 32-bit product
    [ySection * 16]. *)
Definition hist_covers (idLim ySection : Z) (h : list Z) : Prop :=
  ySection < 2 ^ 28 ∧ hist_holds idLim ySection h.

(** Every counter can take [n] more increments without wrapping. *)
Definition counters_have_room (n : Z) (h : list Z) : Prop :=
  Forall (λ c, 0 ≤ c ∧ c + n < 2 ^ 64) h.

(** From [h] to [h'] the cells [cells] have been counted, one increment
    for each cell on the entry that it names, inside the histogram: every
    entry has grown, as a 64-bit counter, by the number of the cells that
    name it, which is 256 at most.  The entries have grown in total by the
    number of the cells exactly when no counter has wrapped, as is the case
    when every counter has room for 256 increments. *)
Definition conserves (cells : list Z) (h h' : list Z) : Prop :=
  length h' = length h
  ∧ Forall (λ t, 0 ≤ t < Z.of_nat (length h)) cells
  ∧ (∀ (p : nat) c, h !! p = Some c →
       h' !! p = Some (u64 (c + tally cells p)) ∧ tally cells p ≤ 256)
  ∧ (sumZ h' - sumZ h = Z.of_nat (length cells)
     ↔ ∀ (p : nat) c, h !! p = Some c → c + tally cells p < 2 ^ 64)
  ∧ (counters_have_room 256 h →
     sumZ h' - sumZ h = Z.of_nat (length cells)).

(** ** Sample inputs *)

Module Sample.
(** A legacy section: every block is 1 with metadata nibbles 3 and 2. *)
Definition blocks0 : list Z := replicate (Z.to_nat 32768) 1.
Definition metadata0 : list Z := replicate (Z.to_nat 16384) 35.
Definition h0 : list Z := zeros 524288.

(** A v2 section of section index 3: identifiers 17 and 18, below the
    limit 32. *)
Definition blocks2 : list Z := replicate (Z.to_nat 4096) 1.
Definition add : list Z := zeros 2048.
Definition metadata2 : list Z := replicate (Z.to_nat 2048) 33.
Definition h2 : list Z := zeros 2048.

(** A v13 section of section index 1 with a palette of 17 identifiers
    100..116 below the limit 200, hence 5 bits per index; every word of
    block states is 1, which packs the indices 1, 2, 4, 8 and 16 among
    zeros. *)
Definition paletteMap : list Z := seqZ 100 17.
Definition blockStates : list Z := replicate (Z.to_nat 342) 1.
Definition stack : list Z := zeros 4096.
Definition h13 : list Z := zeros 6400.
End Sample.

Module SampleNibbles.
(** A v2 section of section index 3 in which the two nibbles of every byte
    differ: [add2] is [0x21], [add] is [0x43], every block is 5 and the
    metadata is [0x87], so the identifiers are [0x13057 = 77911] and
    [0x24058 = 147544], below the limit [2^18]; the histogram holds the 64
    layers up to those of the section. *)
Definition blocks : list Z := replicate (Z.to_nat 4096) 5.
Definition add : list Z := replicate (Z.to_nat 2048) 67.
Definition add2 : list Z := replicate (Z.to_nat 2048) 33.
Definition metadata : list Z := replicate (Z.to_nat 2048) 135.
Definition h : list Z := zeros (64 * 262144).
End SampleNibbles.

(** ** Frame and growth *)

(** Between [h] and [h'] of equal length, every entry outside [region] is
    unchanged, and every entry with room for [cells] increments has not
    decreased. *)
Definition frame_and_growth (region : Z → Prop) (cells : Z)
    (h h' : list Z) : Prop :=
  length h' = length h
  ∧ ∀ (p : nat) c, h !! p = Some c →
      (¬ region (Z.of_nat p) → h' !! p = Some c)
      ∧ (c + cells < 2 ^ 64 → ∃ c', h' !! p = Some c' ∧ c ≤ c').

(** The values [unpack_block_idxs_nc] writes, on any width up to 16. *)
Definition nc_values (b : Z) (packed : list Z) : list Z :=
  if decide (b = 0) then replicate (Z.to_nat CELLS) 0
  else take (Z.to_nat CELLS) (nc_stream b packed).

Module SampleWords.
(** 4096 values of 5 bits; and, for the width 4, 256 words of 16 nibbles,
    each word [0x0123456789ABCDEF]. *)
Definition values5 : list Z := (λ i, i `mod` 32) <$> seqZ 0 4096.
Definition words4 : list Z := replicate (Z.to_nat 256) 81985529216486895.
End SampleWords.

(** ** The rows of the histogram *)

(** The entries of layer [layer] of a histogram with [idLim] entries a
    layer. *)
Definition layer_row (idLim layer : Z) (h : list Z) : list Z :=
  take (Z.to_nat idLim) (drop (Z.to_nat (layer * idLim)) h).

(** Entry [t] lies in that layer. *)
Definition in_row (idLim layer : Z) (t : Z) : Prop :=
  layer * idLim ≤ t < (layer + 1) * idLim.

Global Instance in_row_dec idLim layer t : Decision (in_row idLim layer t) :=
  decide (layer * idLim ≤ t < (layer + 1) * idLim).


Module SampleFormats.
(** The cells of the v2 section of [Sample] as a v13 section: a palette of
    the two identifiers 17 and 18, and 4-bit indices 0, 1, 0, 1, ..., that
    is 256 words [0x1010101010101010]. *)
Definition paletteMap : list Z := [17; 18].
Definition blockStates : list Z :=
  replicate (Z.to_nat 256) 1157442765409226768.
End SampleFormats.

(** * Proofs *)

(** [CELLS] is also the fuel of the unpackers' loops: the proofs use its
    value through [CELLS_eq] and never unfold the loops that many times. *)
Lemma CELLS_eq : CELLS = 4096.
Proof. reflexivity. Qed.
Global Opaque CELLS.

(** ** Arrays, loops and increments *)

Section arrays.
Context {A : Type}.
Implicit Types (a : list A) (i : Z).

Lemma load_lookup a i : 0 ≤ i → load a i = a !! Z.to_nat i.
Proof. intros. unfold load. by rewrite decide_True. Qed.

Lemma load_is_Some a i : 0 ≤ i < Z.of_nat (length a) → is_Some (load a i).
Proof.
  intros. rewrite load_lookup by lia. apply lookup_lt_is_Some. lia.
Qed.

Lemma load_None a i : Z.of_nat (length a) ≤ i → load a i = None.
Proof.
  intros. rewrite load_lookup by lia. apply lookup_ge_None. lia.
Qed.

Lemma load_app_l a a' i :
  i < Z.of_nat (length a) → load (a ++ a') i = load a i.
Proof.
  intros. unfold load. case_decide; [|done]. apply lookup_app_l. lia.
Qed.

Lemma store_Some a i v :
  0 ≤ i < Z.of_nat (length a) → store a i v = Some (<[Z.to_nat i := v]> a).
Proof. intros. unfold store. by rewrite decide_True. Qed.
End arrays.

Lemma wrap_small w x : 0 ≤ x < 2 ^ w → wrap w x = x.
Proof. intros. unfold wrap. by apply Z.mod_small. Qed.

Lemma wrap_range w x : 0 ≤ w → 0 ≤ wrap w x < 2 ^ w.
Proof. intros. unfold wrap. apply Z.mod_pos_bound. by apply Z.pow_pos_nonneg. Qed.

Lemma load_get (a : list Z) i :
  0 ≤ i < Z.of_nat (length a) → load a i = Some (get a i).
Proof.
  intros Hi. unfold get. by destruct (load_is_Some a i Hi) as [x ->].
Qed.

Lemma get_lookup (a : list Z) (n : nat) c :
  a !! n = Some c → get a (Z.of_nat n) = c.
Proof.
  intros Hc. unfold get. rewrite load_lookup by lia.
  by rewrite Nat2Z.id, Hc.
Qed.

Lemma get_in_range w (a : list Z) i :
  in_range w a → 0 ≤ i < Z.of_nat (length a) → 0 ≤ get a i < 2 ^ w.
Proof.
  intros Ha Hi. destruct (lookup_lt_is_Some_2 a (Z.to_nat i)) as [c Hc]; [lia|].
  unfold get. rewrite load_lookup, Hc by lia. simpl.
  by apply (Forall_lookup_1 _ _ _ _ Ha Hc).
Qed.

Lemma incr_Some h t :
  0 ≤ t < Z.of_nat (length h) →
  incr h t = Some (<[Z.to_nat t := u64 (get h t + 1)]> h).
Proof.
  intros Ht. unfold incr. rewrite (load_get h t Ht). simpl.
  by apply store_Some.
Qed.

Section for_each.
Context {S : Type}.
Implicit Types (body g : Z → S → option S) (s : S).

Lemma for_each_app l1 l2 body s :
  for_each (l1 ++ l2) body s = for_each l1 body s ≫= for_each l2 body.
Proof.
  revert s. induction l1 as [|i l1 IH]; intros s; simpl; [done|].
  destruct (body i s) as [s'|]; simpl; [apply IH|done].
Qed.

(** A loop whose every turn is itself a run of [g] over some indices is
    one run of [g] over all of them. *)
Lemma for_each_flat (f : Z → list Z) l body g s :
  (∀ i s', i ∈ l → body i s' = for_each (f i) g s') →
  for_each l body s = for_each (l ≫= f) g s.
Proof.
  revert s. induction l as [|i l IH]; intros s Hb; simpl; [done|].
  rewrite for_each_app, Hb by left.
  destruct (for_each (f i) g s) as [s'|]; simpl; [|done].
  apply IH. intros j s'' Hj. apply Hb. by right.
Qed.

Lemma for_each_ext l body g s :
  (∀ i s', i ∈ l → body i s' = g i s') →
  for_each l body s = for_each l g s.
Proof.
  revert s. induction l as [|i l IH]; intros s Hb; simpl; [done|].
  rewrite Hb by left. destruct (g i s) as [s'|]; simpl; [|done].
  apply IH. intros j s'' Hj. apply Hb. by right.
Qed.
End for_each.

Lemma tally_nil p : tally [] p = 0.
Proof. done. Qed.

Lemma tally_cons t targets p :
  tally (t :: targets) p =
  (if decide (t = Z.of_nat p) then 1 else 0) + tally targets p.
Proof.
  unfold tally. rewrite filter_cons. case_decide; simpl; lia.
Qed.

Lemma tally_nonneg targets p : 0 ≤ tally targets p.
Proof. unfold tally. lia. Qed.

Lemma tally_le_length targets p : tally targets p ≤ Z.of_nat (length targets).
Proof. unfold tally. pose proof (length_filter (λ t, t = Z.of_nat p) targets). lia. Qed.

Lemma tally_0 targets p : Z.of_nat p ∉ targets → tally targets p = 0.
Proof.
  intros Hp. unfold tally.
  induction targets as [|t ts IH]; [done|].
  rewrite filter_cons. apply not_elem_of_cons in Hp as [? ?].
  rewrite decide_False by done. by apply IH.
Qed.

Lemma length_add_counts targets h : length (add_counts targets h) = length h.
Proof. unfold add_counts. by rewrite length_imap. Qed.

Lemma lookup_add_counts targets h p :
  add_counts targets h !! p = (λ c, u64 (c + tally targets p)) <$> h !! p.
Proof. unfold add_counts. by rewrite list_lookup_imap. Qed.

(** The run of increments succeeds when every hit is inside the histogram,
    and then it is [add_counts]. *)
Lemma incr_all_add_counts targets h :
  in_range 64 h →
  Forall (λ t, 0 ≤ t < Z.of_nat (length h)) targets →
  incr_all targets h = Some (add_counts targets h).
Proof.
  unfold incr_all. intros Hh Ht. revert h Hh Ht.
  induction targets as [|t ts IH]; intros h Hh Ht; simpl.
  - f_equal. apply list_eq. intros p. rewrite lookup_add_counts.
    destruct (h !! p) as [c|] eqn:Hc; simpl; [|done].
    rewrite tally_nil, Z.add_0_r. f_equal. symmetry. apply wrap_small.
    by apply (Forall_lookup_1 _ _ _ _ Hh Hc).
  - apply Forall_cons in Ht as [Ht Hts].
    rewrite incr_Some by done. simpl.
    rewrite IH; cycle 1.
    { apply Forall_insert; [done|]. by apply wrap_range. }
    { by rewrite length_insert. }
    f_equal. apply list_eq. intros p. rewrite !lookup_add_counts.
    rewrite tally_cons.
    destruct (decide (Z.to_nat t = p)) as [<-|Hne].
    + rewrite list_lookup_insert_eq by lia.
      destruct (lookup_lt_is_Some_2 h (Z.to_nat t)) as [c Hc]; [lia|].
      rewrite Hc. simpl. f_equal.
      rewrite decide_True by lia.
      unfold get. rewrite load_lookup, Hc by lia. simpl.
      unfold u64, wrap. rewrite Zplus_mod_idemp_l. f_equal. lia.
    + rewrite list_lookup_insert_ne by done.
      rewrite decide_False by lia. done.
Qed.

Lemma add_counts_cons t targets h :
  in_range 64 h → 0 ≤ t < Z.of_nat (length h) →
  add_counts (t :: targets) h =
  add_counts targets (<[Z.to_nat t := u64 (get h t + 1)]> h).
Proof.
  intros Hh Ht.
  apply list_eq. intros p. rewrite !lookup_add_counts, tally_cons.
  destruct (decide (Z.to_nat t = p)) as [<-|Hne].
  - rewrite list_lookup_insert_eq by lia.
    destruct (lookup_lt_is_Some_2 h (Z.to_nat t)) as [c Hc]; [lia|].
    rewrite Hc. simpl. f_equal. rewrite decide_True by lia.
    unfold get. rewrite load_lookup, Hc by lia. simpl.
    unfold u64, wrap. rewrite Zplus_mod_idemp_l. f_equal. lia.
  - rewrite list_lookup_insert_ne by done.
    by rewrite decide_False by lia.
Qed.

Lemma sumZ_insert (l : list Z) (n : nat) c v :
  l !! n = Some c → sumZ (<[n := v]> l) = sumZ l - c + v.
Proof.
  revert n. induction l as [|x l IH]; intros [|n] Hn; simplify_eq/=.
  - unfold sumZ. simpl. lia.
  - unfold sumZ in *. simpl. rewrite (IH n Hn). lia.
Qed.

Lemma add_counts_nil h : in_range 64 h → add_counts [] h = h.
Proof.
  intros Hh. apply list_eq. intros p. rewrite lookup_add_counts.
  destruct (h !! p) as [c|] eqn:Hc; simpl; [|done].
  rewrite tally_nil, Z.add_0_r. f_equal. apply wrap_small.
  by apply (Forall_lookup_1 _ _ _ _ Hh Hc).
Qed.

(** As long as no counter wraps, the entries grow by the number of hits in
    total. *)
Lemma sumZ_add_counts targets h :
  Forall (λ c, 0 ≤ c ∧ c + Z.of_nat (length targets) < 2 ^ 64) h →
  Forall (λ t, 0 ≤ t < Z.of_nat (length h)) targets →
  sumZ (add_counts targets h) = sumZ h + Z.of_nat (length targets).
Proof.
  revert h. induction targets as [|t ts IH]; intros h Hh Ht.
  - rewrite add_counts_nil; [simpl; lia|].
    eapply Forall_impl; [exact Hh|]. simpl. lia.
  - apply Forall_cons in Ht as [Ht Hts].
    assert (in_range 64 h) as Hr.
    { eapply Forall_impl; [exact Hh|]. simpl. lia. }
    rewrite add_counts_cons by done.
    destruct (lookup_lt_is_Some_2 h (Z.to_nat t)) as [c Hc]; [lia|].
    assert (get h t = c) as ->.
    { unfold get. by rewrite load_lookup, Hc by lia. }
    pose proof (Forall_lookup_1 _ _ _ _ Hh Hc) as Hcb. simpl in Hcb.
    assert (u64 (c + 1) = c + 1) as ->.
    { apply wrap_small. lia. }
    rewrite IH; cycle 1.
    { apply Forall_insert; [|lia].
      eapply Forall_impl; [exact Hh|]. simpl. lia. }
    { by rewrite length_insert. }
    rewrite (sumZ_insert _ _ _ _ Hc). simpl length. lia.
Qed.

(** An entry that no hit names keeps its value; one that is hit and does
    not wrap grows. *)
Lemma add_counts_frame targets h p :
  in_range 64 h → Z.of_nat p ∉ targets →
  add_counts targets h !! p = h !! p.
Proof.
  intros Hh Hp. rewrite lookup_add_counts, tally_0 by done.
  destruct (h !! p) as [c|] eqn:Hc; simpl; [|done].
  rewrite Z.add_0_r. f_equal. apply wrap_small.
  by apply (Forall_lookup_1 _ _ _ _ Hh Hc).
Qed.

Lemma add_counts_grow targets h p c :
  h !! p = Some c → 0 ≤ c → c + Z.of_nat (length targets) < 2 ^ 64 →
  ∃ c', add_counts targets h !! p = Some c' ∧ c ≤ c'.
Proof.
  intros Hc ? ?. rewrite lookup_add_counts, Hc. simpl.
  eexists; split; [done|].
  pose proof (tally_nonneg targets p). pose proof (tally_le_length targets p).
  unfold u64. rewrite wrap_small by lia. lia.
Qed.

Lemma length_bind_const {A B} (f : A → list B) (l : list A) (k : nat) :
  (∀ x, x ∈ l → length (f x) = k) → length (l ≫= f) = (length l * k)%nat.
Proof.
  induction l as [|x l IH]; intros Hk; [done|].
  change (length (f x ++ (l ≫= f)) = (length (x :: l) * k)%nat).
  rewrite length_app, Hk, IH; [simpl; lia| |left].
  intros y Hy. apply Hk. by right.
Qed.

(** ** Nibbles and identifiers *)

Lemma lor_mul_pow2_add x k n :
  0 ≤ k → 0 ≤ n < 2 ^ k → Z.lor (x * 2 ^ k) n = x * 2 ^ k + n.
Proof.
  intros Hk Hn. symmetry. apply Z.add_nocarry_lor.
  apply Z.bits_inj'. intros i Hi.
  rewrite Z.land_spec, Z.bits_0, <-Z.shiftl_mul_pow2 by done.
  destruct (decide (i < k)).
  - by rewrite Z.shiftl_spec_low.
  - rewrite <-(Z.mod_small n (2 ^ k)) by done.
    rewrite Z.mod_pow2_bits_high by lia. apply andb_false_r.
Qed.

Lemma NIBBLE_LO_spec m : NIBBLE_LO m = low_nibble m.
Proof.
  unfold NIBBLE_LO, low_nibble, u32.
  change 15 with (Z.ones 4). rewrite Z.land_ones by done.
  change (2 ^ 4) with 16. apply wrap_small.
  pose proof (Z.mod_pos_bound m 16). lia.
Qed.

Lemma NIBBLE_HI_spec m : 0 ≤ m < 256 → NIBBLE_HI m = high_nibble m.
Proof.
  intros Hm. unfold NIBBLE_HI, high_nibble, u32.
  change 15 with (Z.ones 4). rewrite Z.land_ones, Z.shiftr_div_pow2 by done.
  change (2 ^ 4) with 16.
  assert (0 ≤ m `div` 16 < 16) by (split; [apply Z.div_pos|apply Z.div_lt_upper_bound]; lia).
  rewrite (Z.mod_small (m `div` 16)) by lia. apply wrap_small. lia.
Qed.

Lemma low_nibble_range m : 0 ≤ low_nibble m < 16.
Proof. unfold low_nibble. apply Z.mod_pos_bound. lia. Qed.

Lemma high_nibble_range m : 0 ≤ m < 256 → 0 ≤ high_nibble m < 16.
Proof.
  intros. unfold high_nibble.
  split; [apply Z.div_pos|apply Z.div_lt_upper_bound]; lia.
Qed.

(** [(b << 4) | n] for a byte [b] and a nibble [n]. *)
Lemma byte_nibble_id b n :
  0 ≤ b < 256 → 0 ≤ n < 16 →
  Z.lor (u32 (b ≪ 4)) n = b * 16 + n ∧ Z.lor (b ≪ 4) n = b * 16 + n.
Proof.
  intros Hb Hn. rewrite Z.shiftl_mul_pow2 by done. unfold u32.
  rewrite wrap_small by lia.
  split; by apply (lor_mul_pow2_add b 4 n).
Qed.

Lemma v0_bid1_spec b m :
  0 ≤ b < 256 → v0_bid1 b m = Z.lor (b ≪ 4) (low_nibble m).
Proof.
  intros Hb. unfold v0_bid1. rewrite NIBBLE_LO_spec.
  destruct (byte_nibble_id b (low_nibble m) Hb (low_nibble_range m)). congruence.
Qed.

Lemma v0_bid2_spec b m :
  0 ≤ b < 256 → 0 ≤ m < 256 → v0_bid2 b m = Z.lor (b ≪ 4) (high_nibble m).
Proof.
  intros Hb Hm. unfold v0_bid2. rewrite NIBBLE_HI_spec by done.
  destruct (byte_nibble_id b (high_nibble m) Hb (high_nibble_range m Hm)).
  congruence.
Qed.

Lemma v0_id_range b n :
  0 ≤ b < 256 → 0 ≤ n < 16 → 0 ≤ Z.lor (b ≪ 4) n < 4096.
Proof.
  intros Hb Hn. destruct (byte_nibble_id b n Hb Hn) as [_ ->]. lia.
Qed.

(** The four-field identifier of [dsci_v2], from fields in range. *)
Lemma concat_id_lor a2 a b m :
  0 ≤ a2 < 16 → 0 ≤ a < 16 → 0 ≤ b < 256 → 0 ≤ m < 16 →
  Z.lor (Z.lor (Z.lor (u32 (a2 ≪ 16)) (u32 (a ≪ 12))) (u32 (b ≪ 4))) m
  = concat_id a2 a b m
  ∧ Z.lor (Z.lor (Z.lor (a2 ≪ 16) (a ≪ 12)) (b ≪ 4)) m = concat_id a2 a b m.
Proof.
  intros Ha2 Ha Hb Hm. unfold concat_id, u32.
  rewrite !Z.shiftl_mul_pow2, !wrap_small by lia.
  assert (Z.lor (a2 * 2 ^ 16) (a * 2 ^ 12) = a2 * 2 ^ 16 + a * 2 ^ 12) as ->.
  { apply lor_mul_pow2_add; lia. }
  assert (Z.lor (a2 * 2 ^ 16 + a * 2 ^ 12) (b * 2 ^ 4)
          = a2 * 2 ^ 16 + a * 2 ^ 12 + b * 2 ^ 4) as ->.
  { replace (a2 * 2 ^ 16 + a * 2 ^ 12) with ((a2 * 16 + a) * 2 ^ 12) by lia.
    apply lor_mul_pow2_add; lia. }
  assert (Z.lor (a2 * 2 ^ 16 + a * 2 ^ 12 + b * 2 ^ 4) m
          = a2 * 2 ^ 16 + a * 2 ^ 12 + b * 2 ^ 4 + m) as ->; [|done].
  replace (a2 * 2 ^ 16 + a * 2 ^ 12 + b * 2 ^ 4)
    with ((a2 * 4096 + a * 256 + b) * 2 ^ 4) by lia.
  apply lor_mul_pow2_add; lia.
Qed.

Lemma concat_id_range a2 a b m :
  0 ≤ a2 < 16 → 0 ≤ a < 16 → 0 ≤ b < 256 → 0 ≤ m < 16 →
  0 ≤ concat_id a2 a b m < 2 ^ 20.
Proof. unfold concat_id. lia. Qed.

Lemma concat_id_u32 a2 a b m :
  0 ≤ a2 < 16 → 0 ≤ a < 16 → 0 ≤ b < 256 → 0 ≤ m < 16 →
  0 ≤ concat_id a2 a b m < 2 ^ 32.
Proof. unfold concat_id. lia. Qed.

Lemma v2_bid1_spec a2 a b m :
  0 ≤ b < 256 →
  v2_bid1 a2 a b m = concat_id (low_nibble a2) (low_nibble a) b (low_nibble m).
Proof.
  intros Hb. unfold v2_bid1. rewrite !NIBBLE_LO_spec.
  by apply concat_id_lor; try apply low_nibble_range.
Qed.

Lemma v2_bid2_spec a2 a b m :
  0 ≤ a2 < 256 → 0 ≤ a < 256 → 0 ≤ b < 256 → 0 ≤ m < 256 →
  v2_bid2 a2 a b m
  = concat_id (high_nibble a2) (high_nibble a) b (high_nibble m).
Proof.
  intros Ha2 Ha Hb Hm. unfold v2_bid2. rewrite !NIBBLE_HI_spec by done.
  by apply concat_id_lor; try apply high_nibble_range.
Qed.

(** ** The histogram index of the 16-layer decoders *)

Lemma u32_mul16_range ySection : 0 ≤ u32 (ySection * 16) ≤ 2 ^ 32 - 16.
Proof.
  unfold u32, wrap. change (2 ^ 32) with (2 ^ 28 * 16).
  rewrite Z.mul_mod_distr_r by lia.
  pose proof (Z.mod_pos_bound ySection (2 ^ 28)). lia.
Qed.

Lemma layer_coord_eq ySection y :
  0 ≤ y < 16 → layer_coord ySection y = u32 (ySection * 16) + y.
Proof.
  intros. unfold layer_coord, u64. pose proof (u32_mul16_range ySection).
  apply wrap_small. lia.
Qed.

Lemma layer_coord_small ySection y :
  0 ≤ ySection < 2 ^ 28 → 0 ≤ y < 16 →
  layer_coord ySection y = ySection * 16 + y.
Proof.
  intros. rewrite layer_coord_eq by done. unfold u32.
  rewrite wrap_small; lia.
Qed.

Lemma hist_index_eq idLim ySection y bid :
  0 ≤ idLim < 2 ^ 32 → 0 ≤ y < 16 → 0 ≤ bid < 2 ^ 32 →
  hist_index idLim ySection y bid = layer_coord ySection y * idLim + bid.
Proof.
  intros HidLim Hy Hbid. unfold hist_index.
  rewrite layer_coord_eq by done.
  pose proof (u32_mul16_range ySection). unfold u64.
  rewrite (wrap_small 64 ((_ + _) * _)) by nia.
  apply wrap_small. nia.
Qed.

(** ** [dsci_v0] and [dsci_v2] as runs of increments *)

Lemma for_each_two (h : list Z) t1 t2 :
  for_each [t1; t2] (λ t h, incr h t) h = (h' ← incr h t1; incr h' t2).
Proof.
  simpl. destruct (incr h t1) as [h'|]; simpl; [|done].
  by destruct (incr h' t2).
Qed.

Lemma elem_of_v0_ys y : y ∈ v0_ys ↔ ∃ k, y = 2 * k ∧ 0 ≤ k < 64.
Proof.
  unfold v0_ys. rewrite list_elem_of_fmap.
  split; intros (k & -> & Hk); exists k; (split; [done|]).
  - apply elem_of_seqZ in Hk. lia.
  - apply elem_of_seqZ. lia.
Qed.

Lemma dsci_v0_incr_all h blocks metadata :
  wf_v0 blocks metadata →
  dsci_v0 h blocks metadata = incr_all (v0_hits blocks metadata) h.
Proof.
  intros (Hlb & Hlm & Hb & Hm). unfold dsci_v0, incr_all, v0_hits.
  change (16 * 16 * 128 `div` 2) with 16384 in Hlm.
  apply for_each_flat. intros xz s Hxz. apply elem_of_seqZ in Hxz.
  apply for_each_flat. intros y s' Hy. apply elem_of_v0_ys in Hy as (k & -> & Hk).
  unfold v0_pair. rewrite for_each_two. unfold dsci_v0_body.
  assert (0 ≤ (2 * k + xz * 128) `div` 2 < 16384).
  { split; [apply Z.div_pos|apply Z.div_lt_upper_bound]; lia. }
  rewrite !load_get by lia. simpl.
  rewrite v0_bid1_spec, v0_bid2_spec by (apply (get_in_range 8); [done|lia]).
  by rewrite !Z.add_0_r.
Qed.

Lemma v0_hits_bounds blocks metadata :
  wf_v0 blocks metadata →
  Forall (λ t, 0 ≤ t < 128 * 4096) (v0_hits blocks metadata).
Proof.
  intros (Hlb & Hlm & Hb & Hm).
  change (16 * 16 * 128 `div` 2) with 16384 in Hlm.
  unfold v0_hits. apply Forall_bind, Forall_forall. intros xz Hxz.
  apply elem_of_seqZ in Hxz.
  apply Forall_bind, Forall_forall. intros y Hy.
  apply elem_of_v0_ys in Hy as (k & -> & Hk). simpl.
  assert (0 ≤ (2 * k + xz * 128) `div` 2 < 16384).
  { split; [apply Z.div_pos|apply Z.div_lt_upper_bound]; lia. }
  pose proof (v0_id_range (get blocks (2 * k + xz * 128))
    (low_nibble (get metadata ((2 * k + xz * 128) `div` 2)))
    ltac:(apply (get_in_range 8); [done|lia]) (low_nibble_range _)).
  pose proof (v0_id_range (get blocks (2 * k + xz * 128 + 1))
    (high_nibble (get metadata ((2 * k + xz * 128) `div` 2)))
    ltac:(apply (get_in_range 8); [done|lia])
    ltac:(apply high_nibble_range, (get_in_range 8); [done|lia])).
  repeat constructor; lia.
Qed.

Lemma length_v0_hits blocks metadata :
  Z.of_nat (length (v0_hits blocks metadata)) = 16 * 16 * 128.
Proof.
  unfold v0_hits.
  rewrite (length_bind_const _ _ 128), length_seqZ; [lia|].
  intros xz _. by rewrite (length_bind_const _ _ 2).
Qed.

Lemma dsci_v2_incr_all h idLim ySection blocks add add2 metadata :
  wf_v2 blocks add add2 metadata → 0 ≤ idLim < 2 ^ 32 →
  dsci_v2 h idLim ySection blocks add add2 metadata
  = incr_all (v2_hits idLim ySection blocks add add2 metadata) h.
Proof.
  intros (Hlb & Hla & Hla2 & Hlm & Hb & Ha & Ha2 & Hm) HidLim.
  unfold dsci_v2, incr_all, v2_hits.
  apply for_each_flat. intros y s Hy. apply elem_of_seqZ in Hy.
  apply for_each_flat. intros zx s' Hzx. apply elem_of_seqZ in Hzx.
  unfold v2_pair. rewrite for_each_two. unfold dsci_v2_body.
  change (16 * 16 `div` 2) with 128 in *.
  rewrite !load_get by lia. simpl.
  assert (∀ a i, in_range 8 a → 0 ≤ i < Z.of_nat (length a) →
                 0 ≤ get a i < 256) as Hget.
  { intros a i ? ?. by apply (get_in_range 8). }
  rewrite v2_bid1_spec, v2_bid2_spec by (apply Hget; [done|lia]).
  rewrite !hist_index_eq; [done|try lia..];
    apply concat_id_u32;
    first [ apply low_nibble_range
          | apply high_nibble_range, Hget; (done || lia)
          | apply Hget; (done || lia) ].
Qed.

Lemma length_v2_hits idLim ySection blocks add add2 metadata :
  Z.of_nat (length (v2_hits idLim ySection blocks add add2 metadata)) = 4096.
Proof.
  unfold v2_hits.
  rewrite (length_bind_const _ _ 256), length_seqZ; [lia|].
  intros y _. by rewrite (length_bind_const _ _ 2), length_seqZ.
Qed.

(** ** Writing a run of values *)

Lemma emit_app xs ys n u :
  emit (xs ++ ys) n u = and_then (emit xs n u) (λ s, emit ys s.1 s.2).
Proof.
  revert n u. induction xs as [|x xs IH]; intros n u; simpl; [done|].
  destruct (store u n x) as [u'|]; simpl; [|done].
  case_decide; [done|]. apply IH.
Qed.

Lemma store_app_here {A} (pre suf : list A) y x :
  store (pre ++ y :: suf) (Z.of_nat (length pre)) x = Some ((pre ++ [x]) ++ suf).
Proof.
  rewrite store_Some by (rewrite length_app; simpl; lia).
  rewrite Nat2Z.id, insert_app_r_alt, Nat.sub_diag by done.
  simpl. by rewrite <-app_assoc.
Qed.

Lemma emit_Next pre xs suf :
  Z.of_nat (length pre + length xs) < CELLS →
  (length xs ≤ length suf)%nat →
  emit xs (Z.of_nat (length pre)) (pre ++ suf)
  = Some (Next (Z.of_nat (length pre + length xs),
                (pre ++ xs) ++ drop (length xs) suf)).
Proof.
  revert pre suf. induction xs as [|x xs IH]; intros pre suf Hlt Hle; simpl.
  - by rewrite Nat.add_0_r, app_nil_r.
  - destruct suf as [|y suf]; simpl in *; [lia|].
    rewrite store_app_here. simpl.
    rewrite decide_False by lia.
    replace (Z.of_nat (length pre) + 1) with (Z.of_nat (length (pre ++ [x])))
      by (rewrite length_app; simpl; lia).
    rewrite IH by (rewrite ?length_app; simpl; lia).
    rewrite length_app, <-!app_assoc. simpl. do 3 f_equal. lia.
Qed.

Lemma emit_Ret pre xs suf :
  Z.of_nat (length pre) < CELLS ≤ Z.of_nat (length pre + length xs) →
  CELLS ≤ Z.of_nat (length pre + length suf) →
  emit xs (Z.of_nat (length pre)) (pre ++ suf)
  = Some (Ret ((pre ++ take (Z.to_nat CELLS - length pre) xs)
               ++ drop (Z.to_nat CELLS - length pre) suf)).
Proof.
  revert pre suf. induction xs as [|x xs IH]; intros pre suf Hxs Hsuf; simpl.
  - simpl in Hxs. lia.
  - destruct suf as [|y suf]; simpl in *; [lia|].
    rewrite store_app_here. simpl.
    destruct (Z.to_nat CELLS - length pre)%nat as [|k] eqn:Hk; [lia|].
    case_decide.
    + assert (k = 0%nat) as -> by lia. simpl. by rewrite take_0, drop_0.
    + replace (Z.of_nat (length pre) + 1) with (Z.of_nat (length (pre ++ [x])))
        by (rewrite length_app; simpl; lia).
      rewrite IH by (rewrite ?length_app; simpl; lia).
      rewrite length_app. simpl.
      replace (Z.to_nat CELLS - (length pre + 1))%nat with k by lia.
      by rewrite <-!app_assoc.
Qed.

(** ** Bit fields *)

Lemma fields_0 b z : fields b z 0 = [].
Proof. done. Qed.

Lemma fields_succ b z m :
  0 ≤ m → fields b z (m + 1) = Z.land z (Z.ones b) :: fields b (z ≫ b) m.
Proof. intros. unfold fields. by rewrite <-Z_to_little_endian_succ. Qed.

Lemma length_fields b z m : 0 ≤ m → length (fields b z m) = Z.to_nat m.
Proof.
  intros. pose proof (length_Z_to_little_endian m b z). unfold fields. lia.
Qed.

Lemma fields_lookup b z m (i : nat) :
  0 ≤ m → 0 ≤ b →
  fields b z m !! i =
  if decide (Z.of_nat i < m)
  then Some (Z.land (z ≫ (Z.of_nat i * b)) (Z.ones b)) else None.
Proof.
  intros Hm Hb. case_decide.
  - by apply Z_to_little_endian_lookup_Some.
  - apply lookup_ge_None. rewrite length_fields; lia.
Qed.

Lemma fields_range b z m : 0 ≤ m → 0 ≤ b → in_range b (fields b z m).
Proof. intros. by apply Z_to_little_endian_bound. Qed.

(** Two numbers with the same low [B] bits have the same fields there. *)
Lemma fields_ext b z z' m B :
  0 ≤ m → 0 ≤ b → m * b ≤ B →
  (∀ i, 0 ≤ i < B → Z.testbit z i = Z.testbit z' i) →
  fields b z m = fields b z' m.
Proof.
  intros Hm Hb HB Hbits. apply list_eq. intros i.
  rewrite !fields_lookup by done. case_decide; [|done]. f_equal.
  apply Z.bits_inj'. intros k Hk.
  rewrite !Z.land_spec, !Z.shiftr_spec by done.
  destruct (decide (k < b)).
  - rewrite Hbits; [done|]. nia.
  - by rewrite Z.ones_spec_high, !andb_false_r by lia.
Qed.

Lemma fields_app b z m1 m2 :
  0 ≤ m1 → 0 ≤ m2 → 0 ≤ b →
  fields b z (m1 + m2) = fields b z m1 ++ fields b (z ≫ (m1 * b)) m2.
Proof.
  intros Hm1 Hm2 Hb. apply list_eq. intros i.
  destruct (decide (Z.of_nat i < m1)).
  - rewrite lookup_app_l by (rewrite length_fields; lia).
    rewrite !fields_lookup by lia. by rewrite !decide_True by lia.
  - rewrite lookup_app_r by (rewrite length_fields; lia).
    rewrite length_fields, !fields_lookup by lia.
    destruct (decide (Z.of_nat i < m1 + m2)).
    + rewrite decide_True by lia. f_equal.
      rewrite Z.shiftr_shiftr by nia. do 2 f_equal. nia.
    + by rewrite decide_False by lia.
Qed.

Lemma take_fields b z m k :
  0 ≤ Z.of_nat k ≤ m → 0 ≤ b → take k (fields b z m) = fields b z (Z.of_nat k).
Proof.
  intros Hk Hb.
  replace m with (Z.of_nat k + (m - Z.of_nat k)) by lia.
  rewrite fields_app by lia.
  apply take_app_length'. rewrite length_fields; lia.
Qed.

Lemma land_ones_range z B : 0 ≤ B → 0 ≤ Z.land z (Z.ones B) < 2 ^ B.
Proof.
  intros. rewrite Z.land_ones by done. apply Z.mod_pos_bound.
  by apply Z.pow_pos_nonneg.
Qed.

Lemma testbit_high z B i : 0 ≤ z < 2 ^ B → B ≤ i → Z.testbit z i = false.
Proof.
  intros Hz Hi. destruct (decide (0 ≤ B)) as [HB|HB].
  - rewrite <-(Z.mod_small z (2 ^ B)) by done.
    apply Z.mod_pow2_bits_high. lia.
  - rewrite Z.pow_neg_r in Hz by lia. lia.
Qed.

Lemma shiftr_land_ones z B k :
  0 ≤ k ≤ B → Z.land z (Z.ones B) ≫ k = Z.land (z ≫ k) (Z.ones (B - k)).
Proof.
  intros Hk. apply Z.bits_inj'. intros i Hi.
  rewrite Z.shiftr_spec, !Z.land_spec, Z.shiftr_spec by done.
  rewrite !Z.testbit_ones_nonneg by lia. f_equal.
  destruct (Z.ltb_spec (i + k) B), (Z.ltb_spec i (B - k)); (done || lia).
Qed.

Lemma idx_mask_ones b : 0 ≤ b ≤ 16 → idx_mask b = Z.ones b.
Proof.
  intros Hb. unfold idx_mask, u16, Z.ones.
  rewrite <-Z.sub_1_r. apply wrap_small.
  rewrite Z.shiftl_1_l.
  pose proof (Z.pow_pos_nonneg 2 b). pose proof (Z.pow_le_mono_r 2 b 16).
  lia.
Qed.

(** ** The extraction loops as runs of fields *)

Lemma and_then_assoc {S S' S'' R} (r : option (ctl S R))
    (k : S → option (ctl S' R)) (k' : S' → option (ctl S'' R)) :
  and_then (and_then r k) k' = and_then r (λ s, and_then (k s) k').
Proof. by destruct r as [[s|o]|]. Qed.

Lemma and_then_ext {S S' R} (r : option (ctl S R))
    (k k' : S → option (ctl S' R)) :
  (∀ s, k s = k' s) → and_then r k = and_then r k'.
Proof. intros Hk. destruct r as [[s|o]|]; simpl; auto. Qed.

(** The [while] loop drains [bufSize / idxBits] fields of [packBuf]. *)
Lemma wc_while_emit fuel b n j P B u :
  1 ≤ b ≤ 16 → 0 ≤ B < 2 ^ 32 → (Z.to_nat (B `div` b) < fuel)%nat →
  wc_while fuel b (idx_mask b) (WcState n j P B u)
  = and_then (emit (fields b P (B `div` b)) n u)
      (λ s, Some (Next (WcState s.1 j (P ≫ (b * (B `div` b)))
                                (B `mod` b) s.2))).
Proof.
  intros Hb. revert n P B u.
  induction fuel as [|fuel IH]; intros n P B u HB Hfuel; [lia|].
  simpl. case_decide as Hle; simpl.
  - assert (B `div` b = (B - b) `div` b + 1) as Hdiv.
    { replace B with (B - b + 1 * b) at 1 by lia.
      rewrite Z.div_add by lia. done. }
    assert (0 ≤ (B - b) `div` b) by (apply Z.div_pos; lia).
    rewrite Hdiv, fields_succ by done. simpl.
    rewrite idx_mask_ones by lia.
    assert (u16 (Z.land P (Z.ones b)) = Z.land P (Z.ones b)) as ->.
    { apply wrap_small. pose proof (land_ones_range P b).
      pose proof (Z.pow_le_mono_r 2 b 16). lia. }
    destruct (store u n (Z.land P (Z.ones b))) as [u'|]; simpl; [|done].
    case_decide; [done|].
    assert (u32 (B - b) = B - b) as -> by (apply wrap_small; lia).
    rewrite <-idx_mask_ones, IH by lia.
    apply and_then_ext. intros s. do 3 f_equal.
    + rewrite Z.shiftr_shiftr by nia. f_equal. lia.
    + replace B with (B - b + 1 * b) at 2 by lia.
      by rewrite Z.mod_add by lia.
  - rewrite Z.div_small, fields_0 by lia. simpl.
    by rewrite Z.mul_0_r, Z.shiftr_0_r, Z.mod_small by lia.
Qed.

(** The [for] loop of [unpack_block_idxs_nc] is the same loop, on [i] and
    [buf]. *)
Lemma nc_for_wc_while fuel b mask i buf n u j :
  nc_for fuel b mask i buf n u
  = and_then (wc_while fuel b mask (WcState n j buf i u))
      (λ st, Some (Next (wc_iout st, wc_unpacked st))).
Proof.
  revert i buf n u. induction fuel as [|fuel IH]; intros i buf n u; [done|].
  simpl. case_decide; simpl; [|done].
  destruct (store u n _) as [u'|]; simpl; [|done].
  case_decide; [done|]. apply IH.
Qed.

Lemma nc_for_emit b w n u :
  1 ≤ b ≤ 16 →
  nc_for (Z.to_nat CELLS) b (idx_mask b) 64 w n u
  = and_then (emit (fields b w (64 `div` b)) n u) (λ s, Some (Next s)).
Proof.
  intros Hb. rewrite (nc_for_wc_while _ _ _ _ _ _ _ 0).
  rewrite wc_while_emit; [|done|done|].
  - rewrite and_then_assoc. apply and_then_ext. by intros [n' u'].
  - assert (64 `div` b ≤ 64) by (apply Z.div_le_upper_bound; lia).
    assert (0 ≤ 64 `div` b) by (apply Z.div_pos; lia).
    rewrite CELLS_eq. lia.
Qed.

(** ** What [unpack_block_idxs_nc] writes *)

Lemma per_word_range b : 1 ≤ b ≤ 16 → 4 ≤ 64 `div` b ≤ 64.
Proof.
  intros. split; [apply Z.div_le_lower_bound|apply Z.div_le_upper_bound]; lia.
Qed.

Lemma drop_lookup_cons {A} (l : list A) (j : nat) w ws :
  drop j l = w :: ws → l !! j = Some w ∧ drop (S j) l = ws.
Proof.
  intros Hd. split.
  - rewrite <-(Nat.add_0_r j), <-lookup_drop, Hd. done.
  - rewrite <-(Nat.add_1_r j), <-drop_drop, Hd. done.
Qed.

Lemma nc_loop_S fuel packed b mask n j u :
  nc_loop (S fuel) packed b mask n j u
  = (buf ← load packed j;
     r ← nc_for (Z.to_nat CELLS) b mask 64 buf n u;
     match r with
     | Ret unpacked => Some unpacked
     | Next (iout, unpacked) => nc_loop fuel packed b mask iout (j + 1) unpacked
     end).
Proof. reflexivity. Qed.

Lemma bind_Some_l {A B} (x : A) (f : A → option B) : Some x ≫= f = f x.
Proof. done. Qed.

Lemma nc_loop_spec b packed ws fuel j pre suf :
  1 ≤ b ≤ 16 → 0 ≤ j → drop (Z.to_nat j) packed = ws →
  Z.of_nat (length pre) < CELLS →
  CELLS ≤ Z.of_nat (length pre + length suf) →
  CELLS ≤ Z.of_nat (length pre) + 64 `div` b * Z.of_nat (length ws) →
  (Z.to_nat CELLS - length pre ≤ fuel)%nat →
  nc_loop fuel packed b (idx_mask b) (Z.of_nat (length pre)) j (pre ++ suf)
  = Some ((pre ++ take (Z.to_nat CELLS - length pre) (nc_stream b ws))
          ++ drop (Z.to_nat CELLS - length pre) suf).
Proof.
  intros Hb. pose proof (per_word_range b Hb) as Hper.
  revert fuel j pre suf.
  induction ws as [|w ws IH]; intros fuel j pre suf Hj Hd Hpre Hsuf Hws Hfuel.
  { simpl in Hws. lia. }
  destruct fuel as [|fuel]; [lia|]. rewrite nc_loop_S.
  apply drop_lookup_cons in Hd as [Hw Hd].
  rewrite load_lookup, Hw, bind_Some_l by done.
  rewrite nc_for_emit by done.
  assert (length (fields b w (64 `div` b)) = Z.to_nat (64 `div` b)) as Hlen
    by (apply length_fields; lia).
  change (nc_stream b (w :: ws))
    with (fields b w (64 `div` b) ++ nc_stream b ws).
  destruct (decide (CELLS ≤ Z.of_nat (length pre) + 64 `div` b)) as [Hret|Hgo].
  - rewrite emit_Ret by (rewrite ?Hlen; lia).
    unfold and_then. rewrite !bind_Some_l.
    by rewrite take_app_le by lia.
  - rewrite emit_Next by (rewrite ?Hlen; lia).
    unfold and_then. rewrite !bind_Some_l.
    replace (Z.of_nat (length pre + length (fields b w (64 `div` b))))
      with (Z.of_nat (length (pre ++ fields b w (64 `div` b))))
      by (by rewrite length_app).
    rewrite IH; cycle 1.
    { lia. }
    { by replace (Z.to_nat (j + 1)) with (S (Z.to_nat j)) by lia. }
    { rewrite length_app. lia. }
    { rewrite length_app, length_drop. lia. }
    { rewrite length_app. simpl in Hws. lia. }
    { rewrite length_app. lia. }
    rewrite length_app, take_app_ge, drop_drop, <-!app_assoc by lia.
    rewrite Hlen. repeat (f_equal; try lia).
Qed.

Lemma unpack_nc_spec packed b u0 :
  1 ≤ b ≤ 16 → CELLS ≤ Z.of_nat (length u0) →
  CELLS ≤ 64 `div` b * Z.of_nat (length packed) →
  unpack_block_idxs_nc packed b u0
  = Some (take (Z.to_nat CELLS) (nc_stream b packed)
          ++ drop (Z.to_nat CELLS) u0).
Proof.
  intros Hb Hu Hp. unfold unpack_block_idxs_nc.
  rewrite decide_False by lia.
  pose proof (nc_loop_spec b packed packed (Z.to_nat CELLS) 0 [] u0) as H.
  simpl in H. rewrite Nat.sub_0_r in H. apply H; (done || lia).
Qed.

(** ** What [unpack_block_idxs_wc] writes *)

Lemma feed_bits S k B c :
  0 ≤ k → 0 ≤ B → 0 ≤ c < 2 ^ 32 →
  (∀ i, 0 ≤ i < 32 → Z.testbit c i = Z.testbit S (k + B + i)) →
  Z.lor (Z.land (S ≫ k) (Z.ones B)) (c ≪ B)
  = Z.land (S ≫ k) (Z.ones (B + 32)).
Proof.
  intros Hk HB Hc Hbits. apply Z.bits_inj'. intros i Hi.
  rewrite Z.lor_spec, !Z.land_spec, Z.shiftr_spec, Z.shiftl_spec by done.
  rewrite !Z.testbit_ones_nonneg by lia.
  destruct (Z.ltb_spec i B), (Z.ltb_spec i (B + 32)); try lia.
  - by rewrite (Z.testbit_neg_r c (i - B)), andb_true_r, orb_false_r by lia.
  - rewrite andb_false_r, andb_true_r, Hbits by lia. simpl. f_equal. lia.
  - rewrite !andb_false_r. simpl. apply (testbit_high c 32); [done|lia].
Qed.

Lemma land_ones_testbit z B i :
  0 ≤ i < B → Z.testbit (Z.land z (Z.ones B)) i = Z.testbit z i.
Proof.
  intros. rewrite Z.land_spec, Z.ones_spec_low by done. apply andb_true_r.
Qed.

Lemma wc_loop_S fuel packed b mask st :
  wc_loop (S fuel) packed b mask st
  = (r ← wc_turn (Z.to_nat CELLS) packed b mask st;
     match r with
     | Ret unpacked => Some unpacked
     | Next st => wc_loop fuel packed b mask st
     end).
Proof. reflexivity. Qed.

(** One feed of 32 bits and the drain that follows it. *)
Lemma wc_half b S u0 T st c j' :
  1 ≤ b ≤ 16 → CELLS ≤ Z.of_nat (length u0) → 0 ≤ T →
  wc_inv b S u0 T st →
  0 ≤ c < 2 ^ 32 →
  (∀ i, 0 ≤ i < 32 → Z.testbit c i = Z.testbit S (T + i)) →
  ∃ r,
    wc_while (Z.to_nat CELLS) b (idx_mask b)
      (WcState (wc_iout st) j' (Z.lor (wc_packBuf st) (c ≪ wc_bufSize st))
               (wc_bufSize st + 32) (wc_unpacked st)) = Some r
    ∧ match r with
      | Ret out => out = wc_final b S u0 ∧ CELLS * b ≤ T + 32
      | Next st' =>
        wc_inv b S u0 (T + 32) st' ∧ wc_iin st' = j'
        ∧ wc_iout st < wc_iout st'
      end.
Proof.
  intros Hb Hu0 HT (Hn & HB & HBb & HP & Hu) Hc Hbits.
  destruct st as [n j P B u]. simpl in *.
  pose proof CELLS_eq as HC.
  set (B1 := B + 32). set (c1 := B1 `div` b).
  assert (0 ≤ n * b) by nia.
  assert (2 ≤ c1 ≤ 47) as Hc1.
  { unfold c1, B1. split; [apply Z.div_le_lower_bound|apply Z.div_le_upper_bound]; lia. }
  assert (B1 `mod` b = B1 - b * c1) as Hmod by (unfold c1; rewrite Z.mod_eq; lia).
  pose proof (Z.mod_pos_bound B1 b ltac:(lia)) as Hmodb.
  rewrite wc_while_emit by (fold B1 c1; lia). fold B1 c1.
  assert (Z.lor P (c ≪ B) = Z.land (S ≫ (n * b)) (Z.ones B1)) as HP1.
  { rewrite HP. apply feed_bits; [lia..|].
    intros i Hi. rewrite Hbits by done. f_equal. lia. }
  rewrite HP1.
  rewrite (fields_ext b _ (S ≫ (n * b)) c1 B1); [|lia..|]; cycle 1.
  { intros i Hi. by apply land_ones_testbit. }
  set (pre := fields b S n). set (xs := fields b (S ≫ (n * b)) c1).
  assert (length pre = Z.to_nat n) as Hpre by (apply length_fields; lia).
  assert (length xs = Z.to_nat c1) as Hxs by (apply length_fields; lia).
  rewrite Hu. fold pre.
  assert (emit xs n (pre ++ drop (Z.to_nat n) u0)
          = emit xs (Z.of_nat (length pre)) (pre ++ drop (Z.to_nat n) u0))
    as -> by (f_equal; lia).
  destruct (decide (CELLS ≤ n + c1)) as [Hret|Hgo].
  - rewrite emit_Ret by (rewrite ?length_drop; lia).
    eexists. split; [done|]. split; [|unfold B1 in *; nia]. unfold wc_final.
    rewrite drop_drop, Hpre. f_equal; [|f_equal; lia].
    unfold xs. rewrite (take_fields _ _ c1) by lia.
    unfold pre. rewrite <-fields_app by lia. f_equal. lia.
  - rewrite emit_Next by (rewrite ?length_drop; lia).
    eexists. split; [done|]. simpl.
    assert (Z.of_nat (length pre + length xs) = n + c1) as -> by lia.
    split; [|split; [done|lia]].
    unfold wc_inv. simpl.
    split; [lia|]. split; [rewrite Hmod; unfold B1; nia|]. split; [lia|].
    split.
    + rewrite shiftr_land_ones, Z.shiftr_shiftr by nia.
      rewrite Hmod. f_equal; f_equal; nia.
    + rewrite drop_drop, Hxs. unfold pre, xs.
      rewrite <-fields_app by lia. f_equal. f_equal. lia.
Qed.

Lemma wc_word_bits packed (j : nat) w i :
  in_range 64 packed → packed !! j = Some w → 0 ≤ i < 64 →
  Z.testbit (wc_bits packed) (64 * Z.of_nat j + i) = Z.testbit w i.
Proof.
  intros Hp Hw Hi. unfold wc_bits.
  assert ((64 * Z.of_nat j + i) `div` 64 = Z.of_nat j) as Hdiv.
  { rewrite Z.mul_comm, Z.div_add_l, Z.div_small by lia. lia. }
  rewrite (little_endian_to_Z_spec 64 packed _ w); [|lia|done|done|].
  - f_equal. rewrite Z.mul_comm, Z.add_comm, Z.mod_add by lia.
    by apply Z.mod_small.
  - by rewrite Hdiv, Nat2Z.id.
Qed.

Lemma shl_small c B :
  0 ≤ c < 2 ^ 32 → 0 ≤ B < 16 → shl 64 c B = Some (c ≪ B).
Proof.
  intros Hc HB. unfold shl. rewrite decide_True by lia. f_equal.
  apply wrap_small. rewrite Z.shiftl_mul_pow2 by lia.
  assert (0 < 2 ^ B ≤ 2 ^ 16).
  { split; [apply Z.pow_pos_nonneg|apply Z.pow_le_mono_r]; lia. }
  change (2 ^ 64) with (2 ^ 32 * 2 ^ 32). nia.
Qed.

Lemma wc_turn_spec b packed u0 st :
  1 ≤ b ≤ 16 → CELLS ≤ Z.of_nat (length u0) →
  in_range 64 packed → wc_iin st < Z.of_nat (length packed) →
  0 ≤ wc_iin st →
  wc_inv b (wc_bits packed) u0 (64 * wc_iin st) st →
  ∃ r,
    wc_turn (Z.to_nat CELLS) packed b (idx_mask b) st = Some r
    ∧ match r with
      | Ret out =>
        out = wc_final b (wc_bits packed) u0
        ∧ CELLS * b ≤ 64 * (wc_iin st + 1)
      | Next st' =>
        wc_inv b (wc_bits packed) u0 (64 * wc_iin st') st'
        ∧ wc_iin st' = wc_iin st + 1
        ∧ wc_iout st < wc_iout st'
      end.
Proof.
  intros Hb Hu0 Hp Hlen Hj Hinv.
  pose proof Hinv as (Hn & HB & HBb & _).
  pose proof CELLS_eq as HC.
  destruct (lookup_lt_is_Some_2 packed (Z.to_nat (wc_iin st))) as [w Hw];
    [lia|].
  pose proof (Forall_lookup_1 _ _ _ _ Hp Hw) as Hwr. simpl in Hwr.
  unfold wc_turn. rewrite load_lookup, Hw, bind_Some_l by done.
  change 4294967295 with (Z.ones 32).
  rewrite shl_small, bind_Some_l by (try apply land_ones_range; lia).
  assert (u32 (wc_bufSize st + 32) = wc_bufSize st + 32) as ->
    by (apply wrap_small; lia).
  destruct (wc_half b (wc_bits packed) u0 (64 * wc_iin st) st
              (Z.land w (Z.ones 32)) (wc_iin st))
    as (r & Hr & Hpost); [done|done|lia|done|by apply land_ones_range| |].
  { intros i Hi. rewrite land_ones_testbit by done.
    rewrite <-(wc_word_bits packed (Z.to_nat (wc_iin st)) w) by (done || lia).
    f_equal. lia. }
  rewrite Hr, bind_Some_l. destruct r as [st1|out].
  - destruct Hpost as (Hinv1 & Hj1 & Hlt).
    pose proof Hinv1 as (Hn1 & HB1 & HBb1 & _).
    rewrite Hj1, load_lookup, Hw, bind_Some_l by done.
    assert (0 ≤ w ≫ 32 < 2 ^ 32) as Hhi.
    { rewrite Z.shiftr_div_pow2 by done.
      split; [apply Z.div_pos|apply Z.div_lt_upper_bound]; lia. }
    rewrite shl_small, bind_Some_l by lia.
    assert (u32 (wc_bufSize st1 + 32) = wc_bufSize st1 + 32) as ->
      by (apply wrap_small; lia).
    destruct (wc_half b (wc_bits packed) u0 (64 * wc_iin st + 32) st1
                (w ≫ 32) (wc_iin st + 1))
      as (r & Hr' & Hpost'); [done|done|lia|done|done| |].
    { intros i Hi. rewrite Z.shiftr_spec by lia.
      rewrite <-(wc_word_bits packed (Z.to_nat (wc_iin st)) w) by (done || lia).
      f_equal. lia. }
    exists r. split; [done|]. destruct r as [st2|out].
    + destruct Hpost' as (Hinv2 & Hj2 & Hlt').
      split; [|split; [done|lia]].
      by replace (64 * wc_iin st2) with (64 * wc_iin st + 32 + 32) by lia.
    + destruct Hpost' as [-> ?]. split; [done|lia].
  - exists (Ret out). split; [done|].
    destruct Hpost as [-> ?]. split; [done|lia].
Qed.

Lemma wc_loop_spec b packed u0 fuel st :
  1 ≤ b ≤ 16 → CELLS ≤ Z.of_nat (length u0) →
  in_range 64 packed → 64 * b ≤ Z.of_nat (length packed) →
  0 ≤ wc_iin st →
  wc_inv b (wc_bits packed) u0 (64 * wc_iin st) st →
  (Z.to_nat (CELLS - wc_iout st) ≤ fuel)%nat →
  wc_loop fuel packed b (idx_mask b) st
  = Some (wc_final b (wc_bits packed) u0).
Proof.
  intros Hb Hu0 Hp Hlen. revert st.
  induction fuel as [|fuel IH]; intros st Hj Hinv Hfuel.
  { destruct Hinv as (Hn & _). lia. }
  rewrite wc_loop_S.
  assert (wc_iin st < Z.of_nat (length packed)) as Hin.
  { destruct Hinv as (Hn & HB & HBb & _). pose proof CELLS_eq. nia. }
  destruct (wc_turn_spec b packed u0 st) as (r & Hr & Hpost); [done..|].
  rewrite Hr, bind_Some_l. destruct r as [st'|out].
  - destruct Hpost as (Hinv' & Hj' & Hlt). apply IH; [lia|done|lia].
  - by destruct Hpost as [-> _].
Qed.

Lemma unpack_wc_spec packed b u0 :
  1 ≤ b ≤ 16 → CELLS ≤ Z.of_nat (length u0) →
  in_range 64 packed → 64 * b ≤ Z.of_nat (length packed) →
  unpack_block_idxs_wc packed b u0
  = Some (fields b (wc_bits packed) CELLS ++ drop (Z.to_nat CELLS) u0).
Proof.
  intros Hb Hu0 Hp Hlen. unfold unpack_block_idxs_wc.
  rewrite decide_False by lia.
  apply wc_loop_spec; [done..| |simpl; lia].
  pose proof CELLS_eq. unfold wc_inv. simpl.
  repeat split; try lia.
  by rewrite Z.land_0_r.
Qed.

(** ** Width 0: every field is empty and the loops run up to the return *)

Lemma wc_while_zero fuel j P B pre suf :
  0 ≤ B < 2 ^ 32 →
  Z.of_nat (length pre) < CELLS →
  CELLS ≤ Z.of_nat (length pre + length suf) →
  (Z.to_nat CELLS - length pre ≤ fuel)%nat →
  wc_while fuel 0 (idx_mask 0) (WcState (Z.of_nat (length pre)) j P B (pre ++ suf))
  = Some (Ret ((pre ++ replicate (Z.to_nat CELLS - length pre) 0)
               ++ drop (Z.to_nat CELLS - length pre) suf)).
Proof.
  intros HB. revert pre suf.
  induction fuel as [|fuel IH]; intros pre suf Hpre Hsuf Hfuel; [lia|].
  simpl. rewrite decide_True by lia.
  destruct suf as [|y suf]; [simpl in Hsuf; lia|].
  assert (u16 (Z.land P (idx_mask 0)) = 0) as ->.
  { change (idx_mask 0) with 0. by rewrite Z.land_0_r. }
  rewrite store_app_here, bind_Some_l.
  destruct (Z.to_nat CELLS - length pre)%nat as [|k] eqn:Hk; [lia|].
  case_decide.
  - assert (k = 0%nat) as -> by lia. simpl. by rewrite drop_0.
  - rewrite Z.shiftr_0_r, Z.sub_0_r.
    assert (u32 B = B) as -> by (by apply wrap_small).
    replace (Z.of_nat (length pre) + 1) with (Z.of_nat (length (pre ++ [0])))
      by (rewrite length_app; simpl; lia).
    simpl in Hsuf.
    rewrite IH by (rewrite ?length_app; simpl; lia).
    rewrite length_app. simpl.
    replace (Z.to_nat CELLS - (length pre + 1))%nat with k by lia.
    by rewrite <-!app_assoc.
Qed.

Lemma load_cons_0 {A} (w : A) l : load (w :: l) 0 = Some w.
Proof. done. Qed.

Lemma unpack_wc_zero packed u0 :
  CELLS ≤ Z.of_nat (length u0) → (1 ≤ length packed)%nat →
  unpack_block_idxs_wc packed 0 u0
  = Some (replicate (Z.to_nat CELLS) 0 ++ drop (Z.to_nat CELLS) u0).
Proof.
  intros Hu0 Hp. pose proof CELLS_eq as HC.
  unfold unpack_block_idxs_wc. rewrite decide_False by lia.
  destruct (Z.to_nat CELLS) as [|f] eqn:Hf; [lia|].
  rewrite wc_loop_S. unfold wc_turn.
  destruct packed as [|w packed]; [simpl in Hp; lia|].
  cbn [wc_iin wc_iout wc_packBuf wc_bufSize wc_unpacked].
  rewrite load_cons_0, bind_Some_l.
  change 4294967295 with (Z.ones 32).
  rewrite shl_small, bind_Some_l by (try apply land_ones_range; lia).
  change (u32 (0 + 32)) with 32.
  rewrite (wc_while_zero _ 0 _ 32 [] u0) by (simpl; lia).
  rewrite bind_Some_l. simpl. by rewrite Hf, Nat.sub_0_r.
Qed.

Lemma unpack_nc_zero packed u0 :
  CELLS ≤ Z.of_nat (length u0) → (1 ≤ length packed)%nat →
  unpack_block_idxs_nc packed 0 u0
  = Some (replicate (Z.to_nat CELLS) 0 ++ drop (Z.to_nat CELLS) u0).
Proof.
  intros Hu0 Hp. pose proof CELLS_eq as HC.
  unfold unpack_block_idxs_nc. rewrite decide_False by lia.
  destruct (Z.to_nat CELLS) as [|f] eqn:Hf; [lia|].
  rewrite nc_loop_S.
  destruct packed as [|w packed]; [simpl in Hp; lia|].
  rewrite load_cons_0, bind_Some_l, (nc_for_wc_while _ _ _ _ _ _ _ 0).
  rewrite (wc_while_zero _ 0 _ 64 [] u0) by (simpl; lia).
  simpl. by rewrite Hf, Nat.sub_0_r.
Qed.

(** ** Widths that divide 32: the two unpackers run in step *)

Lemma wc_turn_and_then fuel packed b mask st :
  wc_turn fuel packed b mask st
  = (w ← load packed (wc_iin st);
     lo ← shl 64 (Z.land w 4294967295) (wc_bufSize st);
     and_then
       (wc_while fuel b mask
          (WcState (wc_iout st) (wc_iin st) (Z.lor (wc_packBuf st) lo)
                   (u32 (wc_bufSize st + 32)) (wc_unpacked st)))
       (λ st,
          w ← load packed (wc_iin st);
          hi ← shl 64 (w ≫ 32) (wc_bufSize st);
          wc_while fuel b mask
            (WcState (wc_iout st) (wc_iin st + 1) (Z.lor (wc_packBuf st) hi)
                     (u32 (wc_bufSize st + 32)) (wc_unpacked st)))).
Proof. reflexivity. Qed.

Lemma and_then_Next {S S' R} (s : S) (k : S → option (ctl S' R)) :
  and_then (Some (Next s)) k = k s.
Proof. done. Qed.

Lemma shiftr_32_small c : 0 ≤ c < 2 ^ 32 → c ≫ 32 = 0.
Proof. intros. rewrite Z.shiftr_div_pow2 by done. by apply Z.div_small. Qed.

(** A word splits into the fields of its low half and those of its high
    half. *)
Lemma fields_word_halves b w :
  1 ≤ b ≤ 16 → 32 `mod` b = 0 →
  fields b w (64 `div` b)
  = fields b (Z.land w (Z.ones 32)) (32 `div` b)
    ++ fields b (w ≫ 32) (32 `div` b).
Proof.
  intros Hb Hdiv.
  assert (32 = b * (32 `div` b)) as H32.
  { pose proof (Z.div_mod 32 b ltac:(lia)). lia. }
  assert (0 ≤ 32 `div` b) by (apply Z.div_pos; lia).
  assert (64 `div` b = 32 `div` b + 32 `div` b) as ->.
  { symmetry. apply (Z.div_unique_exact 64 b); lia. }
  rewrite fields_app by lia.
  replace (32 `div` b * b) with 32 by lia. f_equal.
  apply (fields_ext b _ _ _ 32); [lia..|].
  intros i Hi. by rewrite land_ones_testbit.
Qed.

Lemma wc_turn_aligned b packed n j u :
  1 ≤ b ≤ 16 → 32 `mod` b = 0 → in_range 64 packed → 0 ≤ j →
  wc_turn (Z.to_nat CELLS) packed b (idx_mask b) (WcState n j 0 0 u)
  = (w ← load packed j;
     and_then (emit (fields b w (64 `div` b)) n u)
       (λ s, Some (Next (WcState s.1 (j + 1) 0 0 s.2)))).
Proof.
  intros Hb Hdiv Hp Hj. pose proof CELLS_eq as HC.
  rewrite wc_turn_and_then.
  cbn [wc_iin wc_iout wc_packBuf wc_bufSize wc_unpacked].
  rewrite load_lookup by done.
  destruct (packed !! Z.to_nat j) as [w|] eqn:Hw; [|done].
  pose proof (Forall_lookup_1 _ _ _ _ Hp Hw) as Hwr. simpl in Hwr.
  rewrite !bind_Some_l.
  change 4294967295 with (Z.ones 32).
  pose proof (land_ones_range w 32 ltac:(lia)) as Hlo.
  assert (0 ≤ w ≫ 32 < 2 ^ 32) as Hhi.
  { rewrite Z.shiftr_div_pow2 by done.
    split; [apply Z.div_pos|apply Z.div_lt_upper_bound]; lia. }
  assert (0 ≤ 32 `div` b ≤ 32) as Hq.
  { split; [apply Z.div_pos|apply Z.div_le_upper_bound]; lia. }
  assert (b * (32 `div` b) = 32) as H32.
  { pose proof (Z.div_mod 32 b ltac:(lia)). lia. }
  rewrite shl_small, bind_Some_l by lia.
  rewrite Z.shiftl_0_r, Z.lor_0_l.
  change (u32 (0 + 32)) with 32.
  rewrite wc_while_emit by lia.
  rewrite and_then_assoc, fields_word_halves, emit_app, and_then_assoc by done.
  apply and_then_ext. intros [n1 u1].
  rewrite and_then_Next.
  cbn [wc_iin wc_iout wc_packBuf wc_bufSize wc_unpacked fst snd].
  rewrite load_lookup, Hw, bind_Some_l by done.
  rewrite Hdiv, H32, shl_small, bind_Some_l by lia.
  rewrite Z.shiftl_0_r, (shiftr_32_small (Z.land w (Z.ones 32))), Z.lor_0_l
    by done.
  change (u32 (0 + 32)) with 32.
  rewrite wc_while_emit by lia.
  by rewrite Hdiv, H32, (shiftr_32_small (w ≫ 32)).
Qed.

Lemma wc_nc_loop_aligned b packed fuel n j u :
  1 ≤ b ≤ 16 → 32 `mod` b = 0 → in_range 64 packed → 0 ≤ j →
  wc_loop fuel packed b (idx_mask b) (WcState n j 0 0 u)
  = nc_loop fuel packed b (idx_mask b) n j u.
Proof.
  intros Hb Hdiv Hp. revert n j u.
  induction fuel as [|fuel IH]; intros n j u Hj; [done|].
  rewrite wc_loop_S, nc_loop_S, wc_turn_aligned by done.
  destruct (load packed j) as [w|]; [|done].
  rewrite !bind_Some_l, nc_for_emit by done.
  destruct (emit (fields b w (64 `div` b)) n u) as [[[n' u']|out]|];
    [|done..].
  rewrite !and_then_Next, !bind_Some_l. apply IH. lia.
Qed.

Lemma unpack_wc_nc_aligned b packed u :
  1 ≤ b ≤ 16 → 32 `mod` b = 0 → in_range 64 packed →
  unpack_block_idxs_wc packed b u = unpack_block_idxs_nc packed b u.
Proof.
  intros Hb Hdiv Hp. unfold unpack_block_idxs_wc, unpack_block_idxs_nc.
  rewrite !decide_False by lia. by apply wc_nc_loop_aligned.
Qed.

(** ** The packers *)

Lemma little_endian_to_Z_zeros n k :
  little_endian_to_Z n (replicate k 0) = 0.
Proof.
  induction k as [|k IH]; simpl; [done|]. by rewrite IH, Z.shiftl_0_l.
Qed.

Lemma little_endian_to_Z_pad n l k :
  little_endian_to_Z n (l ++ replicate k 0) = little_endian_to_Z n l.
Proof.
  induction l as [|x l IH]; simpl.
  - apply little_endian_to_Z_zeros.
  - by rewrite IH.
Qed.

Lemma little_endian_to_Z_app n l1 l2 :
  0 ≤ n →
  little_endian_to_Z n (l1 ++ l2)
  = Z.lor (little_endian_to_Z n l1)
          (little_endian_to_Z n l2 ≪ (n * Z.of_nat (length l1))).
Proof.
  intros Hn. induction l1 as [|x l1 IH]; simpl length; simpl app.
  - simpl. by rewrite Z.mul_0_r, Z.shiftl_0_r.
  - cbn [little_endian_to_Z]. rewrite IH, Z.shiftl_lor, Z.lor_assoc.
    rewrite Z.shiftl_shiftl by lia. do 2 f_equal. lia.
Qed.

(** The fields of a packed run are its values, then zeros. *)
Lemma fields_little_endian b l m :
  0 ≤ b → in_range b l → Z.of_nat (length l) ≤ m →
  fields b (little_endian_to_Z b l) m
  = l ++ replicate (Z.to_nat m - length l) 0.
Proof.
  intros Hb Hl Hm.
  rewrite <-(little_endian_to_Z_pad b l (Z.to_nat m - length l)).
  unfold fields. apply Z_to_little_endian_to_Z; [|done|].
  - rewrite length_app, length_replicate. lia.
  - apply Forall_app. split; [done|].
    apply Forall_replicate. split; [done|]. by apply Z.pow_pos_nonneg.
Qed.

Lemma nc_stream_app b l1 l2 :
  nc_stream b (l1 ++ l2) = nc_stream b l1 ++ nc_stream b l2.
Proof. unfold nc_stream. apply bind_app. Qed.

Lemma pack_nc_words_stream b fill fuel vs :
  1 ≤ b ≤ 16 → in_range b vs → (length vs ≤ fuel)%nat →
  ∃ pad, nc_stream b (pack_nc_words fuel b fill vs) = vs ++ pad.
Proof.
  intros Hb. pose proof (per_word_range b Hb) as Hper.
  revert vs. induction fuel as [|fuel IH]; intros vs Hvs Hfuel.
  { destruct vs; [by exists []|simpl in Hfuel; lia]. }
  destruct vs as [|v vs]; [by exists []|].
  set (per := Z.to_nat (64 `div` b)).
  change (pack_nc_words (S fuel) b fill (v :: vs))
    with (Z.lor (little_endian_to_Z b (take per (v :: vs)))
                (fill ≪ (64 `div` b * b))
          :: pack_nc_words fuel b fill (drop per (v :: vs))).
  change (nc_stream b (?w :: ?ws)) with (fields b w (64 `div` b) ++ nc_stream b ws).
  assert (fields b (Z.lor (little_endian_to_Z b (take per (v :: vs)))
                          (fill ≪ (64 `div` b * b))) (64 `div` b)
          = take per (v :: vs)
            ++ replicate (per - length (take per (v :: vs))) 0) as ->.
  { unfold per.
    rewrite <-(fields_little_endian b
                 (take (Z.to_nat (64 `div` b)) (v :: vs)) (64 `div` b));
      [|lia|by apply Forall_take|rewrite length_take; lia].
    apply (fields_ext b _ _ _ (64 `div` b * b)); [lia..|].
    intros i Hi. rewrite Z.lor_spec, Z.shiftl_spec_low by lia.
    apply orb_false_r. }
  destruct (IH (drop per (v :: vs))) as [pad Hpad].
  { by apply Forall_drop. }
  { rewrite length_drop. simpl in *. lia. }
  rewrite Hpad.
  destruct (decide (per ≤ length (v :: vs))%nat) as [Hle|Hgt].
  - exists pad. rewrite length_take, Nat.min_l, Nat.sub_diag by done.
    simpl replicate. rewrite app_nil_r, app_assoc. by rewrite take_drop.
  - rewrite take_ge, drop_ge by lia. rewrite app_nil_l, <-app_assoc.
    by eexists.
Qed.

Lemma pack_nc_stream b fill vs :
  1 ≤ b ≤ 16 → in_range b vs →
  ∃ pad, nc_stream b (pack_nc b fill vs) = vs ++ pad.
Proof. intros. by apply pack_nc_words_stream. Qed.

Lemma pack_wc_range b vs : 0 ≤ b → in_range 64 (pack_wc b vs).
Proof.
  intros. apply Z_to_little_endian_bound; [done|].
  apply Z.div_pos; lia.
Qed.

(** The stream of the packed words, whatever follows them, starts with the
    values. *)
Lemma pack_wc_fields b vs rest k :
  1 ≤ b ≤ 16 → in_range b vs → (k ≤ length vs)%nat →
  fields b (wc_bits (pack_wc b vs ++ rest)) (Z.of_nat k) = take k vs.
Proof.
  intros Hb Hvs Hk. unfold wc_bits, pack_wc.
  set (N := Z.of_nat (length vs)). set (m := (N * b + 63) `div` 64).
  set (V := little_endian_to_Z b vs).
  assert (0 ≤ m) by (apply Z.div_pos; lia).
  assert (N * b ≤ 64 * m).
  { unfold m. pose proof (Z.div_mod (N * b + 63) 64 ltac:(lia)).
    pose proof (Z.mod_pos_bound (N * b + 63) 64 ltac:(lia)). lia. }
  assert (0 ≤ V < 2 ^ (N * b)) as HV.
  { by apply little_endian_to_Z_bound; [lia|]. }
  rewrite (fields_ext b _ V _ (64 * m)); [|lia|lia|nia|].
  - rewrite <-(take_fields b V N) by lia.
    unfold fields, V. by rewrite Z_to_little_endian_to_Z by (done || lia).
  - intros i Hi.
    rewrite little_endian_to_Z_app, Z.lor_spec by lia.
    rewrite Z.shiftl_spec_low, orb_false_r; cycle 1.
    { pose proof (length_Z_to_little_endian m 64 V). lia. }
    rewrite little_endian_to_Z_to_little_endian by lia.
    apply Z.mod_pow2_bits_low. lia.
Qed.

(** ** The width search *)

Lemma idxBits_loop_spec fuel i m :
  0 ≤ m < 2 ^ 31 → 4 ≤ i ≤ 31 → (Z.to_nat (32 - i) ≤ fuel)%nat →
  (∀ b', 4 ≤ b' < i → 2 ^ b' < m + 1) →
  ∃ b, idxBits_loop fuel i m = Some b
       ∧ i ≤ b ≤ 31 ∧ m + 1 ≤ 2 ^ b ∧ ∀ b', 4 ≤ b' < b → 2 ^ b' < m + 1.
Proof.
  intros Hm. revert i.
  induction fuel as [|fuel IH]; intros i Hi Hfuel Hlow; [lia|].
  simpl. unfold shl. rewrite decide_True, bind_Some_l by lia.
  assert (0 < 2 ^ i ≤ 2 ^ 31).
  { split; [apply Z.pow_pos_nonneg|apply Z.pow_le_mono_r]; lia. }
  rewrite Z.shiftl_1_l.
  assert (wrap 32 (2 ^ i) = 2 ^ i) as -> by (apply wrap_small; lia).
  assert (u32 (m + 1) = m + 1) as -> by (apply wrap_small; lia).
  case_decide as Hlt.
  - assert (i ≠ 31) by (intros ->; lia).
    assert (u32 (i + 1) = i + 1) as -> by (apply wrap_small; lia).
    destruct (IH (i + 1)) as (b & Hb & ? & ? & ?); [lia|lia| |].
    { intros b' Hb'. destruct (decide (b' = i)) as [->|]; [done|].
      apply Hlow. lia. }
    exists b. repeat split; (done || lia).
  - exists i. repeat split; (done || lia).
Qed.

Lemma compute_idxBits_smallest m :
  0 ≤ m < 2 ^ 31 →
  ∃ b, compute_idxBits m = Some b ∧ smallest_width m b ∧ b ≤ 31.
Proof.
  intros Hm. destruct (idxBits_loop_spec 29 4 m) as (b & Hb & ? & ? & Hlow);
    [done|lia|simpl; lia|lia|].
  exists b. split; [done|]. split; [|lia]. repeat split; [lia|done|].
  intros b' Hb' Hfit. destruct (decide (b ≤ b')); [done|].
  specialize (Hlow b'). lia.
Qed.

Lemma smallest_width_unique m b b' :
  smallest_width m b → smallest_width m b' → b = b'.
Proof.
  intros (? & ? & Hb) (? & ? & Hb').
  specialize (Hb b'). specialize (Hb' b). lia.
Qed.

Lemma idx_width_smallest m : 0 ≤ m → smallest_width m (idx_width m).
Proof.
  intros Hm. unfold idx_width, smallest_width.
  split; [lia|]. split.
  - etrans; [apply Z.log2_up_le_pow2; [lia|reflexivity]|].
    apply Z.pow_le_mono_r; lia.
  - intros b' Hb' Hfit. apply Z.max_lub; [done|].
    apply Z.log2_up_le_pow2; lia.
Qed.

Lemma compute_idxBits_width m :
  0 ≤ m < 2 ^ 31 → compute_idxBits m = Some (idx_width m).
Proof.
  intros Hm. destruct (compute_idxBits_smallest m Hm) as (b & -> & Hb & _).
  f_equal. eapply smallest_width_unique; [done|]. apply idx_width_smallest. lia.
Qed.

Lemma idx_width_16 m : 0 ≤ m → m + 1 ≤ 2 ^ 16 → 4 ≤ idx_width m ≤ 16.
Proof.
  intros Hm H16. destruct (idx_width_smallest m Hm) as (? & ? & Hmin).
  split; [done|]. apply Hmin; lia.
Qed.

(** ** [dsci_v13] as a run of increments *)

Lemma length_v13_indices carry b blockStates :
  1 ≤ b ≤ 16 → enough_words carry b blockStates →
  length (v13_indices carry b blockStates) = Z.to_nat CELLS.
Proof.
  intros Hb Hw. pose proof CELLS_eq. destruct carry; simpl in *.
  - apply length_fields. lia.
  - apply length_take_le. unfold nc_stream.
    rewrite (length_bind_const _ _ (Z.to_nat (64 `div` b))).
    + pose proof (per_word_range b Hb). nia.
    + intros w _. apply length_fields. pose proof (per_word_range b Hb). lia.
Qed.

Lemma v13_indices_nonneg carry b blockStates :
  1 ≤ b ≤ 16 → Forall (λ i, 0 ≤ i) (v13_indices carry b blockStates).
Proof.
  intros Hb. pose proof CELLS_eq. pose proof (per_word_range b Hb).
  destruct carry; simpl.
  - eapply Forall_impl; [apply (fields_range b); lia|]. simpl. lia.
  - apply Forall_take, Forall_bind, Forall_forall. intros w _.
    eapply Forall_impl; [apply (fields_range b); lia|]. simpl. lia.
Qed.

(** The unpacker chosen by the carry flag fills the local array with the
    indices. *)
Lemma v13_unpack carry b blockStates stack :
  1 ≤ b ≤ 16 → in_range 64 blockStates → enough_words carry b blockStates →
  Z.of_nat (length stack) = CELLS →
  (if carry then unpack_block_idxs_wc blockStates b stack
   else unpack_block_idxs_nc blockStates b stack)
  = Some (v13_indices carry b blockStates).
Proof.
  intros Hb Hbs Hw Hstack. destruct carry; simpl in *.
  - rewrite unpack_wc_spec by (done || lia).
    by rewrite drop_ge, app_nil_r by lia.
  - rewrite unpack_nc_spec by (done || lia).
    by rewrite drop_ge, app_nil_r by lia.
Qed.

Lemma for_each_one (h : list Z) t :
  for_each [t] (λ t h, incr h t) h = incr h t.
Proof. simpl. by destruct (incr h t). Qed.

Lemma v13_loops_incr_all h idLim ySection paletteMap idxs :
  0 ≤ idLim < 2 ^ 32 → in_range 32 paletteMap →
  Z.of_nat (length idxs) = 4096 →
  Forall (λ i, 0 ≤ i < Z.of_nat (length paletteMap)) idxs →
  for_each (seqZ 0 16) (λ y,
    for_each (seqZ 0 (16 * 16)) (λ zx,
      dsci_v13_body idLim ySection paletteMap idxs y zx)) h
  = incr_all (v13_hits idLim ySection paletteMap idxs) h.
Proof.
  intros HidLim Hpm Hlen Hidxs. unfold incr_all, v13_hits.
  apply for_each_flat. intros y s Hy. apply elem_of_seqZ in Hy.
  apply for_each_flat. intros zx s' Hzx. apply elem_of_seqZ in Hzx.
  rewrite for_each_one. unfold dsci_v13_body.
  rewrite (load_get idxs) by lia. rewrite bind_Some_l.
  assert (0 ≤ get idxs (zx + y * 256) < Z.of_nat (length paletteMap)) as Hi.
  { destruct (lookup_lt_is_Some_2 idxs (Z.to_nat (zx + y * 256))) as [i Hi];
      [lia|].
    unfold get. rewrite load_lookup, Hi by lia.
    apply (Forall_lookup_1 _ _ _ _ Hidxs Hi). }
  rewrite (load_get paletteMap) by done. rewrite bind_Some_l.
  rewrite hist_index_eq; [done|done|lia|].
  by apply (get_in_range 32).
Qed.

Lemma dsci_v13_incr_all h idLim ySection blockStates paletteMap
    maxPaletteIdx carry stack :
  wf_v13 idLim blockStates paletteMap maxPaletteIdx carry stack →
  dsci_v13 h idLim ySection blockStates paletteMap maxPaletteIdx carry stack
  = incr_all (v13_hits idLim ySection paletteMap
                (v13_indices carry (idx_width maxPaletteIdx) blockStates)) h.
Proof.
  intros (Hm & Hm16 & Hpm & Hpmr & HidLim & Hbs & Hw & Hidx & Hstack).
  pose proof (idx_width_16 maxPaletteIdx Hm Hm16) as Hb.
  pose proof CELLS_eq as HC.
  unfold dsci_v13.
  rewrite compute_idxBits_width, bind_Some_l by lia.
  rewrite v13_unpack, bind_Some_l by (done || lia).
  apply v13_loops_incr_all; [done|done| |].
  - rewrite length_v13_indices by (done || lia). lia.
  - pose proof (v13_indices_nonneg carry (idx_width maxPaletteIdx) blockStates
                  ltac:(lia)) as Hnn.
    rewrite Forall_forall in Hidx, Hnn. apply Forall_forall. intros i Hi.
    specialize (Hidx i Hi). specialize (Hnn i Hi). simpl in *. lia.
Qed.

Lemma length_v13_hits idLim ySection paletteMap idxs :
  Z.of_nat (length (v13_hits idLim ySection paletteMap idxs)) = 4096.
Proof.
  unfold v13_hits.
  rewrite (length_bind_const _ _ 256), length_seqZ; [lia|].
  intros y _. by rewrite (length_bind_const _ _ 1), length_seqZ.
Qed.

(** ** Where the hits fall *)

Lemma in_layers_hit idLim layer y id :
  0 ≤ y < 16 → 0 ≤ id < idLim →
  in_layers idLim layer ((layer + y) * idLim + id).
Proof. unfold in_layers. nia. Qed.

Lemma v2_hits_region idLim ySection blocks add add2 metadata :
  wf_v2 blocks add add2 metadata →
  Forall (λ id, id < idLim) (v2_ids blocks add add2 metadata) →
  Forall (in_layers idLim (u32 (ySection * 16)))
         (v2_hits idLim ySection blocks add add2 metadata).
Proof.
  intros (Hlb & Hla & Hla2 & Hlm & Hb & Ha & Ha2 & Hm) Hids.
  assert (∀ a i, in_range 8 a → 0 ≤ i < Z.of_nat (length a) →
                 0 ≤ get a i < 256) as Hget.
  { intros a i ? ?. by apply (get_in_range 8). }
  unfold v2_ids in Hids. rewrite Forall_bind, Forall_forall in Hids.
  unfold v2_hits. apply Forall_bind, Forall_forall. intros y Hy.
  apply elem_of_seqZ in Hy.
  apply Forall_bind, Forall_forall. intros zx Hzx.
  apply elem_of_seqZ in Hzx.
  specialize (Hids (zx + y * 128)). simpl in Hids.
  rewrite elem_of_seqZ in Hids. specialize (Hids ltac:(lia)).
  apply Forall_cons in Hids as [Hid1 Hids].
  apply Forall_cons in Hids as [Hid2 _].
  unfold compose, v2_pair. rewrite !layer_coord_eq by lia.
  repeat constructor; apply in_layers_hit; try lia; (split; [|done]);
    apply concat_id_range;
    first [ apply low_nibble_range
          | apply high_nibble_range, Hget; (done || lia)
          | apply Hget; (done || lia) ].
Qed.

Lemma v13_hits_region idLim ySection paletteMap idxs :
  Forall (λ id, 0 ≤ id < idLim) paletteMap →
  Z.of_nat (length idxs) = 4096 →
  Forall (λ i, 0 ≤ i < Z.of_nat (length paletteMap)) idxs →
  Forall (in_layers idLim (u32 (ySection * 16)))
         (v13_hits idLim ySection paletteMap idxs).
Proof.
  intros Hpm Hlen Hidxs.
  unfold v13_hits. apply Forall_bind, Forall_forall. intros y Hy.
  apply elem_of_seqZ in Hy.
  apply Forall_bind, Forall_forall. intros zx Hzx.
  apply elem_of_seqZ in Hzx. unfold compose. rewrite layer_coord_eq by lia.
  constructor; [|constructor]. apply in_layers_hit; [lia|].
  destruct (lookup_lt_is_Some_2 idxs (Z.to_nat (zx + y * 256))) as [i Hi];
    [lia|].
  pose proof (Forall_lookup_1 _ _ _ _ Hidxs Hi) as Hir. simpl in Hir.
  replace (get idxs (zx + y * 256)) with i
    by (unfold get; by rewrite load_lookup, Hi by lia).
  destruct (lookup_lt_is_Some_2 paletteMap (Z.to_nat i)) as [id Hid]; [lia|].
  replace (get paletteMap i) with id
    by (unfold get; by rewrite load_lookup, Hid by lia).
  apply (Forall_lookup_1 _ _ _ _ Hpm Hid).
Qed.

Lemma in_layers_bounds idLim layer (h : list Z) targets :
  0 ≤ layer → 0 ≤ idLim → (layer + 16) * idLim ≤ Z.of_nat (length h) →
  Forall (in_layers idLim layer) targets →
  Forall (λ t, 0 ≤ t < Z.of_nat (length h)) targets.
Proof.
  intros ? ? ? Ht. eapply Forall_impl; [exact Ht|].
  unfold in_layers. simpl. intros t. nia.
Qed.

(** The palette indices of a well-formed call, as [dsci_v13] needs them. *)
Lemma wf_v13_indices idLim blockStates paletteMap maxPaletteIdx carry stack :
  wf_v13 idLim blockStates paletteMap maxPaletteIdx carry stack →
  Z.of_nat (length (v13_indices carry (idx_width maxPaletteIdx) blockStates))
  = 4096
  ∧ Forall (λ i, 0 ≤ i < Z.of_nat (length paletteMap))
           (v13_indices carry (idx_width maxPaletteIdx) blockStates).
Proof.
  intros (Hm & Hm16 & Hpm & Hpmr & HidLim & Hbs & Hw & Hidx & Hstack).
  pose proof (idx_width_16 maxPaletteIdx Hm Hm16) as Hb.
  pose proof CELLS_eq as HC. split.
  - rewrite length_v13_indices by (done || lia). lia.
  - pose proof (v13_indices_nonneg carry (idx_width maxPaletteIdx) blockStates
                  ltac:(lia)) as Hnn.
    rewrite Forall_forall in Hidx, Hnn. apply Forall_forall. intros i Hi.
    specialize (Hidx i Hi). specialize (Hnn i Hi). simpl in *. lia.
Qed.

(** ** Results shared by the theorems *)

Lemma incr_all_in_bounds targets h :
  in_range 64 h →
  Forall (λ t, 0 ≤ t < Z.of_nat (length h)) targets →
  incr_all targets h = Some (add_counts targets h)
  ∧ length (add_counts targets h) = length h.
Proof.
  intros. split; [by apply incr_all_add_counts|apply length_add_counts].
Qed.

Lemma nibbles_of_pair lo hi :
  0 ≤ lo < 16 → 0 ≤ hi < 16 →
  low_nibble (lo + 16 * hi) = lo ∧ high_nibble (lo + 16 * hi) = hi.
Proof.
  intros Hlo Hhi. unfold low_nibble, high_nibble. split.
  - rewrite Z.mul_comm, Z.mod_add by lia. by apply Z.mod_small.
  - rewrite Z.mul_comm, Z.div_add by lia. rewrite Z.div_small by lia. lia.
Qed.

Lemma bind_ext_in {A B} (f g : A → list B) (l : list A) :
  (∀ x, x ∈ l → f x = g x) → l ≫= f = l ≫= g.
Proof. intros H. apply Forall_bind_ext, Forall_forall, H. Qed.

Lemma hist_holds_bounds idLim ySection h targets :
  0 ≤ idLim → hist_holds idLim ySection h →
  Forall (in_layers idLim (u32 (ySection * 16))) targets →
  Forall (λ t, 0 ≤ t < Z.of_nat (length h)) targets.
Proof.
  intros ? [Hy Hlen] Ht.
  pose proof (u32_mul16_range ySection).
  assert (u32 (ySection * 16) ≤ ySection * 16)
    by (apply Z.mod_le; lia).
  eapply in_layers_bounds; [| | |exact Ht]; [lia|lia|nia].
Qed.

Lemma hist_covers_bounds idLim ySection h targets :
  0 ≤ idLim → hist_covers idLim ySection h →
  Forall (in_layers idLim (u32 (ySection * 16))) targets →
  Forall (λ t, 0 ≤ t < Z.of_nat (length h)) targets.
Proof. intros ? [_ Hh]. by apply hist_holds_bounds. Qed.

Lemma length_nc_stream b packed :
  1 ≤ b ≤ 16 →
  Z.of_nat (length (nc_stream b packed))
  = 64 `div` b * Z.of_nat (length packed).
Proof.
  intros Hb. pose proof (per_word_range b Hb). unfold nc_stream.
  rewrite (length_bind_const _ _ (Z.to_nat (64 `div` b))).
  - lia.
  - intros w _. apply length_fields. lia.
Qed.

Lemma length_take_nc_stream b packed :
  1 ≤ b ≤ 16 → CELLS ≤ 64 `div` b * Z.of_nat (length packed) →
  Z.of_nat (length (take (Z.to_nat CELLS) (nc_stream b packed))) = CELLS.
Proof.
  intros Hb Hp. pose proof CELLS_eq. pose proof (length_nc_stream b packed Hb).
  rewrite length_take. lia.
Qed.

(** Clearing the bits above the fields of every word changes no field. *)
Lemma nc_stream_mask b packed :
  1 ≤ b ≤ 16 →
  nc_stream b ((λ w, w `mod` 2 ^ (64 `div` b * b)) <$> packed)
  = nc_stream b packed.
Proof.
  intros Hb. pose proof (per_word_range b Hb). unfold nc_stream.
  induction packed as [|w packed IH]; [done|].
  rewrite fmap_cons.
  change ((?x :: ?l) ≫= ?f) with (f x ++ (l ≫= f)).
  rewrite IH. f_equal.
  apply (fields_ext b _ _ _ (64 `div` b * b)); [lia..|].
  intros i Hi. apply Z.mod_pow2_bits_low. lia.
Qed.

(** Words after those that hold the 4096 fields change no field. *)
Lemma wc_bits_app_fields b packed extra :
  1 ≤ b ≤ 16 → 64 * b ≤ Z.of_nat (length packed) →
  fields b (wc_bits (packed ++ extra)) CELLS = fields b (wc_bits packed) CELLS.
Proof.
  intros Hb Hp. pose proof CELLS_eq. unfold wc_bits.
  apply (fields_ext b _ _ _ (64 * Z.of_nat (length packed))); [lia..|].
  intros i Hi.
  rewrite little_endian_to_Z_app, Z.lor_spec, Z.shiftl_spec_low by lia.
  apply orb_false_r.
Qed.

Lemma fields_zero_width z m :
  0 ≤ m → fields 0 z m = replicate (Z.to_nat m) 0.
Proof.
  intros Hm. apply list_eq. intros i.
  rewrite fields_lookup by lia. case_decide.
  - rewrite lookup_replicate_2 by lia. by rewrite Z.land_0_r.
  - symmetry. apply lookup_replicate_None. lia.
Qed.

(** [unpack_block_idxs_wc] on any width up to 16. *)
Lemma unpack_wc_total packed b u0 :
  0 ≤ b ≤ 16 → in_range 64 packed →
  (1 ≤ length packed)%nat → 64 * b ≤ Z.of_nat (length packed) →
  CELLS ≤ Z.of_nat (length u0) →
  unpack_block_idxs_wc packed b u0
  = Some (fields b (wc_bits packed) CELLS ++ drop (Z.to_nat CELLS) u0).
Proof.
  intros Hb Hp Hp1 Hlen Hu0. pose proof CELLS_eq.
  destruct (decide (b = 0)) as [->|].
  - rewrite unpack_wc_zero, fields_zero_width by (done || lia). done.
  - apply unpack_wc_spec; (done || lia).
Qed.

Lemma unpack_nc_total packed b u0 :
  0 ≤ b ≤ 16 →
  (1 ≤ length packed)%nat →
  b = 0 ∨ CELLS ≤ 64 `div` b * Z.of_nat (length packed) →
  CELLS ≤ Z.of_nat (length u0) →
  unpack_block_idxs_nc packed b u0
  = Some (nc_values b packed ++ drop (Z.to_nat CELLS) u0)
  ∧ Z.of_nat (length (nc_values b packed)) = CELLS.
Proof.
  intros Hb Hp1 Hlen Hu0. pose proof CELLS_eq. unfold nc_values.
  destruct (decide (b = 0)) as [->|].
  - rewrite unpack_nc_zero, length_replicate by done. split; [done|lia].
  - destruct Hlen as [?|Hlen]; [done|].
    rewrite unpack_nc_spec, length_take_nc_stream by (done || lia). done.
Qed.

(** ** Facts about the sample inputs *)

Lemma zeros_wf_v2 : wf_v2 (zeros 4096) (zeros 2048) (zeros 2048) (zeros 2048).
Proof.
  unfold wf_v2, zeros. rewrite !length_replicate, !Z2Nat.id by lia.
  repeat (split; [reflexivity|]).
  repeat split; apply Forall_replicate; lia.
Qed.

(** Closed decidable facts, by evaluation. *)
Ltac by_compute := apply (bool_decide_eq_true_1 _); vm_compute; reflexivity.

Lemma sample_wf_v0 : wf_v0 Sample.blocks0 Sample.metadata0.
Proof.
  unfold wf_v0, Sample.blocks0, Sample.metadata0.
  rewrite !length_replicate, !Z2Nat.id by lia.
  split; [reflexivity|]. split; [reflexivity|].
  split; apply Forall_replicate; lia.
Qed.

Lemma sample_wf_v2 :
  wf_v2 Sample.blocks2 Sample.add Sample.add Sample.metadata2.
Proof.
  unfold wf_v2, Sample.blocks2, Sample.add, Sample.metadata2, zeros.
  rewrite !length_replicate, !Z2Nat.id by lia.
  repeat (split; [reflexivity|]).
  repeat split; apply Forall_replicate; lia.
Qed.

Lemma sample_v2_ids :
  Forall (λ id, id < 32)
    (v2_ids Sample.blocks2 Sample.add Sample.add Sample.metadata2).
Proof. by_compute. Qed.

Lemma sample_wf_v13 carry :
  wf_v13 200 Sample.blockStates Sample.paletteMap 16 carry Sample.stack.
Proof.
  unfold wf_v13. split; [lia|]. split; [lia|]. split; [reflexivity|].
  split; [by_compute|]. split; [lia|].
  split; [apply Forall_replicate; lia|].
  split; [destruct carry; unfold enough_words; by_compute|].
  split; [destruct carry; by_compute|].
  unfold Sample.stack, zeros.
  by rewrite length_replicate, Z2Nat.id, CELLS_eq by lia.
Qed.

Lemma sample_palette : Forall (λ id, 0 ≤ id < 200) Sample.paletteMap.
Proof. by_compute. Qed.

Lemma zeros_room n m : 0 ≤ m < 2 ^ 64 → counters_have_room m (zeros n).
Proof. intros. apply Forall_replicate. lia. Qed.

Lemma length_zeros n : 0 ≤ n → Z.of_nat (length (zeros n)) = n.
Proof. intros. unfold zeros. rewrite length_replicate. lia. Qed.

(** ** Runs of increments: when they are defined, and their order *)

Lemma for_each_None {S} (l : list Z) (body : Z → S → option S) s i :
  i ∈ l → (∀ s', body i s' = None) → for_each l body s = None.
Proof.
  intros Hi Hb. revert s. induction l as [|j l IH]; intros s.
  - by apply elem_of_nil in Hi.
  - simpl. apply elem_of_cons in Hi as [<-|Hi].
    + by rewrite Hb.
    + destruct (body j s) as [s'|]; simpl; [by apply IH|done].
Qed.

Lemma incr_None h t : ¬ (0 ≤ t < Z.of_nat (length h)) → incr h t = None.
Proof.
  intros Ht. unfold incr, load. case_decide; [|done].
  destruct (h !! Z.to_nat t) as [c|] eqn:Hc; simpl; [|done].
  apply lookup_lt_Some in Hc. lia.
Qed.

Lemma incr_length h t h' : incr h t = Some h' → length h' = length h.
Proof.
  destruct (decide (0 ≤ t < Z.of_nat (length h))).
  - rewrite incr_Some by done. intros [= <-]. by rewrite length_insert.
  - by rewrite incr_None.
Qed.

Lemma incr_all_cons t targets h :
  incr_all (t :: targets) h = incr h t ≫= incr_all targets.
Proof. reflexivity. Qed.

Lemma incr_all_app targets1 targets2 h :
  incr_all (targets1 ++ targets2) h
  = incr_all targets1 h ≫= incr_all targets2.
Proof. apply for_each_app. Qed.

Lemma incr_all_length targets h h' :
  incr_all targets h = Some h' → length h' = length h.
Proof.
  revert h. induction targets as [|t ts IH]; intros h.
  - by intros [= <-].
  - rewrite incr_all_cons. destruct (incr h t) as [h1|] eqn:H1; [|done].
    simpl. intros H. rewrite (IH _ H). by apply incr_length in H1.
Qed.

Lemma incr_all_is_Some targets h :
  is_Some (incr_all targets h)
  ↔ Forall (λ t, 0 ≤ t < Z.of_nat (length h)) targets.
Proof.
  revert h. induction targets as [|t ts IH]; intros h.
  - split; [constructor|by eexists].
  - rewrite incr_all_cons, Forall_cons.
    destruct (decide (0 ≤ t < Z.of_nat (length h))) as [Ht|Ht].
    + rewrite incr_Some by done. simpl. rewrite IH, length_insert. tauto.
    + rewrite incr_None by done. simpl. split; [by intros [? ?]|tauto].
Qed.

Lemma incr_comm h x y :
  incr h x ≫= (λ h', incr h' y) = incr h y ≫= (λ h', incr h' x).
Proof.
  destruct (decide (0 ≤ x < Z.of_nat (length h))) as [Hx|Hx];
    destruct (decide (0 ≤ y < Z.of_nat (length h))) as [Hy|Hy].
  - rewrite (incr_Some h x), (incr_Some h y) by done. simpl.
    rewrite !incr_Some by (by rewrite length_insert).
    destruct (decide (x = y)) as [->|Hne]; [done|]. f_equal.
    assert (∀ a b v, a ≠ b → 0 ≤ a → 0 ≤ b →
              get (<[Z.to_nat a := v]> h) b = get h b) as Hget.
    { intros a b v ? ? ?. unfold get. rewrite !load_lookup by done.
      by rewrite list_lookup_insert_ne by lia. }
    rewrite !Hget by lia. apply list_insert_insert_ne. lia.
  - rewrite (incr_None h y), (incr_Some h x) by done. simpl.
    by rewrite incr_None by (by rewrite length_insert).
  - rewrite (incr_None h x), (incr_Some h y) by done. simpl.
    by rewrite incr_None by (by rewrite length_insert).
  - by rewrite !incr_None by done.
Qed.

(** The result of a run of increments does not depend on their order. *)
Lemma incr_all_Permutation targets targets' h :
  targets ≡ₚ targets' → incr_all targets h = incr_all targets' h.
Proof.
  intros Hp. revert h.
  induction Hp as [|t ts ts' _ IH|x y ts|ts ts' ts'' _ IH1 _ IH2]; intros h.
  - done.
  - rewrite !incr_all_cons. destruct (incr h t) as [h'|]; simpl; [apply IH|done].
  - rewrite !incr_all_cons.
    pose proof (incr_comm h y x) as Hc.
    destruct (incr h y) as [hy|], (incr h x) as [hx|]; simpl in *;
      rewrite ?incr_all_cons; try done.
    + by rewrite Hc.
    + by rewrite Hc.
    + by rewrite <-Hc.
  - by rewrite IH1.
Qed.

Lemma incr_all_swap targets1 targets2 h :
  incr_all targets1 h ≫= incr_all targets2
  = incr_all targets2 h ≫= incr_all targets1.
Proof.
  rewrite <-!incr_all_app. apply incr_all_Permutation, Permutation_app_comm.
Qed.

(** ** [dsci_v13]: the width, the local array and the palette *)

Lemma idxBits_loop_undefined fuel i m :
  2 ^ 31 ≤ m < 2 ^ 32 - 1 → 4 ≤ i ≤ 32 → idxBits_loop fuel i m = None.
Proof.
  intros Hm. revert i. induction fuel as [|fuel IH]; intros i Hi; [done|].
  simpl. unfold shl. destruct (decide (i = 32)) as [->|Hne]; [done|].
  rewrite decide_True by lia. simpl.
  assert (wrap 32 (1 ≪ i) = 2 ^ i) as ->.
  { rewrite Z.shiftl_1_l. apply wrap_small.
    split; [apply Z.pow_nonneg; lia|apply Z.pow_lt_mono_r; lia]. }
  assert (u32 (m + 1) = m + 1) as -> by (apply wrap_small; lia).
  assert (2 ^ i ≤ 2 ^ 31) by (apply Z.pow_le_mono_r; lia).
  rewrite decide_True by lia.
  assert (u32 (i + 1) = i + 1) as -> by (apply wrap_small; lia).
  apply IH. lia.
Qed.

Lemma idx_width_wide m : 2 ^ 16 ≤ m → 16 < idx_width m.
Proof.
  intros Hm. unfold idx_width.
  assert (16 < Z.log2_up (m + 1)); [|lia].
  apply Z.log2_up_lt_pow2; lia.
Qed.

Lemma v13_indices_range carry b blockStates :
  1 ≤ b ≤ 16 → Forall (λ i, 0 ≤ i < 2 ^ b) (v13_indices carry b blockStates).
Proof.
  intros Hb. pose proof CELLS_eq. pose proof (per_word_range b Hb).
  destruct carry; simpl.
  - apply (fields_range b); lia.
  - apply Forall_take, Forall_bind, Forall_forall. intros w _.
    apply (fields_range b); lia.
Qed.

(** With a width up to 16 and the words it needs, [dsci_v13] runs its
    counting loops on the unpacked indices. *)
Lemma dsci_v13_unpacked h idLim ySection blockStates paletteMap maxPaletteIdx
    carry stack :
  0 ≤ maxPaletteIdx → maxPaletteIdx + 1 ≤ 2 ^ 16 →
  in_range 64 blockStates →
  enough_words carry (idx_width maxPaletteIdx) blockStates →
  Z.of_nat (length stack) = CELLS →
  dsci_v13 h idLim ySection blockStates paletteMap maxPaletteIdx carry stack
  = for_each (seqZ 0 16) (λ y,
      for_each (seqZ 0 (16 * 16)) (λ zx,
        dsci_v13_body idLim ySection paletteMap
          (v13_indices carry (idx_width maxPaletteIdx) blockStates) y zx)) h.
Proof.
  intros Hm Hm16 Hbs Hw Hstack.
  pose proof (idx_width_16 maxPaletteIdx Hm Hm16) as Hb.
  unfold dsci_v13.
  rewrite compute_idxBits_width, bind_Some_l by lia.
  by rewrite v13_unpack, bind_Some_l by (done || lia).
Qed.

(** The counting loops stop at the first cell whose palette index is not
    an index of [paletteMap]. *)
Lemma v13_loops_outside h idLim ySection paletteMap idxs k :
  0 ≤ k < 4096 →
  (∀ i, idxs !! Z.to_nat k = Some i → Z.of_nat (length paletteMap) ≤ i) →
  for_each (seqZ 0 16) (λ y,
    for_each (seqZ 0 (16 * 16)) (λ zx,
      dsci_v13_body idLim ySection paletteMap idxs y zx)) h = None.
Proof.
  intros Hk Hi.
  apply (for_each_None _ _ _ (k `div` 256)).
  { apply elem_of_seqZ.
    split; [apply Z.div_pos|apply Z.div_lt_upper_bound]; lia. }
  intros s. apply (for_each_None _ _ _ (k `mod` 256)).
  { apply elem_of_seqZ. pose proof (Z.mod_pos_bound k 256). lia. }
  intros s'. unfold dsci_v13_body.
  replace (k `mod` 256 + k `div` 256 * (16 * 16)) with k
    by (pose proof (Z.div_mod k 256); lia).
  rewrite load_lookup by lia.
  destruct (idxs !! Z.to_nat k) as [i|] eqn:Hik; [|done].
  rewrite bind_Some_l, load_None; [done|by apply Hi].
Qed.

(** ** [dsci_v0] and [dsci_v2]: identifiers and the extent of the arrays *)

Lemma v2_ids_range blocks add add2 metadata :
  wf_v2 blocks add add2 metadata →
  Forall (λ id, 0 ≤ id < 2 ^ 20) (v2_ids blocks add add2 metadata).
Proof.
  intros (Hlb & Hla & Hla2 & Hlm & Hb & Ha & Ha2 & Hm).
  assert (∀ a i, in_range 8 a → 0 ≤ i < Z.of_nat (length a) →
                 0 ≤ get a i < 256) as Hget.
  { intros a i ? ?. by apply (get_in_range 8). }
  unfold v2_ids. apply Forall_bind, Forall_forall. intros idx Hidx.
  apply elem_of_seqZ in Hidx.
  repeat constructor; apply concat_id_range;
    first [ apply low_nibble_range
          | apply high_nibble_range, Hget; (done || lia)
          | apply Hget; (done || lia) ].
Qed.

Lemma v2_hits_cells idLim ySection blocks add add2 metadata :
  0 ≤ ySection < 2 ^ 28 →
  v2_hits idLim ySection blocks add add2 metadata
  = seqZ 0 16 ≫= λ y_local, seqZ 0 128 ≫= λ zx,
      let idx := zx + y_local * 128 in
      let layer := ySection * 16 + y_local in
      [ layer * idLim
        + concat_id (low_nibble (get add2 idx)) (low_nibble (get add idx))
                    (get blocks (idx * 2 + 0)) (low_nibble (get metadata idx));
        layer * idLim
        + concat_id (high_nibble (get add2 idx)) (high_nibble (get add idx))
                    (get blocks (idx * 2 + 1))
                    (high_nibble (get metadata idx)) ].
Proof.
  intros Hy. unfold v2_hits.
  apply bind_ext_in. intros y Hyr. apply elem_of_seqZ in Hyr.
  apply bind_ext_in. intros zx _. unfold v2_pair.
  by rewrite layer_coord_small by lia.
Qed.

Lemma dsci_v0_body_app blocks metadata eb em xz y h :
  0 ≤ y + xz * 128 → y + xz * 128 + 1 < Z.of_nat (length blocks) →
  (y + xz * 128) `div` 2 < Z.of_nat (length metadata) →
  dsci_v0_body (blocks ++ eb) (metadata ++ em) xz y h
  = dsci_v0_body blocks metadata xz y h.
Proof.
  intros ? ? ?. unfold dsci_v0_body. by rewrite !load_app_l by lia.
Qed.

Lemma dsci_v2_body_app idLim ySection blocks add add2 metadata eb ea ea2 em
    y zx h :
  0 ≤ zx + y * 128 →
  (zx + y * 128) * 2 + 1 < Z.of_nat (length blocks) →
  zx + y * 128 < Z.of_nat (length add) →
  zx + y * 128 < Z.of_nat (length add2) →
  zx + y * 128 < Z.of_nat (length metadata) →
  dsci_v2_body idLim ySection (blocks ++ eb) (add ++ ea) (add2 ++ ea2)
               (metadata ++ em) y zx h
  = dsci_v2_body idLim ySection blocks add add2 metadata y zx h.
Proof.
  intros ? ? ? ? ?. unfold dsci_v2_body.
  change (16 * 16 `div` 2) with 128.
  by rewrite !load_app_l by lia.
Qed.

Lemma dsci_v0_cell_None blocks metadata h xz k :
  0 ≤ xz < 256 → 0 ≤ k < 64 →
  (∀ s, dsci_v0_body blocks metadata xz (2 * k) s = None) →
  dsci_v0 h blocks metadata = None.
Proof.
  intros Hxz Hk Hbody. unfold dsci_v0.
  apply (for_each_None _ _ _ xz); [apply elem_of_seqZ; lia|].
  intros s. apply (for_each_None _ _ _ (2 * k)); [|done].
  apply elem_of_v0_ys. by exists k.
Qed.

Lemma dsci_v2_cell_None idLim ySection blocks add add2 metadata h idx :
  0 ≤ idx < 2048 →
  (∀ s, dsci_v2_body idLim ySection blocks add add2 metadata
          (idx `div` 128) (idx `mod` 128) s = None) →
  dsci_v2 h idLim ySection blocks add add2 metadata = None.
Proof.
  intros Hidx Hbody. unfold dsci_v2.
  apply (for_each_None _ _ _ (idx `div` 128)).
  { apply elem_of_seqZ.
    split; [apply Z.div_pos|apply Z.div_lt_upper_bound]; lia. }
  intros s. apply (for_each_None _ _ _ (idx `mod` 128)); [|done].
  apply elem_of_seqZ. pose proof (Z.mod_pos_bound idx 128).
  change (16 * 16 `div` 2) with 128. lia.
Qed.

(** ** The unpackers: the value of each element, and the words they read *)

Lemma lookup_bind_const {A B} (f : A → list B) (l : list A) (n k : nat) :
  (∀ x, length (f x) = n) → (0 < n)%nat →
  (l ≫= f) !! k = l !! (k `div` n)%nat ≫= λ x, f x !! (k `mod` n)%nat.
Proof.
  intros Hf Hn. revert k. induction l as [|x l IH]; intros k; [done|].
  change ((x :: l) ≫= f) with (f x ++ (l ≫= f)).
  destruct (decide (k < n)%nat) as [Hk|Hk].
  - rewrite lookup_app_l by (by rewrite Hf).
    by rewrite Nat.div_small, Nat.mod_small by done.
  - rewrite lookup_app_r by (rewrite Hf; lia). rewrite Hf, IH.
    assert (k `div` n = S ((k - n) `div` n))%nat as ->.
    { replace k with ((k - n) + 1 * n)%nat at 1 by lia.
      rewrite Nat.div_add by lia. lia. }
    assert (k `mod` n = (k - n) `mod` n)%nat as ->; [|done].
    replace k with ((k - n) + 1 * n)%nat at 1 by lia.
    by rewrite Nat.Div0.mod_add.
Qed.

Lemma nc_stream_lookup b packed (k : nat) :
  1 ≤ b ≤ 16 →
  nc_stream b packed !! k
  = (λ w, Z.land (w ≫ (Z.of_nat k `mod` (64 `div` b) * b)) (Z.ones b))
    <$> packed !! Z.to_nat (Z.of_nat k `div` (64 `div` b)).
Proof.
  intros Hb. pose proof (per_word_range b Hb) as Hper. unfold nc_stream.
  rewrite (lookup_bind_const _ _ (Z.to_nat (64 `div` b)));
    [|intros w; apply length_fields; lia|lia].
  assert (Z.to_nat (Z.of_nat k `div` (64 `div` b))
          = (k `div` Z.to_nat (64 `div` b))%nat) as ->.
  { rewrite Z2Nat.inj_div, Nat2Z.id by lia. done. }
  destruct (packed !! _) as [w|]; simpl; [|done].
  rewrite fields_lookup by lia.
  assert (Z.of_nat (k `mod` Z.to_nat (64 `div` b))
          = Z.of_nat k `mod` (64 `div` b)) as ->.
  { rewrite Nat2Z.inj_mod, Z2Nat.id by lia. done. }
  pose proof (Z.mod_pos_bound (Z.of_nat k) (64 `div` b) ltac:(lia)).
  by rewrite decide_True by lia.
Qed.

Lemma unpack_wc_lookup packed b u0 k :
  1 ≤ b ≤ 16 → CELLS ≤ Z.of_nat (length u0) →
  in_range 64 packed → 64 * b ≤ Z.of_nat (length packed) →
  0 ≤ k < CELLS →
  ∃ out, unpack_block_idxs_wc packed b u0 = Some out
         ∧ length out = length u0
         ∧ out !! Z.to_nat k
           = Some (Z.land (wc_bits packed ≫ (k * b)) (Z.ones b)).
Proof.
  intros Hb Hu0 Hp Hlen Hk. pose proof CELLS_eq.
  rewrite unpack_wc_spec by done. eexists. split; [done|].
  split.
  - rewrite length_app, length_fields, length_drop by lia. lia.
  - rewrite lookup_app_l by (rewrite length_fields; lia).
    rewrite fields_lookup, decide_True by lia.
    by rewrite Z2Nat.id by lia.
Qed.

Lemma unpack_nc_lookup packed b u0 k :
  1 ≤ b ≤ 16 → CELLS ≤ Z.of_nat (length u0) →
  CELLS ≤ 64 `div` b * Z.of_nat (length packed) →
  0 ≤ k < CELLS →
  ∃ out, unpack_block_idxs_nc packed b u0 = Some out
         ∧ length out = length u0
         ∧ out !! Z.to_nat k
           = Some (Z.land (get packed (k `div` (64 `div` b))
                           ≫ (k `mod` (64 `div` b) * b)) (Z.ones b)).
Proof.
  intros Hb Hu0 Hlen Hk. pose proof CELLS_eq.
  pose proof (per_word_range b Hb) as Hper.
  pose proof (length_nc_stream b packed Hb) as Hls.
  rewrite unpack_nc_spec by done. eexists. split; [done|].
  split.
  - rewrite length_app, length_take, length_drop. lia.
  - rewrite lookup_app_l by (rewrite length_take; lia).
    rewrite lookup_take_lt by lia.
    rewrite nc_stream_lookup, Z2Nat.id by lia.
    assert (0 ≤ k `div` (64 `div` b) < Z.of_nat (length packed)) as Hj.
    { split; [apply Z.div_pos; lia|].
      apply Z.div_lt_upper_bound; [lia|]. lia. }
    destruct (lookup_lt_is_Some_2 packed (Z.to_nat (k `div` (64 `div` b))))
      as [w Hw]; [lia|].
    rewrite Hw. simpl. unfold get. by rewrite load_lookup, Hw by lia.
Qed.

Lemma emit_Ret_bound xs n u out :
  emit xs n u = Some (Ret out) → CELLS ≤ n + Z.of_nat (length xs).
Proof.
  revert n u. induction xs as [|x xs IH]; intros n u; [done|].
  simpl. destruct (store u n x) as [u'|]; simpl; [|done].
  case_decide; [lia|]. intros He%IH. lia.
Qed.

Lemma emit_Next_iout xs n u s :
  emit xs n u = Some (Next s) → s.1 = n + Z.of_nat (length xs).
Proof.
  revert n u. induction xs as [|x xs IH]; intros n u.
  - simpl. intros [= <-]. simpl. lia.
  - simpl. destruct (store u n x) as [u'|]; simpl; [|done].
    case_decide; [done|]. intros He%IH. lia.
Qed.

(** With fewer words than the 4096 values take, the loop of
    [unpack_block_idxs_nc] comes to read the word after the last. *)
Lemma nc_loop_short b packed ws fuel j n u :
  1 ≤ b ≤ 16 → 0 ≤ j → drop (Z.to_nat j) packed = ws →
  n + 64 `div` b * Z.of_nat (length ws) < CELLS →
  nc_loop fuel packed b (idx_mask b) n j u = None.
Proof.
  intros Hb. pose proof (per_word_range b Hb) as Hper.
  revert fuel j n u.
  induction ws as [|w ws IH]; intros fuel j n u Hj Hd Hn;
    (destruct fuel as [|fuel]; [done|]); rewrite nc_loop_S.
  - rewrite load_None; [done|].
    apply (f_equal length) in Hd. rewrite length_drop in Hd. simpl in Hd. lia.
  - apply drop_lookup_cons in Hd as [Hw Hd].
    rewrite load_lookup, Hw, bind_Some_l by done.
    rewrite nc_for_emit by done.
    assert (length (fields b w (64 `div` b)) = Z.to_nat (64 `div` b)) as Hlen
      by (apply length_fields; lia).
    simpl in Hn.
    destruct (emit (fields b w (64 `div` b)) n u) as [[[n' u']|out]|] eqn:He;
      simpl; [| |done].
    + apply emit_Next_iout in He. simpl in He.
      apply IH; [lia| |lia].
      by replace (Z.to_nat (j + 1)) with (S (Z.to_nat j)) by lia.
    + apply emit_Ret_bound in He. lia.
Qed.

(** The same for [unpack_block_idxs_wc]. *)
Lemma wc_loop_short b packed u0 fuel st :
  1 ≤ b ≤ 16 → CELLS ≤ Z.of_nat (length u0) →
  in_range 64 packed → Z.of_nat (length packed) < 64 * b →
  0 ≤ wc_iin st →
  wc_inv b (wc_bits packed) u0 (64 * wc_iin st) st →
  wc_loop fuel packed b (idx_mask b) st = None.
Proof.
  intros Hb Hu0 Hp Hlen. pose proof CELLS_eq as HC. revert st.
  induction fuel as [|fuel IH]; intros st Hj Hinv; [done|].
  rewrite wc_loop_S.
  destruct (decide (wc_iin st < Z.of_nat (length packed))) as [Hin|Hout].
  - destruct (wc_turn_spec b packed u0 st) as (r & Hr & Hpost); [done..|].
    rewrite Hr, bind_Some_l. destruct r as [st'|out].
    + destruct Hpost as (Hinv' & Hj' & Hlt). apply IH; [lia|done].
    + destruct Hpost as [_ Hbits]. lia.
  - unfold wc_turn. rewrite load_None; [done|lia].
Qed.

Lemma unpack_wc_short packed b u0 fuel :
  1 ≤ b ≤ 16 → CELLS ≤ Z.of_nat (length u0) →
  in_range 64 packed → Z.of_nat (length packed) < 64 * b →
  wc_loop fuel packed b (idx_mask b) (WcState 0 0 0 0 u0) = None.
Proof.
  intros Hb Hu0 Hp Hlen. apply (wc_loop_short b packed u0); [done..|simpl; lia|].
  pose proof CELLS_eq. unfold wc_inv. simpl.
  repeat split; try lia.
  by rewrite Z.land_0_r.
Qed.

(** ** The increments of one layer *)

Lemma filter_all {A} (P : A → Prop) `{∀ x, Decision (P x)} (l : list A) :
  Forall P l → filter P l = l.
Proof.
  induction 1 as [|x l Hx _ IH]; [done|].
  by rewrite filter_cons, decide_True, IH by done.
Qed.

Lemma filter_none {A} (P : A → Prop) `{∀ x, Decision (P x)} (l : list A) :
  Forall (λ x, ¬ P x) l → filter P l = [].
Proof.
  induction 1 as [|x l Hx _ IH]; [done|].
  by rewrite filter_cons, decide_False, IH by done.
Qed.

Lemma filter_bind_none {A B} (P : B → Prop) `{∀ x, Decision (P x)}
    (f : A → list B) (l : list A) :
  (∀ x, x ∈ l → Forall (λ t, ¬ P t) (f x)) → filter P (l ≫= f) = [].
Proof.
  intros Hf. apply filter_none, Forall_bind, Forall_forall. done.
Qed.

(** Of a loop over [0..n) only the turn [y0] hits the entries [P]. *)
Lemma count_bind_seqZ (P : Z → Prop) `{∀ x, Decision (P x)}
    (f : Z → list Z) (n y0 : Z) (c : nat) :
  0 ≤ y0 < n →
  (∀ y, 0 ≤ y < n → y ≠ y0 → Forall (λ t, ¬ P t) (f y)) →
  length (filter P (f y0)) = c →
  length (filter P (seqZ 0 n ≫= f)) = c.
Proof.
  intros Hy0 Hne Hc.
  replace n with (y0 + (n - y0)) by lia.
  rewrite seqZ_app, (seqZ_cons (0 + y0)) by lia.
  rewrite bind_app, bind_cons, !filter_app, !length_app.
  rewrite !filter_bind_none, Z.add_0_l, Hc; [simpl; lia| |].
  - intros y Hy. apply elem_of_seqZ in Hy. apply Hne; lia.
  - intros y Hy. apply elem_of_seqZ in Hy. apply Hne; lia.
Qed.

Lemma count_bind_const {A B} (P : B → Prop) `{∀ x, Decision (P x)}
    (f : A → list B) (l : list A) (k : nat) :
  (∀ x, x ∈ l → length (filter P (f x)) = k) →
  length (filter P (l ≫= f)) = (length l * k)%nat.
Proof.
  induction l as [|x l IH]; intros Hk; [done|].
  rewrite bind_cons, filter_app, length_app, Hk, IH; [simpl; lia| |left].
  intros y Hy. apply Hk. by right.
Qed.

(** As long as no counter wraps, the entries from [k] to [k + n] grow in
    total by the number of hits that fall among them. *)
Lemma sumZ_row_add_counts targets h (k n : nat) :
  Forall (λ c, 0 ≤ c ∧ c + Z.of_nat (length targets) < 2 ^ 64) h →
  Forall (λ t, 0 ≤ t < Z.of_nat (length h)) targets →
  sumZ (take n (drop k (add_counts targets h)))
  = sumZ (take n (drop k h))
    + Z.of_nat (length (filter (λ t, Z.of_nat k ≤ t < Z.of_nat k + Z.of_nat n)
                               targets)).
Proof.
  revert h. induction targets as [|t ts IH]; intros h Hh Ht.
  - rewrite add_counts_nil; [simpl; lia|].
    eapply Forall_impl; [exact Hh|]. simpl. lia.
  - apply Forall_cons in Ht as [Ht Hts].
    assert (in_range 64 h) as Hr.
    { eapply Forall_impl; [exact Hh|]. simpl. lia. }
    rewrite add_counts_cons by done.
    destruct (lookup_lt_is_Some_2 h (Z.to_nat t)) as [c Hc]; [lia|].
    assert (get h t = c) as ->.
    { unfold get. by rewrite load_lookup, Hc by lia. }
    pose proof (Forall_lookup_1 _ _ _ _ Hh Hc) as Hcb. simpl in Hcb.
    assert (u64 (c + 1) = c + 1) as ->.
    { apply wrap_small. lia. }
    rewrite IH; cycle 1.
    { apply Forall_insert; [|lia].
      eapply Forall_impl; [exact Hh|]. simpl. lia. }
    { by rewrite length_insert. }
    rewrite filter_cons.
    destruct (decide (Z.of_nat k ≤ t < Z.of_nat k + Z.of_nat n)) as [Hin|Hout].
    + rewrite drop_insert_ge, take_insert_lt by lia.
      rewrite (sumZ_insert _ _ c).
      * simpl length. lia.
      * rewrite lookup_take_lt, lookup_drop by lia. rewrite <-Hc. f_equal. lia.
    + destruct (decide (t < Z.of_nat k)).
      * by rewrite drop_insert_lt by lia.
      * by rewrite drop_insert_ge, take_insert_ge by lia.
Qed.

Lemma sumZ_layer_row idLim layer targets h :
  0 ≤ idLim → 0 ≤ layer →
  Forall (λ c, 0 ≤ c ∧ c + Z.of_nat (length targets) < 2 ^ 64) h →
  Forall (λ t, 0 ≤ t < Z.of_nat (length h)) targets →
  sumZ (layer_row idLim layer (add_counts targets h))
  = sumZ (layer_row idLim layer h)
    + Z.of_nat (length (filter (in_row idLim layer) targets)).
Proof.
  intros HidLim Hlayer Hh Ht. unfold layer_row.
  rewrite sumZ_row_add_counts by done. do 3 f_equal.
  apply list_filter_iff. intros t. unfold in_row. nia.
Qed.

(** Every layer of the 16 of a v13 section is hit by its 256 cells. *)
Lemma v13_hits_row idLim ySection paletteMap idxs y0 :
  Forall (λ id, 0 ≤ id < idLim) paletteMap →
  Z.of_nat (length idxs) = 4096 →
  Forall (λ i, 0 ≤ i < Z.of_nat (length paletteMap)) idxs →
  0 ≤ y0 < 16 →
  length (filter (in_row idLim (u32 (ySection * 16) + y0))
                 (v13_hits idLim ySection paletteMap idxs)) = 256%nat.
Proof.
  intros Hpm Hlen Hidxs Hy0. unfold v13_hits.
  assert (∀ y zx, 0 ≤ y < 16 → 0 ≤ zx < 256 →
            0 ≤ get paletteMap (get idxs (zx + y * 256)) < idLim) as Hid.
  { intros y zx Hy Hzx.
    destruct (lookup_lt_is_Some_2 idxs (Z.to_nat (zx + y * 256))) as [i Hi];
      [lia|].
    pose proof (Forall_lookup_1 _ _ _ _ Hidxs Hi) as Hir. simpl in Hir.
    replace (get idxs (zx + y * 256)) with i
      by (unfold get; by rewrite load_lookup, Hi by lia).
    destruct (lookup_lt_is_Some_2 paletteMap (Z.to_nat i)) as [id Hid];
      [lia|].
    replace (get paletteMap i) with id
      by (unfold get; by rewrite load_lookup, Hid by lia).
    apply (Forall_lookup_1 _ _ _ _ Hpm Hid). }
  apply (count_bind_seqZ _ _ 16 y0); [done| |].
  - intros y Hy Hne. apply Forall_bind, Forall_forall. intros zx Hzx.
    apply elem_of_seqZ in Hzx. constructor; [|constructor].
    rewrite layer_coord_eq by lia. specialize (Hid y zx Hy ltac:(lia)).
    unfold in_row. nia.
  - rewrite filter_all.
    + rewrite (length_bind_const _ _ 1); [by rewrite length_seqZ|done].
    + apply Forall_bind, Forall_forall. intros zx Hzx.
      apply elem_of_seqZ in Hzx. constructor; [|constructor].
      rewrite layer_coord_eq by lia. specialize (Hid y0 zx Hy0 ltac:(lia)).
      unfold in_row. nia.
Qed.

Lemma v2_hits_row idLim ySection blocks add add2 metadata y0 :
  wf_v2 blocks add add2 metadata →
  Forall (λ id, id < idLim) (v2_ids blocks add add2 metadata) →
  0 ≤ y0 < 16 →
  length (filter (in_row idLim (u32 (ySection * 16) + y0))
                 (v2_hits idLim ySection blocks add add2 metadata))
  = 256%nat.
Proof.
  intros Hwf Hids Hy0.
  pose proof (v2_hits_region idLim ySection _ _ _ _ Hwf Hids) as Hreg.
  destruct Hwf as (Hlb & Hla & Hla2 & Hlm & Hb & Ha & Ha2 & Hm).
  assert (∀ a i, in_range 8 a → 0 ≤ i < Z.of_nat (length a) →
                 0 ≤ get a i < 256) as Hget.
  { intros a i ? ?. by apply (get_in_range 8). }
  unfold v2_ids in Hids. rewrite Forall_bind, Forall_forall in Hids.
  assert (∀ y zx, 0 ≤ y < 16 → 0 ≤ zx < 128 →
            Forall (λ t, ∃ id, 0 ≤ id < idLim
                               ∧ t = (u32 (ySection * 16) + y) * idLim + id)
                   (v2_pair idLim ySection blocks add add2 metadata y zx))
    as Hpair.
  { intros y zx Hy Hzx.
    specialize (Hids (zx + y * 128)). simpl in Hids.
    rewrite elem_of_seqZ in Hids. specialize (Hids ltac:(lia)).
    apply Forall_cons in Hids as [Hid1 Hids].
    apply Forall_cons in Hids as [Hid2 _].
    unfold v2_pair. rewrite !layer_coord_eq by lia.
    repeat constructor; eexists; (split; [|reflexivity]); (split; [|done]);
      apply concat_id_range;
      first [ apply low_nibble_range
            | apply high_nibble_range, Hget; (done || lia)
            | apply Hget; (done || lia) ]. }
  unfold v2_hits.
  apply (count_bind_seqZ _ _ 16 y0); [done| |].
  - intros y Hy Hne. apply Forall_bind, Forall_forall. intros zx Hzx.
    apply elem_of_seqZ in Hzx.
    eapply Forall_impl; [apply (Hpair y zx); lia|].
    simpl. intros t (id & Hid & ->). unfold in_row. nia.
  - rewrite filter_all.
    + rewrite (length_bind_const _ _ 2); [by rewrite length_seqZ|done].
    + apply Forall_bind, Forall_forall. intros zx Hzx.
      apply elem_of_seqZ in Hzx.
      eapply Forall_impl; [apply (Hpair y0 zx); lia|].
      simpl. intros t (id & Hid & ->). unfold in_row. nia.
Qed.

Lemma v0_hits_row blocks metadata layer :
  wf_v0 blocks metadata →
  0 ≤ layer < 128 →
  length (filter (in_row 4096 layer) (v0_hits blocks metadata)) = 256%nat.
Proof.
  intros (Hlb & Hlm & Hb & Hm) Hl.
  change (16 * 16 * 128 `div` 2) with 16384 in Hlm.
  unfold v0_hits.
  rewrite (count_bind_const _ _ _ 1), length_seqZ; [lia|].
  intros xz Hxz. apply elem_of_seqZ in Hxz.
  unfold v0_ys. rewrite list_fmap_bind.
  assert (∀ k, 0 ≤ k < 64 →
            ∃ id1 id2, 0 ≤ id1 < 4096 ∧ 0 ≤ id2 < 4096
              ∧ v0_pair blocks metadata xz (2 * k)
                = [2 * k * 4096 + id1; (2 * k + 1) * 4096 + id2]) as Hpair.
  { intros k Hk. eexists _, _. split; [|split; [|reflexivity]].
    - assert (0 ≤ (2 * k + xz * 128) `div` 2 < 16384).
      { split; [apply Z.div_pos|apply Z.div_lt_upper_bound]; lia. }
      apply v0_id_range; [|apply low_nibble_range].
      apply (get_in_range 8); [done|lia].
    - assert (0 ≤ (2 * k + xz * 128) `div` 2 < 16384).
      { split; [apply Z.div_pos|apply Z.div_lt_upper_bound]; lia. }
      apply v0_id_range.
      + apply (get_in_range 8); [done|lia].
      + apply high_nibble_range, (get_in_range 8); [done|lia]. }
  pose proof (Z.div_mod layer 2 ltac:(lia)) as Hdm.
  pose proof (Z.mod_pos_bound layer 2 ltac:(lia)) as Hmod.
  assert (0 ≤ layer `div` 2 < 64) as Hk0.
  { split; [apply Z.div_pos|apply Z.div_lt_upper_bound]; lia. }
  apply (count_bind_seqZ _ _ 64 (layer `div` 2)); [done| |].
  - intros k Hk Hne. unfold compose.
    destruct (Hpair k Hk) as (id1 & id2 & H1 & H2 & ->).
    repeat constructor; unfold in_row; lia.
  - unfold compose.
    destruct (Hpair _ Hk0) as (id1 & id2 & H1 & H2 & ->).
    rewrite !filter_cons, filter_nil. unfold in_row.
    destruct (decide (layer `mod` 2 = 0)).
    + rewrite decide_True, decide_False by lia. done.
    + rewrite decide_False, decide_True by lia. done.
Qed.

(** ** Words and palette entries that [dsci_v13] does not read *)

Lemma v13_indices_app carry b blockStates extra :
  1 ≤ b ≤ 16 → enough_words carry b blockStates →
  v13_indices carry b (blockStates ++ extra) = v13_indices carry b blockStates.
Proof.
  intros Hb Hw. pose proof CELLS_eq. destruct carry; simpl in *.
  - by apply wc_bits_app_fields.
  - rewrite nc_stream_app, take_app_le; [done|].
    pose proof (length_nc_stream b blockStates Hb). lia.
Qed.

Lemma enough_words_app carry b blockStates extra :
  1 ≤ b ≤ 16 → enough_words carry b blockStates →
  enough_words carry b (blockStates ++ extra).
Proof.
  intros Hb. pose proof (per_word_range b Hb).
  destruct carry; simpl; rewrite length_app; nia.
Qed.

(** ** A v2 section and a v13 section of the same cells *)

Lemma bind_pairs (a : Z → Z) (n : nat) :
  seqZ 0 (2 * Z.of_nat n) ≫= (λ i, [a i])
  = seqZ 0 (Z.of_nat n) ≫= (λ i, [a (2 * i); a (2 * i + 1)]).
Proof.
  induction n as [|n IH]; [done|].
  replace (2 * Z.of_nat (S n)) with (2 * Z.of_nat n + 2) by lia.
  rewrite seqZ_app, seqZ_S, !bind_app, IH by lia. f_equal.
  rewrite !Z.add_0_l, (seqZ_cons _ 2), (seqZ_cons _ (Z.pred 2)) by lia.
  change (seqZ (Z.succ (Z.succ (2 * Z.of_nat n))) (Z.pred (Z.pred 2)))
    with (@nil Z).
  rewrite !bind_cons. simpl. by replace (Z.succ (2 * Z.of_nat n)) with (2 * Z.of_nat n + 1) by lia.
Qed.

(** ** The growth of one entry *)

Lemma length_filter_impl {A} (P Q : A → Prop) `{∀ x, Decision (P x)}
    `{∀ x, Decision (Q x)} (l : list A) :
  (∀ x, P x → Q x) → (length (filter P l) ≤ length (filter Q l))%nat.
Proof.
  intros HPQ. induction l as [|x l IH]; [done|].
  rewrite !filter_cons. destruct (decide (P x)) as [HP|HP].
  - rewrite decide_True by auto. simpl. lia.
  - destruct (decide (Q x)); simpl; lia.
Qed.

Lemma tally_le_row idLim layer targets (p : nat) :
  in_row idLim layer (Z.of_nat p) →
  tally targets p
  ≤ Z.of_nat (length (filter (in_row idLim layer) targets)).
Proof.
  intros Hp. unfold tally. apply inj_le, length_filter_impl.
  by intros t ->.
Qed.

Lemma in_layers_row idLim layer t :
  in_layers idLim layer t →
  ∃ y, 0 ≤ y < 16 ∧ in_row idLim (layer + y) t.
Proof.
  unfold in_layers, in_row. intros Ht.
  assert (0 < idLim) by nia.
  exists (t `div` idLim - layer).
  pose proof (Z.div_mod t idLim ltac:(lia)).
  pose proof (Z.mod_pos_bound t idLim ltac:(lia)).
  assert (layer ≤ t `div` idLim) by (apply Z.div_le_lower_bound; lia).
  assert (t `div` idLim < layer + 16) by (apply Z.div_lt_upper_bound; lia).
  split; [lia|]. nia.
Qed.


(** ** The sum of the entries, with and without wrapping *)

(** Without the reduction modulo [2^64] the entries grow by the number of
    hits in total. *)
Lemma sumZ_imap_tally targets h :
  Forall (λ t, 0 ≤ t < Z.of_nat (length h)) targets →
  sumZ (imap (λ p c, c + tally targets p) h)
  = sumZ h + Z.of_nat (length targets).
Proof.
  revert h. induction targets as [|t ts IH]; intros h Ht.
  - rewrite (imap_ext _ (λ _ c, c)).
    + assert (imap (λ (_ : nat) (c : Z), c) h = h) as ->; [|simpl; lia].
      apply list_eq. intros p. rewrite list_lookup_imap.
      by destruct (h !! p).
    + intros p c _. rewrite tally_nil. lia.
  - apply Forall_cons in Ht as [Ht Hts].
    destruct (lookup_lt_is_Some_2 h (Z.to_nat t)) as [c Hc]; [lia|].
    assert (imap (λ p c, c + tally (t :: ts) p) h
            = imap (λ p c, c + tally ts p) (<[Z.to_nat t := c + 1]> h)) as ->.
    { apply list_eq. intros p. rewrite !list_lookup_imap, tally_cons.
      destruct (decide (Z.to_nat t = p)) as [<-|Hne].
      - rewrite list_lookup_insert_eq by lia. rewrite Hc. simpl.
        rewrite decide_True by lia. f_equal. lia.
      - rewrite list_lookup_insert_ne by done.
        rewrite decide_False by lia. by destruct (h !! p). }
    rewrite IH by (by rewrite length_insert).
    rewrite (sumZ_insert _ _ _ _ Hc). simpl length. lia.
Qed.

Lemma sumZ_Forall2_le xs ys :
  Forall2 Z.le xs ys → sumZ xs ≤ sumZ ys ∧ (sumZ xs = sumZ ys → xs = ys).
Proof.
  induction 1 as [|x y xs ys Hxy _ [IH1 IH2]]; [done|].
  unfold sumZ in *. simpl. split; [lia|].
  intros Heq. assert (x = y) as -> by lia. f_equal. apply IH2. lia.
Qed.

(** The entries grow by the number of hits in total exactly when no
    counter wraps. *)
Lemma sumZ_add_counts_iff targets h :
  in_range 64 h →
  Forall (λ t, 0 ≤ t < Z.of_nat (length h)) targets →
  sumZ (add_counts targets h) - sumZ h = Z.of_nat (length targets)
  ↔ ∀ (p : nat) c, h !! p = Some c → c + tally targets p < 2 ^ 64.
Proof.
  intros Hh Ht. pose proof (sumZ_imap_tally targets h Ht) as Hsum.
  assert (Forall2 Z.le (add_counts targets h)
            (imap (λ p c, c + tally targets p) h)) as Hle.
  { apply Forall2_same_length_lookup_2.
    - by rewrite length_add_counts, length_imap.
    - intros p x y. rewrite lookup_add_counts, list_lookup_imap.
      destruct (h !! p) as [c|] eqn:Hc; simpl; [|done].
      intros [= <-] [= <-].
      pose proof (Forall_lookup_1 _ _ _ _ Hh Hc) as Hcr. simpl in Hcr.
      pose proof (tally_nonneg targets p).
      unfold u64, wrap. apply Z.mod_le; lia. }
  destruct (sumZ_Forall2_le _ _ Hle) as [_ Heq].
  split.
  - intros Hs p c Hc.
    assert (add_counts targets h = imap (λ p c, c + tally targets p) h)
      as Hlists by (apply Heq; lia).
    apply (f_equal (λ l, l !! p)) in Hlists.
    rewrite lookup_add_counts, list_lookup_imap, Hc in Hlists.
    simpl in Hlists. injection Hlists as Hu.
    pose proof (wrap_range 64 (c + tally targets p) ltac:(lia)) as Hr.
    unfold u64 in Hu. lia.
  - intros Hroom.
    assert (add_counts targets h = imap (λ p c, c + tally targets p) h) as ->;
      [|lia].
    apply imap_ext. intros p c Hc. apply wrap_small.
    pose proof (Forall_lookup_1 _ _ _ _ Hh Hc) as Hcr. simpl in Hcr.
    pose proof (tally_nonneg targets p). specialize (Hroom p c Hc). lia.
Qed.

(** ** How often one entry is hit *)

Lemma tally_le_rows idLim (rows : Z → Prop) targets (n : nat) (p : nat) :
  (∀ l, rows l → length (filter (in_row idLim l) targets) = n) →
  Forall (λ t, ∃ l, rows l ∧ in_row idLim l t) targets →
  tally targets p ≤ Z.of_nat n.
Proof.
  intros Hrows Hin.
  destruct (decide (Z.of_nat p ∈ targets)) as [Hp|Hp].
  - rewrite Forall_forall in Hin.
    destruct (Hin _ Hp) as (l & Hl & Hrow).
    rewrite <-(Hrows l Hl). by apply tally_le_row.
  - rewrite tally_0 by done. lia.
Qed.

Lemma v0_hits_tally blocks metadata (p : nat) :
  wf_v0 blocks metadata → tally (v0_hits blocks metadata) p ≤ 256.
Proof.
  intros Hwf.
  apply (tally_le_rows 4096 (λ l, 0 ≤ l < 128) _ 256).
  - intros l Hl. by apply v0_hits_row.
  - eapply Forall_impl; [by apply v0_hits_bounds|]. simpl. intros t Ht.
    exists (t `div` 4096).
    pose proof (Z.div_mod t 4096 ltac:(lia)).
    pose proof (Z.mod_pos_bound t 4096 ltac:(lia)).
    split; [split; [apply Z.div_pos|apply Z.div_lt_upper_bound]; lia|].
    unfold in_row. lia.
Qed.

Lemma v2_hits_tally idLim ySection blocks add add2 metadata (p : nat) :
  wf_v2 blocks add add2 metadata →
  Forall (λ id, id < idLim) (v2_ids blocks add add2 metadata) →
  tally (v2_hits idLim ySection blocks add add2 metadata) p ≤ 256.
Proof.
  intros Hwf Hids.
  apply (tally_le_rows idLim
           (λ l, ∃ y, 0 ≤ y < 16 ∧ l = u32 (ySection * 16) + y) _ 256).
  - intros l (y & Hy & ->). by apply v2_hits_row.
  - eapply Forall_impl; [by apply v2_hits_region|]. simpl. intros t Ht.
    destruct (in_layers_row _ _ _ Ht) as (y & Hy & Hrow).
    exists (u32 (ySection * 16) + y). split; [by exists y|done].
Qed.

Lemma v13_hits_tally idLim ySection paletteMap idxs (p : nat) :
  Forall (λ id, 0 ≤ id < idLim) paletteMap →
  Z.of_nat (length idxs) = 4096 →
  Forall (λ i, 0 ≤ i < Z.of_nat (length paletteMap)) idxs →
  tally (v13_hits idLim ySection paletteMap idxs) p ≤ 256.
Proof.
  intros Hpm Hlen Hidx.
  apply (tally_le_rows idLim
           (λ l, ∃ y, 0 ≤ y < 16 ∧ l = u32 (ySection * 16) + y) _ 256).
  - intros l (y & Hy & ->). by apply v13_hits_row.
  - eapply Forall_impl; [by apply v13_hits_region|]. simpl. intros t Ht.
    destruct (in_layers_row _ _ _ Ht) as (y & Hy & Hrow).
    exists (u32 (ySection * 16) + y). split; [by exists y|done].
Qed.

(** ** The fields of the block states, bit by bit *)

Lemma wc_field_bits packed b k i :
  1 ≤ b ≤ 16 → in_range 64 packed → 0 ≤ k → 0 ≤ i < b →
  (k * b + i) `div` 64 < Z.of_nat (length packed) →
  Z.testbit (Z.land (wc_bits packed ≫ (k * b)) (Z.ones b)) i
  = Z.testbit (get packed ((k * b + i) `div` 64)) ((k * b + i) `mod` 64).
Proof.
  intros Hb Hp Hk Hi Hj.
  rewrite land_ones_testbit, Z.shiftr_spec by lia.
  set (q := k * b + i) in *.
  assert (0 ≤ q) as Hq by (unfold q; nia).
  pose proof (Z.div_mod q 64 ltac:(lia)) as Hdm.
  pose proof (Z.mod_pos_bound q 64 ltac:(lia)) as Hmod.
  assert (0 ≤ q `div` 64) by (apply Z.div_pos; lia).
  destruct (lookup_lt_is_Some_2 packed (Z.to_nat (q `div` 64))) as [w Hw];
    [lia|].
  replace (get packed (q `div` 64)) with w
    by (unfold get; by rewrite load_lookup, Hw by lia).
  rewrite <-(wc_word_bits packed (Z.to_nat (q `div` 64)) w) by (done || lia).
  f_equal. unfold q in *. lia.
Qed.

(** The indices of a section, element by element. *)
Lemma v13_indices_element carry b blockStates k :
  1 ≤ b ≤ 16 → in_range 64 blockStates →
  enough_words carry b blockStates → 0 ≤ k < 4096 →
  0 ≤ get (v13_indices carry b blockStates) k < 2 ^ b
  ∧ if carry
    then ∀ i, 0 ≤ i < b →
           Z.testbit (get (v13_indices carry b blockStates) k) i
           = Z.testbit (get blockStates ((k * b + i) `div` 64))
                       ((k * b + i) `mod` 64)
    else get (v13_indices carry b blockStates) k
         = (get blockStates (k `div` (64 `div` b))
            ≫ (k `mod` (64 `div` b) * b)) `mod` 2 ^ b.
Proof.
  intros Hb Hbs Hw Hk. pose proof CELLS_eq as HC.
  pose proof (per_word_range b Hb) as Hper.
  destruct carry; simpl in *.
  - assert (get (fields b (wc_bits blockStates) CELLS) k
            = Z.land (wc_bits blockStates ≫ (k * b)) (Z.ones b)) as ->.
    { unfold get. rewrite load_lookup, fields_lookup, decide_True by lia.
      by rewrite Z2Nat.id by lia. }
    split; [apply land_ones_range; lia|].
    intros i Hi. apply wc_field_bits; [done|done|lia|done|].
    apply Z.div_lt_upper_bound; nia.
  - pose proof (length_nc_stream b blockStates Hb) as Hls.
    assert (get (take (Z.to_nat CELLS) (nc_stream b blockStates)) k
            = Z.land (get blockStates (k `div` (64 `div` b))
                      ≫ (k `mod` (64 `div` b) * b)) (Z.ones b)) as ->.
    { unfold get at 1. rewrite load_lookup, lookup_take_lt by lia.
      rewrite nc_stream_lookup, Z2Nat.id by lia.
      assert (0 ≤ k `div` (64 `div` b) < Z.of_nat (length blockStates)) as Hj.
      { split; [apply Z.div_pos; lia|].
        apply Z.div_lt_upper_bound; [lia|]. lia. }
      destruct (lookup_lt_is_Some_2 blockStates
                  (Z.to_nat (k `div` (64 `div` b)))) as [w Hw']; [lia|].
      rewrite Hw'. simpl. unfold get. by rewrite load_lookup, Hw' by lia. }
    split; [apply land_ones_range; lia|].
    by rewrite Z.land_ones by lia.
Qed.

(** ** Reading one element *)

Lemma get_in_bounds (l : list Z) (P : Z → Prop) k :
  Forall P l → 0 ≤ k < Z.of_nat (length l) → P (get l k).
Proof.
  intros Hl Hk.
  destruct (lookup_lt_is_Some_2 l (Z.to_nat k)) as [v Hv]; [lia|].
  unfold get. rewrite load_lookup, Hv by lia. simpl.
  by apply (Forall_lookup_1 _ _ _ _ Hl Hv).
Qed.

Lemma get_add_counts targets h p :
  0 ≤ p < Z.of_nat (length h) →
  get (add_counts targets h) p = u64 (get h p + tally targets (Z.to_nat p)).
Proof.
  intros Hp. unfold get. rewrite !load_lookup by lia.
  rewrite lookup_add_counts.
  by destruct (lookup_lt_is_Some_2 h (Z.to_nat p)) as [c ->]; [lia|].
Qed.

Lemma get_zeros n p : get (zeros n) p = 0.
Proof.
  unfold get, load, zeros. case_decide; [|done].
  destruct (replicate _ _ !! _) as [c|] eqn:Hc; [|done].
  by apply lookup_replicate_1 in Hc as [-> _].
Qed.

(** ** Conservation, frame and growth of a run of increments *)

Lemma incr_all_conserves targets h :
  in_range 64 h →
  Forall (λ t, 0 ≤ t < Z.of_nat (length h)) targets →
  (∀ p : nat, tally targets p ≤ 256) →
  ∃ h', incr_all targets h = Some h' ∧ conserves targets h h'.
Proof.
  intros Hh Ht Hmax. exists (add_counts targets h).
  split; [by apply incr_all_add_counts|].
  pose proof (sumZ_add_counts_iff targets h Hh Ht) as Hiff.
  split; [apply length_add_counts|]. split; [done|]. split; [|split].
  - intros p c Hc. by rewrite lookup_add_counts, Hc.
  - done.
  - intros Hroom. apply Hiff. intros p c Hc.
    pose proof (Forall_lookup_1 _ _ _ _ Hroom Hc) as Hcr. simpl in Hcr.
    specialize (Hmax p). lia.
Qed.

Lemma incr_all_frame_and_growth (region : Z → Prop) targets h n :
  in_range 64 h →
  Forall region targets →
  Forall (λ t, 0 ≤ t < Z.of_nat (length h)) targets →
  (∀ p : nat, tally targets p ≤ n) →
  ∃ h', incr_all targets h = Some h' ∧ frame_and_growth region n h h'.
Proof.
  intros Hh Hreg Ht Hmax. exists (add_counts targets h).
  split; [by apply incr_all_add_counts|].
  split; [apply length_add_counts|].
  intros p c Hc. split.
  - intros Hout. rewrite add_counts_frame, Hc; [done|done|].
    intros Hin. apply Hout.
    rewrite Forall_forall in Hreg. by apply Hreg.
  - intros Hroom. rewrite lookup_add_counts, Hc. simpl.
    eexists. split; [done|].
    pose proof (Forall_lookup_1 _ _ _ _ Hh Hc) as Hcr. simpl in Hcr.
    pose proof (tally_nonneg targets p). specialize (Hmax p).
    unfold u64. rewrite wrap_small by lia. lia.
Qed.

(** ** Identifiers at or above the limit *)

Lemma spill_index idLim layer id :
  0 < idLim →
  (layer + id `div` idLim) * idLim + id `mod` idLim = layer * idLim + id.
Proof. intros. pose proof (Z.div_mod id idLim ltac:(lia)). nia. Qed.

(** ** More facts about the sample inputs *)

Lemma sample_nibbles_wf :
  wf_v2 SampleNibbles.blocks SampleNibbles.add SampleNibbles.add2
        SampleNibbles.metadata.
Proof.
  unfold wf_v2, SampleNibbles.blocks, SampleNibbles.add, SampleNibbles.add2,
    SampleNibbles.metadata.
  rewrite !length_replicate, !Z2Nat.id by lia.
  repeat (split; [reflexivity|]).
  repeat split; apply Forall_replicate; lia.
Qed.

Lemma sample_wf_v13_single carry :
  wf_v13 10 (zeros 256) [35] 0 carry (zeros 4096).
Proof.
  unfold wf_v13. split; [lia|]. split; [lia|]. split; [reflexivity|].
  split; [by_compute|]. split; [lia|].
  split; [apply Forall_replicate; lia|].
  split; [destruct carry; unfold enough_words; by_compute|].
  split; [destruct carry; by_compute|].
  by rewrite length_zeros, CELLS_eq by lia.
Qed.

Lemma zeros_wf_v13 :
  wf_v13 1 (zeros 256) [0] 0 true (zeros 4096).
Proof.
  unfold wf_v13. split; [lia|]. split; [lia|]. split; [reflexivity|].
  split; [by_compute|]. split; [lia|].
  split; [apply Forall_replicate; lia|].
  split; [unfold enough_words; by_compute|].
  split; [by_compute|].
  by rewrite length_zeros, CELLS_eq by lia.
Qed.

Lemma zeros_v2_ids :
  Forall (λ id, id < 1)
    (v2_ids (zeros 4096) (zeros 2048) (zeros 2048) (zeros 2048)).
Proof. by_compute. Qed.

(** A counter at [2^64 - 256] that takes the 256 cells of a layer. *)
Lemma zeros_v2_counter_wraps :
  dsci_v2 ((2 ^ 64 - 256) :: zeros 15) 1 0
          (zeros 4096) (zeros 2048) (zeros 2048) (zeros 2048)
  = Some (0 :: replicate 15 256).
Proof. vm_compute. reflexivity. Qed.

(** * The theorems *)

(** C1.  For every width [idxBits] in [4,16] and every sequence of values
    below [2^idxBits], packing the values in the with-carry layout and
    running [unpack_block_idxs_wc], or packing them in the no-carry layout
    (whatever the packer leaves in the [64 mod idxBits] bits on top of each
    word) and running [unpack_block_idxs_nc], gives the values back: the
    unpacker writes 4096 values, so the words may be followed by others to
    make up the count, and of a longer sequence the first 4096 come back.
    A sequence of exactly 4096 values comes back as the whole output. *)
Theorem unpack_round_trip (b : Z) (vs rest_wc rest_nc : list Z) (fill : Z)
    (u0 : list Z) :
  4 ≤ b ≤ 16 →
  in_range b vs →
  in_range 64 rest_wc →
  CELLS ≤ Z.of_nat (length u0) →
  64 * b ≤ Z.of_nat (length (pack_wc b vs ++ rest_wc)) →
  CELLS ≤ 64 `div` b * Z.of_nat (length (pack_nc b fill vs ++ rest_nc)) →
  let k := (length vs `min` Z.to_nat CELLS)%nat in
  (∃ out, unpack_block_idxs_wc (pack_wc b vs ++ rest_wc) b u0 = Some out
          ∧ length out = length u0
          ∧ take k out = take k vs
          ∧ (Z.of_nat (length vs) = CELLS → Z.of_nat (length u0) = CELLS →
             out = vs))
  ∧ (∃ out, unpack_block_idxs_nc (pack_nc b fill vs ++ rest_nc) b u0 = Some out
            ∧ length out = length u0
            ∧ take k out = take k vs
            ∧ (Z.of_nat (length vs) = CELLS → Z.of_nat (length u0) = CELLS →
               out = vs)).
Proof.
  intros Hb Hvs Hrest Hu0 Hwc Hnc k. pose proof CELLS_eq as HC.
  assert (∀ vals : list Z,
            Z.of_nat (length vals) = CELLS → take k vals = take k vs →
            length (vals ++ drop (Z.to_nat CELLS) u0) = length u0
            ∧ take k (vals ++ drop (Z.to_nat CELLS) u0) = take k vs
            ∧ (Z.of_nat (length vs) = CELLS → Z.of_nat (length u0) = CELLS →
               vals ++ drop (Z.to_nat CELLS) u0 = vs)) as Hout.
  { intros vals Hlen Htake. split; [|split].
    - rewrite length_app, length_drop. lia.
    - rewrite take_app_le by lia. done.
    - intros Hlvs Hlu0. rewrite drop_ge, app_nil_r by lia.
      rewrite <-(take_ge vals k), <-(take_ge vs k) by lia. done. }
  split.
  - rewrite unpack_wc_spec; [|lia|done| |done].
    + eexists. split; [done|]. apply Hout.
      * rewrite length_fields; lia.
      * rewrite (take_fields _ _ CELLS) by lia.
        apply pack_wc_fields; [lia|done|lia].
    + apply Forall_app. split; [apply pack_wc_range; lia|done].
  - rewrite unpack_nc_spec by (done || lia).
    eexists. split; [done|]. apply Hout.
    + apply length_take_nc_stream; [lia|done].
    + rewrite take_take, Nat.min_l by lia.
      destruct (pack_nc_stream b fill vs) as [pad Hpad]; [lia|done|].
      rewrite nc_stream_app, Hpad, <-app_assoc.
      apply take_app_le. lia.
Qed.

Lemma unpack_round_trip_witness :
  unpack_block_idxs_wc (pack_wc 5 SampleWords.values5) 5 (zeros 4096)
  = Some SampleWords.values5
  ∧ unpack_block_idxs_nc (pack_nc 5 15 SampleWords.values5) 5 (zeros 4096)
    = Some SampleWords.values5.
Proof.
  destruct (unpack_round_trip 5 SampleWords.values5 [] [] 15 (zeros 4096))
    as [(out & Hrun & _ & _ & Hout) (out' & Hrun' & _ & _ & Hout')].
  - lia.
  - by_compute.
  - constructor.
  - rewrite length_zeros, CELLS_eq by lia. reflexivity.
  - by_compute.
  - by_compute.
  - rewrite app_nil_r in Hrun, Hrun'.
    assert (Z.of_nat (length (zeros 4096)) = CELLS) as Hu0
      by (rewrite length_zeros, CELLS_eq by lia; reflexivity).
    assert (Z.of_nat (length SampleWords.values5) = CELLS) as Hvs
      by by_compute.
    split.
    + rewrite Hrun. f_equal. exact (Hout Hvs Hu0).
    + rewrite Hrun'. f_equal. exact (Hout' Hvs Hu0).
Defined.

(** C2, as the code has it.  For every well-formed v13 input (block states
    with the words that the unpacker of the carry mode reads and packed
    indices inside the palette, [paletteMap] of length
    [maxPaletteIdx + 1 <= 2^16], an [idLimit] above every identifier of
    [paletteMap]) and every histogram of 64-bit counters that holds the 16
    layers of the call, [dsci_v13] computes the smallest width from 4 up
    that has room for [maxPaletteIdx + 1] indices, and unpacks 4096 palette
    indices of that width from [blockStates] with the unpacker of the carry
    mode: with carry, bit [i] of index [k] is bit [(k*idxBits + i) mod 64]
    of word [(k*idxBits + i) / 64]; without, index [k] is field
    [k mod (64/idxBits)] of word [k / (64/idxBits)].  It resolves the index
    at [idx = zx + y_local * 256] to [paletteMap[index]] and increments
    [histogram[layer * idLimit + identifier]] once per cell, where the
    layer is [ySection*16] reduced modulo [2^32], plus [y_local], which is
    [ySection*16 + y_local] whenever [ySection < 2^28]: every entry grows,
    as a 64-bit counter, by the number of the 4096 cells that name it. *)
Theorem dsci_v13_counts_each_cell (h : list Z) (idLim ySection : Z)
    (blockStates paletteMap : list Z) (maxPaletteIdx : Z) (carry : bool)
    (stack : list Z) :
  wf_v13 idLim blockStates paletteMap maxPaletteIdx carry stack →
  Forall (λ id, 0 ≤ id < idLim) paletteMap →
  in_range 64 h →
  ((ySection * 16) `mod` 2 ^ 32 + 16) * idLim ≤ Z.of_nat (length h) →
  ∃ idxBits idxs,
    compute_idxBits maxPaletteIdx = Some idxBits
    ∧ smallest_width maxPaletteIdx idxBits
    ∧ (if carry then unpack_block_idxs_wc blockStates idxBits stack
       else unpack_block_idxs_nc blockStates idxBits stack) = Some idxs
    ∧ Z.of_nat (length idxs) = 4096
    ∧ (∀ k, 0 ≤ k < 4096 →
         0 ≤ get idxs k < 2 ^ idxBits
         ∧ get idxs k ≤ maxPaletteIdx
         ∧ if carry
           then ∀ i, 0 ≤ i < idxBits →
                  Z.testbit (get idxs k) i
                  = Z.testbit (get blockStates ((k * idxBits + i) `div` 64))
                              ((k * idxBits + i) `mod` 64)
           else get idxs k
                = (get blockStates (k `div` (64 `div` idxBits))
                   ≫ (k `mod` (64 `div` idxBits) * idxBits))
                  `mod` 2 ^ idxBits)
    ∧ let cells :=
        seqZ 0 16 ≫= λ y_local, seqZ 0 256 ≫= λ zx,
          [((ySection * 16) `mod` 2 ^ 32 + y_local) * idLim
           + get paletteMap (get idxs (zx + y_local * 256))] in
      Z.of_nat (length cells) = 4096
      ∧ (∃ h', dsci_v13 h idLim ySection blockStates paletteMap maxPaletteIdx
                        carry stack = Some h'
               ∧ length h' = length h
               ∧ ∀ (p : nat) c, h !! p = Some c →
                   h' !! p = Some (u64 (c + tally cells p)))
      ∧ (0 ≤ ySection < 2 ^ 28 →
         ∀ y_local, (ySection * 16) `mod` 2 ^ 32 + y_local
                    = ySection * 16 + y_local).
Proof.
  intros Hwf Hpm Hh Hlen.
  destruct (wf_v13_indices _ _ _ _ _ _ Hwf) as [Hn Hidx].
  pose proof Hwf as (Hm & Hm16 & _ & _ & HidLim & Hbs & Hw & Hin & Hstack).
  pose proof (idx_width_16 maxPaletteIdx Hm Hm16) as Hb.
  exists (idx_width maxPaletteIdx),
         (v13_indices carry (idx_width maxPaletteIdx) blockStates).
  split; [apply compute_idxBits_width; lia|].
  split; [apply idx_width_smallest; lia|].
  split; [apply v13_unpack; (done || lia)|].
  split; [done|]. split.
  { intros k Hk.
    destruct (v13_indices_element carry (idx_width maxPaletteIdx)
                blockStates k) as [Hr He]; [lia|done|done|done|].
    split; [done|]. split; [|done].
    apply (get_in_bounds _ (λ i, i ≤ maxPaletteIdx)); [done|lia]. }
  intros cells.
  assert (cells
          = v13_hits idLim ySection paletteMap
              (v13_indices carry (idx_width maxPaletteIdx) blockStates))
    as ->.
  { unfold cells, v13_hits. apply bind_ext_in. intros y Hy.
    apply elem_of_seqZ in Hy. apply bind_ext_in. intros zx _.
    by rewrite layer_coord_eq by lia. }
  split; [apply length_v13_hits|]. split.
  - rewrite dsci_v13_incr_all by done.
    destruct (incr_all_in_bounds
                (v13_hits idLim ySection paletteMap
                   (v13_indices carry (idx_width maxPaletteIdx) blockStates))
                h) as [-> Hl]; [done| |].
    { pose proof (u32_mul16_range ySection) as Hy. unfold u32, wrap in Hy.
      eapply in_layers_bounds; [| |exact Hlen|by apply v13_hits_region];
        lia. }
    eexists. split; [done|]. split; [done|].
    intros p c Hc. by rewrite lookup_add_counts, Hc.
  - intros Hy y. rewrite Z.mod_small; lia.
Qed.

Lemma dsci_v13_counts_each_cell_witness :
  ∃ idxBits idxs,
    compute_idxBits 16 = Some idxBits
    ∧ smallest_width 16 idxBits
    ∧ unpack_block_idxs_wc Sample.blockStates idxBits Sample.stack = Some idxs
    ∧ Z.of_nat (length idxs) = 4096
    ∧ (∀ k, 0 ≤ k < 4096 →
         0 ≤ get idxs k < 2 ^ idxBits
         ∧ get idxs k ≤ 16
         ∧ ∀ i, 0 ≤ i < idxBits →
             Z.testbit (get idxs k) i
             = Z.testbit (get Sample.blockStates ((k * idxBits + i) `div` 64))
                         ((k * idxBits + i) `mod` 64))
    ∧ let cells :=
        seqZ 0 16 ≫= λ y_local, seqZ 0 256 ≫= λ zx,
          [((1 * 16) `mod` 2 ^ 32 + y_local) * 200
           + get Sample.paletteMap (get idxs (zx + y_local * 256))] in
      Z.of_nat (length cells) = 4096
      ∧ (∃ h', dsci_v13 Sample.h13 200 1 Sample.blockStates Sample.paletteMap
                        16 true Sample.stack = Some h'
               ∧ length h' = length Sample.h13
               ∧ ∀ (p : nat) c, Sample.h13 !! p = Some c →
                   h' !! p = Some (u64 (c + tally cells p)))
      ∧ (0 ≤ 1 < 2 ^ 28 →
         ∀ y_local, (1 * 16) `mod` 2 ^ 32 + y_local = 1 * 16 + y_local).
Proof.
  apply (dsci_v13_counts_each_cell Sample.h13 200 1 Sample.blockStates
           Sample.paletteMap 16 true Sample.stack).
  - exact (sample_wf_v13 true).
  - exact sample_palette.
  - apply Forall_replicate. lia.
  - unfold Sample.h13. rewrite length_zeros by lia. reflexivity.
Defined.

(** C2, the claim as it is written, fails for section indices from [2^28]
    on: with [ySection = 2^28], a palette of the one identifier 0 below
    [idLimit = 1] and all-zero block states, every cell has an index from
    [2^32] on by the formula [(ySection*16 + y_local)*idLimit + identifier],
    and [dsci_v13] counts the 256 cells of local layer [y_local] in entry
    [y_local] of a histogram of 16 entries. *)
Lemma dsci_v13_layer_wraps :
  wf_v13 1 (zeros 256) [0] 0 true (zeros 4096)
  ∧ Forall (λ id, 0 ≤ id < 1) [0]
  ∧ dsci_v13 (zeros 16) 1 (2 ^ 28) (zeros 256) [0] 0 true (zeros 4096)
    = Some (replicate 16 256)
  ∧ (∀ y_local identifier,
       0 ≤ y_local → 0 ≤ identifier →
       2 ^ 32 ≤ (2 ^ 28 * 16 + y_local) * 1 + identifier)
  ∧ layer_coord (2 ^ 28) 0 = 0
  ∧ layer_coord (2 ^ 28) 0 ≠ 2 ^ 28 * 16 + 0.
Proof.
  split; [exact zeros_wf_v13|].
  split; [by_compute|].
  split; [vm_compute; reflexivity|].
  split; [intros; lia|].
  vm_compute. split; congruence.
Qed.



(** C4, as the code has it.  For every v2 input the identifier that
    [dsci_v2] counts for a cell is the unsigned concatenation
    [add2_nibble:add_nibble:blocks_byte:metadata_nibble], that is
    [(add2_nibble<<16) | (add_nibble<<12) | (blocks_byte<<4) | metadata_nibble],
    with the low nibbles for the cell at [blocks] index [idx*2+0] and the
    high nibbles for the cell at [idx*2+1]; the layer coordinate of the
    increment is [ySection*16] reduced modulo [2^32], plus [y_local], which
    is [ySection*16 + y_local] whenever [ySection < 2^28]. *)
Theorem dsci_v2_identifier (h : list Z) idLim ySection blocks add add2 metadata :
  wf_v2 blocks add add2 metadata →
  0 ≤ idLim < 2 ^ 32 →
  let cells :=
    seqZ 0 16 ≫= λ y_local, seqZ 0 128 ≫= λ zx,
      let idx := zx + y_local * 128 in
      let layer := (ySection * 16) `mod` 2 ^ 32 + y_local in
      [ layer * idLim
        + concat_id (low_nibble (get add2 idx)) (low_nibble (get add idx))
                    (get blocks (idx * 2 + 0)) (low_nibble (get metadata idx));
        layer * idLim
        + concat_id (high_nibble (get add2 idx)) (high_nibble (get add idx))
                    (get blocks (idx * 2 + 1))
                    (high_nibble (get metadata idx)) ] in
  dsci_v2 h idLim ySection blocks add add2 metadata = incr_all cells h
  ∧ (∀ a2 a b m,
       0 ≤ a2 < 16 → 0 ≤ a < 16 → 0 ≤ b < 256 → 0 ≤ m < 16 →
       Z.lor (Z.lor (Z.lor (a2 ≪ 16) (a ≪ 12)) (b ≪ 4)) m
       = concat_id a2 a b m)
  ∧ (0 ≤ ySection < 2 ^ 28 →
     ∀ y_local, (ySection * 16) `mod` 2 ^ 32 + y_local
                = ySection * 16 + y_local).
Proof.
  intros Hwf HidLim cells. split; [|split].
  - rewrite dsci_v2_incr_all by done. f_equal.
    unfold v2_hits, cells. apply bind_ext_in. intros y Hy.
    apply elem_of_seqZ in Hy. apply bind_ext_in. intros zx _.
    unfold v2_pair. by rewrite layer_coord_eq by lia.
  - intros a2 a b m ????. by apply concat_id_lor.
  - intros Hy y. rewrite Z.mod_small; lia.
Qed.

Lemma dsci_v2_identifier_witness :
  let cells :=
    seqZ 0 16 ≫= λ y_local, seqZ 0 128 ≫= λ zx,
      let idx := zx + y_local * 128 in
      let layer := (3 * 16) `mod` 2 ^ 32 + y_local in
      [ layer * 262144
        + concat_id (low_nibble (get SampleNibbles.add2 idx))
                    (low_nibble (get SampleNibbles.add idx))
                    (get SampleNibbles.blocks (idx * 2 + 0))
                    (low_nibble (get SampleNibbles.metadata idx));
        layer * 262144
        + concat_id (high_nibble (get SampleNibbles.add2 idx))
                    (high_nibble (get SampleNibbles.add idx))
                    (get SampleNibbles.blocks (idx * 2 + 1))
                    (high_nibble (get SampleNibbles.metadata idx)) ] in
  dsci_v2 SampleNibbles.h 262144 3 SampleNibbles.blocks SampleNibbles.add
          SampleNibbles.add2 SampleNibbles.metadata
  = incr_all cells SampleNibbles.h
  ∧ (∃ h', dsci_v2 SampleNibbles.h 262144 3 SampleNibbles.blocks
                   SampleNibbles.add SampleNibbles.add2 SampleNibbles.metadata
           = Some h'
           ∧ get h' ((3 * 16 + 0) * 262144 + 77911) = 128
           ∧ get h' ((3 * 16 + 15) * 262144 + 147544) = 128
           ∧ get h' ((3 * 16 + 0) * 262144 + 77912) = 0)
  ∧ Z.lor (Z.lor (Z.lor (1 ≪ 16) (3 ≪ 12)) (5 ≪ 4)) 7 = concat_id 1 3 5 7
  ∧ concat_id 1 3 5 7 = 77911
  ∧ concat_id 2 4 5 8 = 147544
  ∧ (∀ y_local, (3 * 16) `mod` 2 ^ 32 + y_local = 3 * 16 + y_local).
Proof.
  intros cells.
  destruct (dsci_v2_identifier SampleNibbles.h 262144 3 SampleNibbles.blocks
              SampleNibbles.add SampleNibbles.add2 SampleNibbles.metadata
              sample_nibbles_wf) as (Hrun & Hid & Hlayer); [lia|].
  fold cells in Hrun.
  assert (Z.of_nat (length SampleNibbles.h) = 64 * 262144) as Hlen
    by (unfold SampleNibbles.h; rewrite length_zeros by lia; reflexivity).
  assert (incr_all cells SampleNibbles.h
          = Some (add_counts cells SampleNibbles.h)) as Hall.
  { apply incr_all_add_counts; [apply Forall_replicate; lia|].
    rewrite Hlen. by_compute. }
  split; [exact Hrun|]. split.
  - exists (add_counts cells SampleNibbles.h).
    split; [exact (eq_trans Hrun Hall)|].
    unfold SampleNibbles.h.
    rewrite !get_add_counts by (rewrite length_zeros; lia).
    rewrite !get_zeros. unfold tally. rewrite !Z2Nat.id by lia.
    vm_compute. repeat split; reflexivity.
  - split; [apply Hid; lia|]. split; [reflexivity|]. split; [reflexivity|].
    apply Hlayer. lia.
Defined.

(** C4, the claim as it is written, fails for section indices from [2^28]
    on: with [ySection = 2^28] the cells of local layer [y_local] are
    counted in layer [y_local], not in layer [2^32 + y_local]. *)
Lemma dsci_v2_layer_wraps :
  dsci_v2 (zeros 16) 1 (2 ^ 28)
          (zeros 4096) (zeros 2048) (zeros 2048) (zeros 2048)
  = Some (replicate 16 256)
  ∧ layer_coord (2 ^ 28) 0 = 0
  ∧ layer_coord (2 ^ 28) 0 ≠ 2 ^ 28 * 16 + 0.
Proof. vm_compute. repeat split; congruence. Qed.

(** C5, as the code has it.  For every [maxPaletteIdx] with
    [maxPaletteIdx + 1 <= 2^31], the width that [dsci_v13] computes is the
    smallest value from 4 up with [2^idxBits >= maxPaletteIdx + 1], which is
    [max 4 (log2_up (maxPaletteIdx + 1))]; so 15 gives 4, 16 gives 5, 255
    gives 8 and 256 gives 9. *)
Theorem idxBits_is_smallest_width (maxPaletteIdx : Z) :
  0 ≤ maxPaletteIdx < 2 ^ 31 →
  (∃ idxBits, compute_idxBits maxPaletteIdx = Some idxBits
              ∧ smallest_width maxPaletteIdx idxBits
              ∧ idxBits = idx_width maxPaletteIdx)
  ∧ compute_idxBits 15 = Some 4
  ∧ compute_idxBits 16 = Some 5
  ∧ compute_idxBits 255 = Some 8
  ∧ compute_idxBits 256 = Some 9.
Proof.
  intros Hm. split; [|done].
  exists (idx_width maxPaletteIdx).
  split; [by apply compute_idxBits_width|].
  split; [apply idx_width_smallest; lia|done].
Qed.

Lemma idxBits_is_smallest_width_witness :
  ∃ idxBits, compute_idxBits 1000 = Some idxBits
             ∧ smallest_width 1000 idxBits
             ∧ idxBits = idx_width 1000.
Proof.
  apply (idxBits_is_smallest_width 1000). lia.
Defined.

(** C5, the claim as it is written, fails at [maxPaletteIdx = 2^32 - 1]:
    the 32-bit sum [maxPaletteIdx + 1] is 0, the loop does not run and the
    width is 4, which has no room for [2^32] indices. *)
Lemma compute_idxBits_wraps :
  compute_idxBits (2 ^ 32 - 1) = Some 4
  ∧ ¬ smallest_width (2 ^ 32 - 1) 4.
Proof.
  split; [reflexivity|]. intros (_ & Hfit & _). revert Hfit. by vm_compute.
Qed.

(** C6.  For every width in [4,16] and every word sequence long enough to
    supply 4096 values ([64 * idxBits] words for [unpack_block_idxs_wc], and
    enough words of [64 / idxBits] values for [unpack_block_idxs_nc]), each
    unpacker returns after writing exactly 4096 values, which are fields of
    the words and the same whatever the output held before: with carry, bit
    [i] of value [k] is bit [(k*idxBits + i) mod 64] of word
    [(k*idxBits + i) / 64]; without, value [k] is field
    [k mod (64/idxBits)] of word [k / (64/idxBits)].  The output keeps its
    length and its elements from 4096 on, and the result is the same
    whatever words follow; for the no-carry unpacker it is also the same
    when the unread bits on top of every word are cleared. *)
Theorem unpack_stops_at_capacity (b : Z) (packed : list Z) :
  4 ≤ b ≤ 16 →
  in_range 64 packed →
  (64 * b ≤ Z.of_nat (length packed) →
   ∃ vals,
     Z.of_nat (length vals) = 4096
     ∧ (∀ k, 0 ≤ k < 4096 →
          0 ≤ get vals k < 2 ^ b
          ∧ ∀ i, 0 ≤ i < b →
              Z.testbit (get vals k) i
              = Z.testbit (get packed ((k * b + i) `div` 64))
                          ((k * b + i) `mod` 64))
     ∧ ∀ u0 extra,
         4096 ≤ Z.of_nat (length u0) → in_range 64 extra →
         unpack_block_idxs_wc packed b u0 = Some (vals ++ drop 4096 u0)
         ∧ unpack_block_idxs_wc (packed ++ extra) b u0
           = Some (vals ++ drop 4096 u0))
  ∧ (4096 ≤ 64 `div` b * Z.of_nat (length packed) →
     ∃ vals,
       Z.of_nat (length vals) = 4096
       ∧ (∀ k, 0 ≤ k < 4096 →
            get vals k
            = (get packed (k `div` (64 `div` b)) ≫ (k `mod` (64 `div` b) * b))
              `mod` 2 ^ b)
       ∧ ∀ u0 extra,
           4096 ≤ Z.of_nat (length u0) →
           unpack_block_idxs_nc packed b u0 = Some (vals ++ drop 4096 u0)
           ∧ unpack_block_idxs_nc (packed ++ extra) b u0
             = Some (vals ++ drop 4096 u0)
           ∧ unpack_block_idxs_nc
               ((λ w, w `mod` 2 ^ (64 `div` b * b)) <$> packed) b u0
             = Some (vals ++ drop 4096 u0)).
Proof.
  intros Hb Hp. pose proof CELLS_eq as HC.
  pose proof (per_word_range b ltac:(lia)) as Hper.
  replace 4096%nat with (Z.to_nat CELLS) by (rewrite HC; reflexivity).
  split.
  - intros Hwc. exists (v13_indices true b packed).
    split; [unfold v13_indices; rewrite length_fields; lia|]. split.
    { intros k Hk.
      by destruct (v13_indices_element true b packed k) as [Hr He];
        [lia|done|done|done|]. }
    intros u0 extra Hu0 Hextra. unfold v13_indices.
    split; [apply unpack_wc_spec; (done || lia)|].
    rewrite unpack_wc_spec; [|lia|lia| |].
    + by rewrite wc_bits_app_fields by lia.
    + by apply Forall_app.
    + rewrite length_app. lia.
  - intros Hnc. exists (v13_indices false b packed).
    split; [unfold v13_indices; rewrite length_take_nc_stream; (done || lia)|].
    split.
    { intros k Hk.
      by destruct (v13_indices_element false b packed k) as [Hr He];
        [lia|done|unfold enough_words; lia|done|]. }
    intros u0 extra Hu0. unfold v13_indices.
    split; [apply unpack_nc_spec; (done || lia)|]. split.
    + rewrite unpack_nc_spec; [|lia|lia|rewrite length_app; nia].
      rewrite nc_stream_app, take_app_le; [done|].
      pose proof (length_nc_stream b packed ltac:(lia)). lia.
    + rewrite unpack_nc_spec; [|lia|lia|rewrite length_fmap; lia].
      by rewrite nc_stream_mask by lia.
Qed.

Lemma unpack_stops_at_capacity_witness :
  (∃ vals,
     Z.of_nat (length vals) = 4096
     ∧ (∀ k, 0 ≤ k < 4096 →
          0 ≤ get vals k < 2 ^ 5
          ∧ ∀ i, 0 ≤ i < 5 →
              Z.testbit (get vals k) i
              = Z.testbit (get (take 320 Sample.blockStates)
                             ((k * 5 + i) `div` 64))
                          ((k * 5 + i) `mod` 64))
     ∧ ∀ u0 extra,
         4096 ≤ Z.of_nat (length u0) → in_range 64 extra →
         unpack_block_idxs_wc (take 320 Sample.blockStates) 5 u0
         = Some (vals ++ drop 4096 u0)
         ∧ unpack_block_idxs_wc (take 320 Sample.blockStates ++ extra) 5 u0
           = Some (vals ++ drop 4096 u0))
  ∧ (∃ vals,
       Z.of_nat (length vals) = 4096
       ∧ (∀ k, 0 ≤ k < 4096 →
            get vals k
            = (get Sample.blockStates (k `div` (64 `div` 5))
               ≫ (k `mod` (64 `div` 5) * 5)) `mod` 2 ^ 5)
       ∧ ∀ u0 extra,
           4096 ≤ Z.of_nat (length u0) →
           unpack_block_idxs_nc Sample.blockStates 5 u0
           = Some (vals ++ drop 4096 u0)
           ∧ unpack_block_idxs_nc (Sample.blockStates ++ extra) 5 u0
             = Some (vals ++ drop 4096 u0)
           ∧ unpack_block_idxs_nc
               ((λ w, w `mod` 2 ^ (64 `div` 5 * 5)) <$> Sample.blockStates) 5
               u0
             = Some (vals ++ drop 4096 u0)).
Proof.
  destruct (unpack_stops_at_capacity 5 (take 320 Sample.blockStates))
    as [Hwc _].
  { lia. }
  { apply Forall_take, Forall_replicate. lia. }
  destruct (unpack_stops_at_capacity 5 Sample.blockStates) as [_ Hnc].
  { lia. }
  { apply Forall_replicate. lia. }
  split.
  - apply Hwc. by_compute.
  - apply Hnc. by_compute.
Defined.

(** C7, as the code has it.  For every well-formed input (arrays of the
    sizes of the format, identifiers below [idLimit], a histogram of 64-bit
    counters that holds the layers of the call), one call counts every cell
    of the section once, [16*16*128 = 32768] cells for [dsci_v0] and 4096
    for [dsci_v2] and [dsci_v13], each on the entry of the histogram that
    it names: every entry grows, as a 64-bit counter, by the number of the
    cells that name it, at most 256.  The sum over all entries of the value
    after the call minus the value before it is the number of cells
    exactly when no counter wraps, that is when the value before plus the
    number of the cells that name the entry is below [2^64] for every
    entry; it is so whenever every counter is below [2^64 - 256]. *)
Theorem histogram_conservation
    (h0 blocks0 metadata0 : list Z)
    (h2 : list Z) (idLim2 ySection2 : Z) (blocks2 add add2 metadata2 : list Z)
    (h13 : list Z) (idLim13 ySection13 : Z) (blockStates paletteMap : list Z)
    (maxPaletteIdx : Z) (carry : bool) (stack : list Z) :
  wf_v0 blocks0 metadata0 →
  128 * idLim_v0 ≤ Z.of_nat (length h0) →
  in_range 64 h0 →
  wf_v2 blocks2 add add2 metadata2 →
  0 ≤ idLim2 < 2 ^ 32 →
  Forall (λ id, id < idLim2) (v2_ids blocks2 add add2 metadata2) →
  hist_holds idLim2 ySection2 h2 →
  in_range 64 h2 →
  wf_v13 idLim13 blockStates paletteMap maxPaletteIdx carry stack →
  Forall (λ id, 0 ≤ id < idLim13) paletteMap →
  hist_holds idLim13 ySection13 h13 →
  in_range 64 h13 →
  let cells0 := v0_hits blocks0 metadata0 in
  let cells2 := v2_hits idLim2 ySection2 blocks2 add add2 metadata2 in
  let cells13 :=
    v13_hits idLim13 ySection13 paletteMap
      (v13_indices carry (idx_width maxPaletteIdx) blockStates) in
  (Z.of_nat (length cells0) = 16 * 16 * 128
   ∧ ∃ h', dsci_v0 h0 blocks0 metadata0 = Some h' ∧ conserves cells0 h0 h')
  ∧ (Z.of_nat (length cells2) = 4096
     ∧ ∃ h', dsci_v2 h2 idLim2 ySection2 blocks2 add add2 metadata2 = Some h'
             ∧ conserves cells2 h2 h')
  ∧ (Z.of_nat (length cells13) = 4096
     ∧ ∃ h', dsci_v13 h13 idLim13 ySection13 blockStates paletteMap
                      maxPaletteIdx carry stack = Some h'
             ∧ conserves cells13 h13 h').
Proof.
  intros Hwf0 Hlen0 Hh0 Hwf2 HidLim2 Hids2 Hcov2 Hh2
         Hwf13 Hpm Hcov13 Hh13 cells0 cells2 cells13.
  split; [|split].
  - split; [apply length_v0_hits|].
    rewrite dsci_v0_incr_all by done.
    apply incr_all_conserves; [done| |].
    + eapply Forall_impl; [by apply v0_hits_bounds|].
      simpl. unfold idLim_v0 in Hlen0. lia.
    + intros p. by apply v0_hits_tally.
  - split; [apply length_v2_hits|].
    rewrite dsci_v2_incr_all by done.
    apply incr_all_conserves; [done| |].
    + apply (hist_holds_bounds idLim2 ySection2); [lia|done|].
      by apply v2_hits_region.
    + intros p. by apply v2_hits_tally.
  - split; [apply length_v13_hits|].
    rewrite dsci_v13_incr_all by done.
    destruct (wf_v13_indices _ _ _ _ _ _ Hwf13) as [Hlen Hidx].
    destruct Hwf13 as (_ & _ & _ & _ & HidLim & _).
    apply incr_all_conserves; [done| |].
    + apply (hist_holds_bounds idLim13 ySection13); [lia|done|].
      by apply v13_hits_region.
    + intros p. by apply v13_hits_tally.
Qed.

Lemma histogram_conservation_witness :
  (∃ h', dsci_v0 Sample.h0 Sample.blocks0 Sample.metadata0 = Some h'
         ∧ length h' = length Sample.h0
         ∧ sumZ h' - sumZ Sample.h0 = 16 * 16 * 128)
  ∧ (∃ h', dsci_v2 Sample.h2 32 3 Sample.blocks2 Sample.add Sample.add
                   Sample.metadata2 = Some h'
           ∧ length h' = length Sample.h2
           ∧ sumZ h' - sumZ Sample.h2 = 4096)
  ∧ (∃ h', dsci_v13 Sample.h13 200 1 Sample.blockStates Sample.paletteMap
                    16 true Sample.stack = Some h'
           ∧ length h' = length Sample.h13
           ∧ sumZ h' - sumZ Sample.h13 = 4096).
Proof.
  destruct (histogram_conservation
              Sample.h0 Sample.blocks0 Sample.metadata0
              Sample.h2 32 3 Sample.blocks2 Sample.add Sample.add
              Sample.metadata2
              Sample.h13 200 1 Sample.blockStates Sample.paletteMap 16 true
              Sample.stack)
    as ((Hn0 & h0' & Hrun0 & Hlen0 & _ & _ & _ & Hsum0)
        & (Hn2 & h2' & Hrun2 & Hlen2 & _ & _ & _ & Hsum2)
        & (Hn13 & h13' & Hrun13 & Hlen13 & _ & _ & _ & Hsum13)).
  - exact sample_wf_v0.
  - unfold Sample.h0. rewrite length_zeros by lia. reflexivity.
  - apply Forall_replicate. lia.
  - exact sample_wf_v2.
  - lia.
  - exact sample_v2_ids.
  - split; [lia|]. unfold Sample.h2. rewrite length_zeros by lia. reflexivity.
  - apply Forall_replicate. lia.
  - exact (sample_wf_v13 true).
  - exact sample_palette.
  - split; [lia|]. unfold Sample.h13. rewrite length_zeros by lia. reflexivity.
  - apply Forall_replicate. lia.
  - split; [|split].
    + exists h0'. split; [exact Hrun0|]. split; [exact Hlen0|].
      rewrite <-Hn0. apply Hsum0, zeros_room. lia.
    + exists h2'. split; [exact Hrun2|]. split; [exact Hlen2|].
      rewrite <-Hn2. apply Hsum2, zeros_room. lia.
    + exists h13'. split; [exact Hrun13|]. split; [exact Hlen13|].
      rewrite <-Hn13. apply Hsum13, zeros_room. lia.
Defined.

(** C7, the claim as it is written, fails when a counter wraps: on a
    well-formed v2 input with every identifier 0 below [idLimit = 1] and a
    histogram of 16 counters of which the first is [2^64 - 256], [dsci_v2]
    leaves the first counter at 0 and the others at 256, and the sum of the
    differences is [4096 - 2^64], not 4096. *)
Lemma conservation_fails_on_wrap :
  wf_v2 (zeros 4096) (zeros 2048) (zeros 2048) (zeros 2048)
  ∧ Forall (λ id, id < 1)
      (v2_ids (zeros 4096) (zeros 2048) (zeros 2048) (zeros 2048))
  ∧ hist_holds 1 0 ((2 ^ 64 - 256) :: zeros 15)
  ∧ in_range 64 ((2 ^ 64 - 256) :: zeros 15)
  ∧ dsci_v2 ((2 ^ 64 - 256) :: zeros 15) 1 0
            (zeros 4096) (zeros 2048) (zeros 2048) (zeros 2048)
    = Some (0 :: replicate 15 256)
  ∧ sumZ (0 :: replicate 15 256) - sumZ ((2 ^ 64 - 256) :: zeros 15)
    = 4096 - 2 ^ 64
  ∧ sumZ (0 :: replicate 15 256) - sumZ ((2 ^ 64 - 256) :: zeros 15) ≠ 4096.
Proof.
  split; [exact zeros_wf_v2|]. split; [exact zeros_v2_ids|].
  split; [split; [lia|vm_compute; discriminate]|].
  split; [by_compute|].
  split; [exact zeros_v2_counter_wraps|].
  split; [vm_compute; reflexivity|].
  vm_compute. discriminate.
Qed.

(** C8.  For every width above 16 both unpackers return at once and leave
    the output buffer as it was, without signalling anything; for every
    width up to 16, given the words it reads, each of them overwrites all
    4096 values, so a width above 16 is the only one for which no output is
    produced. *)
Theorem unpack_width_ceiling (packed : list Z) (b : Z) (u0 : list Z)
    (packed' : list Z) (b' : Z) :
  16 < b →
  0 ≤ b' ≤ 16 →
  in_range 64 packed' →
  (1 ≤ length packed')%nat →
  64 * b' ≤ Z.of_nat (length packed') →
  b' = 0 ∨ CELLS ≤ 64 `div` b' * Z.of_nat (length packed') →
  (unpack_block_idxs_wc packed b u0 = Some u0
   ∧ unpack_block_idxs_nc packed b u0 = Some u0)
  ∧ (∃ vals,
       Z.of_nat (length vals) = 4096
       ∧ ∀ u, CELLS ≤ Z.of_nat (length u) →
           unpack_block_idxs_wc packed' b' u = Some (vals ++ drop 4096 u))
  ∧ (∃ vals,
       Z.of_nat (length vals) = 4096
       ∧ ∀ u, CELLS ≤ Z.of_nat (length u) →
           unpack_block_idxs_nc packed' b' u = Some (vals ++ drop 4096 u)).
Proof.
  intros Hb Hb' Hp Hp1 Hwc Hnc. pose proof CELLS_eq as HC.
  replace 4096%nat with (Z.to_nat CELLS) by (rewrite HC; reflexivity).
  split; [|split].
  - unfold unpack_block_idxs_wc, unpack_block_idxs_nc.
    by rewrite !decide_True by done.
  - exists (fields b' (wc_bits packed') CELLS).
    split; [rewrite length_fields; lia|].
    intros u Hu. by apply unpack_wc_total.
  - exists (nc_values b' packed').
    assert (CELLS ≤ Z.of_nat (length (replicate (Z.to_nat CELLS) 0))) as Hz
      by (rewrite length_replicate; lia).
    destruct (unpack_nc_total packed' b' _ Hb' Hp1 Hnc Hz) as [_ Hlen].
    split; [lia|].
    intros u Hu. by destruct (unpack_nc_total packed' b' u Hb' Hp1 Hnc Hu).
Qed.

Lemma unpack_width_ceiling_witness :
  (unpack_block_idxs_wc [1; 2; 3] 17 [4; 5; 6] = Some [4; 5; 6]
   ∧ unpack_block_idxs_nc [1; 2; 3] 17 [4; 5; 6] = Some [4; 5; 6])
  ∧ (∃ vals,
       Z.of_nat (length vals) = 4096
       ∧ ∀ u, CELLS ≤ Z.of_nat (length u) →
           unpack_block_idxs_wc SampleWords.words4 4 u
           = Some (vals ++ drop 4096 u))
  ∧ (∃ vals,
       Z.of_nat (length vals) = 4096
       ∧ ∀ u, CELLS ≤ Z.of_nat (length u) →
           unpack_block_idxs_nc SampleWords.words4 4 u
           = Some (vals ++ drop 4096 u)).
Proof.
  apply (unpack_width_ceiling [1; 2; 3] 17 [4; 5; 6] SampleWords.words4 4).
  - lia.
  - lia.
  - apply Forall_replicate. lia.
  - by_compute.
  - by_compute.
  - right. by_compute.
Defined.

(** C9, as the code has it.  For every decoder call whose inputs yield only
    identifiers below [idLimit], on a histogram that holds the region of
    the call, every entry outside that region is left unchanged: the
    region is the layers [0,128) with identifiers [0,4096) for [dsci_v0],
    and for [dsci_v2] and [dsci_v13] the 16 layers from [ySection*16]
    reduced modulo [2^32] (which is [ySection*16] whenever
    [ySection < 2^28]) with identifiers [0,idLimit).  Every entry whose
    counter is below [2^64 - 256], the most that one call adds to an entry,
    is greater than or equal to its value before the call; the histogram
    keeps its length. *)
Theorem decoders_frame
    (h0 blocks0 metadata0 : list Z)
    (h2 : list Z) (idLim2 ySection2 : Z) (blocks2 add add2 metadata2 : list Z)
    (h13 : list Z) (idLim13 ySection13 : Z) (blockStates paletteMap : list Z)
    (maxPaletteIdx : Z) (carry : bool) (stack : list Z) :
  wf_v0 blocks0 metadata0 →
  in_range 64 h0 →
  128 * idLim_v0 ≤ Z.of_nat (length h0) →
  wf_v2 blocks2 add add2 metadata2 →
  0 ≤ idLim2 < 2 ^ 32 →
  Forall (λ id, id < idLim2) (v2_ids blocks2 add add2 metadata2) →
  in_range 64 h2 →
  ((ySection2 * 16) `mod` 2 ^ 32 + 16) * idLim2 ≤ Z.of_nat (length h2) →
  wf_v13 idLim13 blockStates paletteMap maxPaletteIdx carry stack →
  Forall (λ id, 0 ≤ id < idLim13) paletteMap →
  in_range 64 h13 →
  ((ySection13 * 16) `mod` 2 ^ 32 + 16) * idLim13 ≤ Z.of_nat (length h13) →
  (∃ h', dsci_v0 h0 blocks0 metadata0 = Some h'
         ∧ frame_and_growth (λ p, 0 ≤ p < 128 * 4096) 256 h0 h')
  ∧ (∃ h', dsci_v2 h2 idLim2 ySection2 blocks2 add add2 metadata2 = Some h'
           ∧ frame_and_growth
               (in_layers idLim2 ((ySection2 * 16) `mod` 2 ^ 32)) 256 h2 h')
  ∧ (∃ h', dsci_v13 h13 idLim13 ySection13 blockStates paletteMap
                    maxPaletteIdx carry stack = Some h'
           ∧ frame_and_growth
               (in_layers idLim13 ((ySection13 * 16) `mod` 2 ^ 32)) 256
               h13 h')
  ∧ (0 ≤ ySection2 < 2 ^ 28 → (ySection2 * 16) `mod` 2 ^ 32 = ySection2 * 16).
Proof.
  intros Hwf0 Hh0 Hlen0 Hwf2 HidLim2 Hids2 Hh2 Hlen2
         Hwf13 Hpm Hh13 Hlen13.
  pose proof (u32_mul16_range ySection2) as Hy2.
  pose proof (u32_mul16_range ySection13) as Hy13.
  unfold u32, wrap in Hy2, Hy13.
  split; [|split; [|split]].
  - rewrite dsci_v0_incr_all by done.
    apply incr_all_frame_and_growth; [done|by apply v0_hits_bounds| |].
    + eapply Forall_impl; [by apply v0_hits_bounds|].
      simpl. unfold idLim_v0 in Hlen0. lia.
    + intros p. by apply v0_hits_tally.
  - rewrite dsci_v2_incr_all by done.
    apply incr_all_frame_and_growth; [done|by apply v2_hits_region| |].
    + eapply in_layers_bounds; [| |exact Hlen2|by apply v2_hits_region]; lia.
    + intros p. by apply v2_hits_tally.
  - rewrite dsci_v13_incr_all by done.
    destruct (wf_v13_indices _ _ _ _ _ _ Hwf13) as [Hlen Hidx].
    destruct Hwf13 as (_ & _ & _ & _ & HidLim & _).
    apply incr_all_frame_and_growth; [done|by apply v13_hits_region| |].
    + eapply in_layers_bounds; [| |exact Hlen13|by apply v13_hits_region];
        lia.
    + intros p. by apply v13_hits_tally.
  - intros Hy. apply Z.mod_small. lia.
Qed.

Lemma decoders_frame_witness :
  (∃ h', dsci_v0 Sample.h0 Sample.blocks0 Sample.metadata0 = Some h'
         ∧ frame_and_growth (λ p, 0 ≤ p < 128 * 4096) 256 Sample.h0 h')
  ∧ (∃ h', dsci_v2 Sample.h2 32 3 Sample.blocks2 Sample.add Sample.add
                   Sample.metadata2 = Some h'
           ∧ frame_and_growth (in_layers 32 ((3 * 16) `mod` 2 ^ 32)) 256
               Sample.h2 h')
  ∧ (∃ h', dsci_v13 Sample.h13 200 1 Sample.blockStates Sample.paletteMap
                    16 false Sample.stack = Some h'
           ∧ frame_and_growth (in_layers 200 ((1 * 16) `mod` 2 ^ 32)) 256
               Sample.h13 h')
  ∧ (0 ≤ 3 < 2 ^ 28 → (3 * 16) `mod` 2 ^ 32 = 3 * 16).
Proof.
  apply decoders_frame.
  - exact sample_wf_v0.
  - apply Forall_replicate. lia.
  - unfold Sample.h0. rewrite length_zeros by lia. reflexivity.
  - exact sample_wf_v2.
  - lia.
  - exact sample_v2_ids.
  - apply Forall_replicate. lia.
  - unfold Sample.h2. rewrite length_zeros by lia. reflexivity.
  - exact (sample_wf_v13 false).
  - exact sample_palette.
  - apply Forall_replicate. lia.
  - unfold Sample.h13. rewrite length_zeros by lia. reflexivity.
Defined.

(** C9, the claim as it is written, fails twice.  With [ySection = 2^28]
    the declared region is the layers from [2^32] on, and [dsci_v2] changes
    entry 0, which lies outside it.  With a counter at [2^64 - 256] inside
    the region, [dsci_v2] leaves it at 0, below its value before the call.
    In both calls every identifier is 0, below [idLimit = 1]. *)
Lemma frame_fails_on_wrap :
  Forall (λ id, id < 1)
    (v2_ids (zeros 4096) (zeros 2048) (zeros 2048) (zeros 2048))
  ∧ dsci_v2 (zeros 16) 1 (2 ^ 28)
            (zeros 4096) (zeros 2048) (zeros 2048) (zeros 2048)
    = Some (replicate 16 256)
  ∧ ¬ in_layers 1 (2 ^ 28 * 16) 0
  ∧ replicate 16 256 !! 0%nat ≠ zeros 16 !! 0%nat
  ∧ dsci_v2 ((2 ^ 64 - 256) :: zeros 15) 1 0
            (zeros 4096) (zeros 2048) (zeros 2048) (zeros 2048)
    = Some (0 :: replicate 15 256)
  ∧ in_layers 1 (0 * 16) 0
  ∧ 0 < 2 ^ 64 - 256.
Proof.
  split; [exact zeros_v2_ids|].
  split; [vm_compute; reflexivity|].
  split; [unfold in_layers; lia|].
  split; [vm_compute; discriminate|].
  split; [exact zeros_v2_counter_wraps|].
  split; [unfold in_layers; lia|lia].
Qed.

(** C10.  For every width in {4, 8, 16} and every word sequence the two
    unpackers give the same result, which is 4096 values written over the
    output as soon as the words suffice; so with such a width the two carry
    modes of [dsci_v13] do the same to the histogram on the same inputs. *)
Theorem unpack_carry_modes_agree (b : Z) (packed u0 : list Z)
    (h : list Z) (idLim ySection : Z) (paletteMap : list Z)
    (maxPaletteIdx : Z) :
  b = 4 ∨ b = 8 ∨ b = 16 →
  in_range 64 packed →
  unpack_block_idxs_wc packed b u0 = unpack_block_idxs_nc packed b u0
  ∧ (64 * b ≤ Z.of_nat (length packed) → CELLS ≤ Z.of_nat (length u0) →
     ∃ vals,
       Z.of_nat (length vals) = 4096
       ∧ unpack_block_idxs_wc packed b u0 = Some (vals ++ drop 4096 u0)
       ∧ unpack_block_idxs_nc packed b u0 = Some (vals ++ drop 4096 u0))
  ∧ (compute_idxBits maxPaletteIdx = Some b →
     dsci_v13 h idLim ySection packed paletteMap maxPaletteIdx true u0
     = dsci_v13 h idLim ySection packed paletteMap maxPaletteIdx false u0).
Proof.
  intros Hb Hp. pose proof CELLS_eq as HC.
  assert (1 ≤ b ≤ 16 ∧ 32 `mod` b = 0) as [Hb16 Hdiv]
    by (destruct Hb as [-> | [-> | ->]]; (split; [lia|reflexivity])).
  pose proof (unpack_wc_nc_aligned b packed u0 Hb16 Hdiv Hp) as Heq.
  split; [done|]. split.
  - intros Hlen Hu0. exists (fields b (wc_bits packed) CELLS).
    replace 4096%nat with (Z.to_nat CELLS) by (rewrite HC; reflexivity).
    split; [rewrite length_fields; lia|].
    rewrite <-Heq. split; by apply unpack_wc_spec.
  - intros Hw. unfold dsci_v13. rewrite Hw, !bind_Some_l.
    by rewrite (unpack_wc_nc_aligned b packed u0).
Qed.

Lemma unpack_carry_modes_agree_witness :
  unpack_block_idxs_wc SampleWords.words4 4 (zeros 4096)
  = unpack_block_idxs_nc SampleWords.words4 4 (zeros 4096)
  ∧ (64 * 4 ≤ Z.of_nat (length SampleWords.words4) →
     CELLS ≤ Z.of_nat (length (zeros 4096)) →
     ∃ vals,
       Z.of_nat (length vals) = 4096
       ∧ unpack_block_idxs_wc SampleWords.words4 4 (zeros 4096)
         = Some (vals ++ drop 4096 (zeros 4096))
       ∧ unpack_block_idxs_nc SampleWords.words4 4 (zeros 4096)
         = Some (vals ++ drop 4096 (zeros 4096)))
  ∧ (compute_idxBits 15 = Some 4 →
     dsci_v13 (zeros 3200) 200 0 SampleWords.words4 (seqZ 100 16) 15 true
              (zeros 4096)
     = dsci_v13 (zeros 3200) 200 0 SampleWords.words4 (seqZ 100 16) 15 false
                (zeros 4096)).
Proof.
  apply (unpack_carry_modes_agree 4 SampleWords.words4 (zeros 4096)
           (zeros 3200) 200 0 (seqZ 100 16) 15).
  - by left.
  - apply Forall_replicate. lia.
Defined.

(** * The further theorems *)

(** X1.  A decoder call on well-formed arrays is defined exactly when the
    histogram index of every cell lies inside the histogram: the decoders
    never test an index against the size of [blockCount], and a call that
    is defined leaves the histogram at its length. *)
Theorem decoders_defined_iff_inside
    (h0 blocks0 metadata0 : list Z)
    (h2 : list Z) (idLim2 ySection2 : Z) (blocks2 add add2 metadata2 : list Z)
    (h13 : list Z) (idLim13 ySection13 : Z) (blockStates paletteMap : list Z)
    (maxPaletteIdx : Z) (carry : bool) (stack : list Z) :
  wf_v0 blocks0 metadata0 →
  wf_v2 blocks2 add add2 metadata2 →
  0 ≤ idLim2 < 2 ^ 32 →
  wf_v13 idLim13 blockStates paletteMap maxPaletteIdx carry stack →
  let inside (h : list Z) := Forall (λ t, 0 ≤ t < Z.of_nat (length h)) in
  ((is_Some (dsci_v0 h0 blocks0 metadata0)
    ↔ inside h0 (v0_hits blocks0 metadata0))
   ∧ ∀ h', dsci_v0 h0 blocks0 metadata0 = Some h' → length h' = length h0)
  ∧ ((is_Some (dsci_v2 h2 idLim2 ySection2 blocks2 add add2 metadata2)
      ↔ inside h2 (v2_hits idLim2 ySection2 blocks2 add add2 metadata2))
     ∧ ∀ h', dsci_v2 h2 idLim2 ySection2 blocks2 add add2 metadata2 = Some h' →
             length h' = length h2)
  ∧ ((is_Some (dsci_v13 h13 idLim13 ySection13 blockStates paletteMap
                        maxPaletteIdx carry stack)
      ↔ inside h13
          (v13_hits idLim13 ySection13 paletteMap
             (v13_indices carry (idx_width maxPaletteIdx) blockStates)))
     ∧ ∀ h', dsci_v13 h13 idLim13 ySection13 blockStates paletteMap
                      maxPaletteIdx carry stack = Some h' →
             length h' = length h13).
Proof.
  intros Hwf0 Hwf2 HidLim2 Hwf13 inside.
  rewrite dsci_v0_incr_all, dsci_v2_incr_all, dsci_v13_incr_all by done.
  repeat split; try apply incr_all_is_Some; apply incr_all_length.
Qed.

Lemma decoders_defined_iff_inside_witness :
  let inside (h : list Z) := Forall (λ t, 0 ≤ t < Z.of_nat (length h)) in
  (is_Some (dsci_v0 Sample.h0 Sample.blocks0 Sample.metadata0)
   ↔ inside Sample.h0 (v0_hits Sample.blocks0 Sample.metadata0))
  ∧ (is_Some (dsci_v2 Sample.h2 32 3 Sample.blocks2 Sample.add Sample.add
                      Sample.metadata2)
     ↔ inside Sample.h2
         (v2_hits 32 3 Sample.blocks2 Sample.add Sample.add Sample.metadata2))
  ∧ (is_Some (dsci_v13 Sample.h13 200 1 Sample.blockStates Sample.paletteMap
                       16 true Sample.stack)
     ↔ inside Sample.h13
         (v13_hits 200 1 Sample.paletteMap
            (v13_indices true (idx_width 16) Sample.blockStates))).
Proof.
  destruct (decoders_defined_iff_inside
              Sample.h0 Sample.blocks0 Sample.metadata0
              Sample.h2 32 3 Sample.blocks2 Sample.add Sample.add
              Sample.metadata2
              Sample.h13 200 1 Sample.blockStates Sample.paletteMap 16 true
              Sample.stack)
    as ((H0 & _) & (H2 & _) & (H13 & _)).
  - exact sample_wf_v0.
  - exact sample_wf_v2.
  - lia.
  - exact (sample_wf_v13 true).
  - exact (conj H0 (conj H2 H13)).
Defined.

(** X2.  Two decoder calls on the same histogram can be made in either
    order: the histogram they leave, and whether they are defined, is the
    same.  This holds for two legacy chunks, for two v2 sections, for two
    v13 sections, and for a v2 section with a v13 section. *)
Theorem decoder_calls_commute (h : list Z)
    (blocks0 metadata0 blocks0' metadata0' : list Z)
    (idLim2 ySection2 : Z) (blocks2 add add2 metadata2 : list Z)
    (idLim2' ySection2' : Z) (blocks2' add' add2' metadata2' : list Z)
    (idLim13 ySection13 : Z) (blockStates paletteMap : list Z)
    (maxPaletteIdx : Z) (carry : bool) (stack : list Z)
    (idLim13' ySection13' : Z) (blockStates' paletteMap' : list Z)
    (maxPaletteIdx' : Z) (carry' : bool) (stack' : list Z) :
  wf_v0 blocks0 metadata0 →
  wf_v0 blocks0' metadata0' →
  wf_v2 blocks2 add add2 metadata2 →
  0 ≤ idLim2 < 2 ^ 32 →
  wf_v2 blocks2' add' add2' metadata2' →
  0 ≤ idLim2' < 2 ^ 32 →
  wf_v13 idLim13 blockStates paletteMap maxPaletteIdx carry stack →
  wf_v13 idLim13' blockStates' paletteMap' maxPaletteIdx' carry' stack' →
  (dsci_v0 h blocks0 metadata0 ≫= (λ h1, dsci_v0 h1 blocks0' metadata0')
   = dsci_v0 h blocks0' metadata0' ≫= (λ h1, dsci_v0 h1 blocks0 metadata0))
  ∧ (dsci_v2 h idLim2 ySection2 blocks2 add add2 metadata2
       ≫= (λ h1, dsci_v2 h1 idLim2' ySection2' blocks2' add' add2' metadata2')
     = dsci_v2 h idLim2' ySection2' blocks2' add' add2' metadata2'
         ≫= (λ h1, dsci_v2 h1 idLim2 ySection2 blocks2 add add2 metadata2))
  ∧ (dsci_v13 h idLim13 ySection13 blockStates paletteMap maxPaletteIdx
              carry stack
       ≫= (λ h1, dsci_v13 h1 idLim13' ySection13' blockStates' paletteMap'
                          maxPaletteIdx' carry' stack')
     = dsci_v13 h idLim13' ySection13' blockStates' paletteMap'
                maxPaletteIdx' carry' stack'
         ≫= (λ h1, dsci_v13 h1 idLim13 ySection13 blockStates paletteMap
                            maxPaletteIdx carry stack))
  ∧ (dsci_v2 h idLim2 ySection2 blocks2 add add2 metadata2
       ≫= (λ h1, dsci_v13 h1 idLim13 ySection13 blockStates paletteMap
                          maxPaletteIdx carry stack)
     = dsci_v13 h idLim13 ySection13 blockStates paletteMap maxPaletteIdx
                carry stack
         ≫= (λ h1, dsci_v2 h1 idLim2 ySection2 blocks2 add add2 metadata2)).
Proof.
  intros Hwf0 Hwf0' Hwf2 HidLim2 Hwf2' HidLim2' Hwf13 Hwf13'.
  assert (∀ (f g : list Z → option (list Z)) T1 T2,
            (∀ h1, f h1 = incr_all T1 h1) → (∀ h1, g h1 = incr_all T2 h1) →
            f h ≫= g = g h ≫= f) as Hswap.
  { intros f g T1 T2 Hf Hg.
    trans (incr_all T1 h ≫= incr_all T2).
    { rewrite Hf. destruct (incr_all T1 h); simpl; [apply Hg|done]. }
    rewrite incr_all_swap, Hg.
    destruct (incr_all T2 h); simpl; [by rewrite Hf|done]. }
  split; [|split; [|split]].
  - apply (Hswap (λ h1, dsci_v0 h1 blocks0 metadata0)
                 (λ h1, dsci_v0 h1 blocks0' metadata0')
                 (v0_hits blocks0 metadata0) (v0_hits blocks0' metadata0'));
      intros h1; by apply dsci_v0_incr_all.
  - apply (Hswap (λ h1, dsci_v2 h1 idLim2 ySection2 blocks2 add add2 metadata2)
                 (λ h1, dsci_v2 h1 idLim2' ySection2' blocks2' add' add2'
                                metadata2')
                 (v2_hits idLim2 ySection2 blocks2 add add2 metadata2)
                 (v2_hits idLim2' ySection2' blocks2' add' add2' metadata2'));
      intros h1; by apply dsci_v2_incr_all.
  - apply (Hswap (λ h1, dsci_v13 h1 idLim13 ySection13 blockStates paletteMap
                                 maxPaletteIdx carry stack)
                 (λ h1, dsci_v13 h1 idLim13' ySection13' blockStates'
                                 paletteMap' maxPaletteIdx' carry' stack')
                 (v13_hits idLim13 ySection13 paletteMap
                    (v13_indices carry (idx_width maxPaletteIdx) blockStates))
                 (v13_hits idLim13' ySection13' paletteMap'
                    (v13_indices carry' (idx_width maxPaletteIdx')
                       blockStates')));
      intros h1; by apply dsci_v13_incr_all.
  - apply (Hswap (λ h1, dsci_v2 h1 idLim2 ySection2 blocks2 add add2 metadata2)
                 (λ h1, dsci_v13 h1 idLim13 ySection13 blockStates paletteMap
                                 maxPaletteIdx carry stack)
                 (v2_hits idLim2 ySection2 blocks2 add add2 metadata2)
                 (v13_hits idLim13 ySection13 paletteMap
                    (v13_indices carry (idx_width maxPaletteIdx) blockStates)));
      intros h1; first [by apply dsci_v2_incr_all|by apply dsci_v13_incr_all].
Qed.

Lemma decoder_calls_commute_witness :
  dsci_v2 Sample.h13 32 3 Sample.blocks2 Sample.add Sample.add Sample.metadata2
    ≫= (λ h1, dsci_v13 h1 200 1 Sample.blockStates Sample.paletteMap 16 true
                       Sample.stack)
  = dsci_v13 Sample.h13 200 1 Sample.blockStates Sample.paletteMap 16 true
             Sample.stack
      ≫= (λ h1, dsci_v2 h1 32 3 Sample.blocks2 Sample.add Sample.add
                        Sample.metadata2).
Proof.
  apply (decoder_calls_commute Sample.h13
           Sample.blocks0 Sample.metadata0 Sample.blocks0 Sample.metadata0
           32 3 Sample.blocks2 Sample.add Sample.add Sample.metadata2
           32 4 Sample.blocks2 Sample.add Sample.add Sample.metadata2
           200 1 Sample.blockStates Sample.paletteMap 16 true Sample.stack
           200 2 Sample.blockStates Sample.paletteMap 16 false Sample.stack).
  - exact sample_wf_v0.
  - exact sample_wf_v0.
  - exact sample_wf_v2.
  - lia.
  - exact sample_wf_v2.
  - lia.
  - exact (sample_wf_v13 true).
  - exact (sample_wf_v13 false).
Defined.

(** X3.  For [maxPaletteIdx] from [2^31] to [2^32 - 2] the width search of
    [dsci_v13] has no result: every width up to 31 is too small, and the
    next test shifts [1u] by 32, which is undefined.  No number of turns
    changes that, and [dsci_v13] is undefined on every input with such a
    [maxPaletteIdx]. *)
Theorem width_search_undefined (maxPaletteIdx : Z) (h : list Z)
    (idLim ySection : Z) (blockStates paletteMap : list Z) (carry : bool)
    (stack : list Z) :
  2 ^ 31 ≤ maxPaletteIdx < 2 ^ 32 - 1 →
  (∀ fuel, idxBits_loop fuel 4 maxPaletteIdx = None)
  ∧ compute_idxBits maxPaletteIdx = None
  ∧ dsci_v13 h idLim ySection blockStates paletteMap maxPaletteIdx carry stack
    = None.
Proof.
  intros Hm.
  assert (∀ fuel, idxBits_loop fuel 4 maxPaletteIdx = None) as Hloop.
  { intros fuel. apply idxBits_loop_undefined; [done|lia]. }
  split; [done|]. split; [apply Hloop|].
  unfold dsci_v13, compute_idxBits. by rewrite Hloop.
Qed.

Lemma width_search_undefined_witness :
  compute_idxBits (2 ^ 31) = None
  ∧ dsci_v13 Sample.h13 200 1 Sample.blockStates Sample.paletteMap (2 ^ 31)
             true Sample.stack = None.
Proof.
  destruct (width_search_undefined (2 ^ 31) Sample.h13 200 1
              Sample.blockStates Sample.paletteMap true Sample.stack)
    as (_ & Hw & Hd); [lia|].
  exact (conj Hw Hd).
Defined.

(** X4.  With a palette of up to [2^16] entries and the words the unpacker
    reads, the result of [dsci_v13] does not depend on what its local array
    [paletteIdxs] holds on entry: the unpacker overwrites all of its 4096
    elements before the counting loops read them. *)
Theorem dsci_v13_ignores_stack (h : list Z) (idLim ySection : Z)
    (blockStates paletteMap : list Z) (maxPaletteIdx : Z) (carry : bool)
    (stack stack' : list Z) :
  0 ≤ maxPaletteIdx →
  maxPaletteIdx + 1 ≤ 2 ^ 16 →
  in_range 64 blockStates →
  enough_words carry (idx_width maxPaletteIdx) blockStates →
  Z.of_nat (length stack) = 4096 →
  Z.of_nat (length stack') = 4096 →
  dsci_v13 h idLim ySection blockStates paletteMap maxPaletteIdx carry stack
  = dsci_v13 h idLim ySection blockStates paletteMap maxPaletteIdx carry
             stack'.
Proof.
  intros Hm Hm16 Hbs Hw Hs Hs'. rewrite <-CELLS_eq in Hs, Hs'.
  by rewrite !dsci_v13_unpacked by done.
Qed.

Lemma dsci_v13_ignores_stack_witness :
  dsci_v13 Sample.h13 200 1 Sample.blockStates Sample.paletteMap 16 false
           (zeros 4096)
  = dsci_v13 Sample.h13 200 1 Sample.blockStates Sample.paletteMap 16 false
             (replicate (Z.to_nat 4096) 65535).
Proof.
  apply dsci_v13_ignores_stack.
  - lia.
  - lia.
  - apply Forall_replicate. lia.
  - unfold enough_words. by_compute.
  - apply length_zeros. lia.
  - rewrite length_replicate. lia.
Defined.

(** X5.  With [maxPaletteIdx] from [2^16] up (and below [2^31]) the width
    is above 16, both unpackers return without writing, and [dsci_v13]
    counts [paletteMap[paletteIdxs[idx]]] for what its local array happens
    to hold: the block states and the carry mode have no effect on the
    result. *)
Theorem dsci_v13_wide_palette (h : list Z) (idLim ySection : Z)
    (blockStates paletteMap : list Z) (maxPaletteIdx : Z) (carry : bool)
    (stack : list Z) :
  2 ^ 16 ≤ maxPaletteIdx < 2 ^ 31 →
  (∃ idxBits, compute_idxBits maxPaletteIdx = Some idxBits ∧ 16 < idxBits)
  ∧ dsci_v13 h idLim ySection blockStates paletteMap maxPaletteIdx carry stack
    = for_each (seqZ 0 16) (λ y,
        for_each (seqZ 0 (16 * 16)) (λ zx,
          dsci_v13_body idLim ySection paletteMap stack y zx)) h
  ∧ ∀ blockStates' carry',
      dsci_v13 h idLim ySection blockStates' paletteMap maxPaletteIdx carry'
               stack
      = dsci_v13 h idLim ySection blockStates paletteMap maxPaletteIdx carry
                 stack.
Proof.
  intros Hm. pose proof (idx_width_wide maxPaletteIdx ltac:(lia)) as Hw.
  assert (∀ bs c,
            dsci_v13 h idLim ySection bs paletteMap maxPaletteIdx c stack
            = for_each (seqZ 0 16) (λ y,
                for_each (seqZ 0 (16 * 16)) (λ zx,
                  dsci_v13_body idLim ySection paletteMap stack y zx)) h)
    as Heq.
  { intros bs c. unfold dsci_v13.
    rewrite compute_idxBits_width, bind_Some_l by lia.
    unfold unpack_block_idxs_wc, unpack_block_idxs_nc.
    rewrite !decide_True by done. by destruct c. }
  split; [|split].
  - exists (idx_width maxPaletteIdx).
    split; [apply compute_idxBits_width; lia|done].
  - apply Heq.
  - intros bs' c'. by rewrite !Heq.
Qed.

Lemma dsci_v13_wide_palette_witness :
  dsci_v13 (zeros 16) 1 0 [1; 2; 3] [0] 65536 true (zeros 4096)
  = dsci_v13 (zeros 16) 1 0 [] [0] 65536 false (zeros 4096).
Proof.
  destruct (dsci_v13_wide_palette (zeros 16) 1 0 [] [0] 65536 false
              (zeros 4096)) as (_ & _ & H); [lia|].
  exact (H [1; 2; 3] true).
Defined.

(** X6.  [dsci_v13] does not compare a palette index with the size of the
    palette: when one of the 4096 unpacked indices is not an index of
    [paletteMap], the read [paletteMap[paletteIdxs[idx]]] is outside the
    array and the call is undefined. *)
Theorem dsci_v13_index_outside_palette (h : list Z) (idLim ySection : Z)
    (blockStates paletteMap : list Z) (maxPaletteIdx : Z) (carry : bool)
    (stack : list Z) (idxBits : Z) (idxs : list Z) (k i : Z) :
  compute_idxBits maxPaletteIdx = Some idxBits →
  (if carry then unpack_block_idxs_wc blockStates idxBits stack
   else unpack_block_idxs_nc blockStates idxBits stack) = Some idxs →
  0 ≤ k < 4096 →
  idxs !! Z.to_nat k = Some i →
  Z.of_nat (length paletteMap) ≤ i →
  dsci_v13 h idLim ySection blockStates paletteMap maxPaletteIdx carry stack
  = None.
Proof.
  intros Hb Hu Hk Hi Hout. unfold dsci_v13.
  rewrite Hb, bind_Some_l, Hu, bind_Some_l.
  apply (v13_loops_outside _ _ _ _ _ k); [done|].
  intros i' Hi'. by simplify_eq.
Qed.

Lemma dsci_v13_index_outside_palette_witness :
  dsci_v13 Sample.h13 200 1 Sample.blockStates [100] 16 true Sample.stack
  = None.
Proof.
  apply (dsci_v13_index_outside_palette _ _ _ _ _ _ _ _ 5
           (v13_indices true 5 Sample.blockStates) 0 1).
  - reflexivity.
  - apply (v13_unpack true); [lia| |unfold enough_words; by_compute|].
    + apply Forall_replicate. lia.
    + rewrite CELLS_eq. apply length_zeros. lia.
  - lia.
  - vm_compute. reflexivity.
  - simpl. lia.
Defined.

(** X7.  Every index that the unpackers hand to [dsci_v13] is below
    [2^idxBits], whatever the block states hold; so when [paletteMap] has
    [2^idxBits] entries or more, with identifiers below [idLimit], the call
    is defined on every content of the block states. *)
Theorem dsci_v13_reads_below_width (h : list Z) (idLim ySection : Z)
    (blockStates paletteMap : list Z) (maxPaletteIdx : Z) (carry : bool)
    (stack : list Z) :
  0 ≤ maxPaletteIdx →
  maxPaletteIdx + 1 ≤ 2 ^ 16 →
  in_range 64 blockStates →
  enough_words carry (idx_width maxPaletteIdx) blockStates →
  Z.of_nat (length stack) = 4096 →
  ∃ idxBits idxs,
    compute_idxBits maxPaletteIdx = Some idxBits
    ∧ (if carry then unpack_block_idxs_wc blockStates idxBits stack
       else unpack_block_idxs_nc blockStates idxBits stack) = Some idxs
    ∧ Z.of_nat (length idxs) = 4096
    ∧ Forall (λ i, 0 ≤ i < 2 ^ idxBits) idxs
    ∧ (2 ^ idxBits ≤ Z.of_nat (length paletteMap) →
       Forall (λ id, 0 ≤ id < idLim) paletteMap →
       idLim < 2 ^ 32 →
       hist_holds idLim ySection h →
       ∃ h', dsci_v13 h idLim ySection blockStates paletteMap maxPaletteIdx
                      carry stack = Some h'
             ∧ length h' = length h).
Proof.
  intros Hm Hm16 Hbs Hw Hs. rewrite <-CELLS_eq in Hs.
  pose proof (idx_width_16 maxPaletteIdx Hm Hm16) as Hb.
  set (b := idx_width maxPaletteIdx) in *.
  pose proof (v13_indices_range carry b blockStates ltac:(lia)) as Hr.
  assert (Z.of_nat (length (v13_indices carry b blockStates)) = 4096) as Hlen.
  { rewrite length_v13_indices by (done || lia). rewrite CELLS_eq. lia. }
  exists b, (v13_indices carry b blockStates).
  split; [apply compute_idxBits_width; lia|].
  split; [apply v13_unpack; (done || lia)|].
  split; [done|]. split; [done|].
  intros Hpm Hids HidLim Hh.
  assert (Forall (λ i, 0 ≤ i < Z.of_nat (length paletteMap))
            (v13_indices carry b blockStates)) as Hin.
  { eapply Forall_impl; [exact Hr|]. simpl. lia. }
  assert (0 ≤ idLim).
  { destruct paletteMap as [|id pm].
    - simpl in Hpm. assert (0 < 2 ^ b) by (apply Z.pow_pos_nonneg; lia). lia.
    - apply Forall_cons in Hids as [? _]. lia. }
  assert (in_range 32 paletteMap).
  { eapply Forall_impl; [exact Hids|]. simpl. lia. }
  rewrite dsci_v13_unpacked by done. fold b.
  rewrite v13_loops_incr_all by (done || lia).
  assert (is_Some (incr_all (v13_hits idLim ySection paletteMap
                               (v13_indices carry b blockStates)) h))
    as [h' Hh'].
  { apply incr_all_is_Some.
    apply (hist_holds_bounds idLim ySection); [done|done|].
    by apply v13_hits_region. }
  exists h'. split; [done|]. by apply incr_all_length in Hh'.
Qed.

Lemma dsci_v13_reads_below_width_witness :
  ∃ h', dsci_v13 (zeros 3200) 200 0 SampleWords.words4 (seqZ 100 16) 15 true
                 (zeros 4096) = Some h'
        ∧ length h' = length (zeros 3200).
Proof.
  destruct (dsci_v13_reads_below_width (zeros 3200) 200 0 SampleWords.words4
              (seqZ 100 16) 15 true (zeros 4096))
    as (b & idxs & Hb & _ & _ & _ & H).
  - lia.
  - lia.
  - apply Forall_replicate. lia.
  - unfold enough_words. by_compute.
  - apply length_zeros. lia.
  - assert (b = 4) as -> by (vm_compute in Hb; congruence).
    apply H.
    + vm_compute. discriminate.
    + by_compute.
    + lia.
    + split; [lia|]. rewrite length_zeros by lia. lia.
Defined.

(** X8.  [dsci_v2] on a well-formed section whose identifiers are below
    [idLimit], with a section index below [2^28] whose 16 layers the
    histogram holds: the call returns the histogram in which every entry
    has grown, as a 64-bit counter, by the number of the 4096 cells whose
    [(ySection*16 + y_local)*idLimit + identifier] names it. *)
Theorem dsci_v2_counts_each_cell (h : list Z) (idLim ySection : Z)
    (blocks add add2 metadata : list Z) :
  wf_v2 blocks add add2 metadata →
  0 ≤ idLim < 2 ^ 32 →
  Forall (λ id, id < idLim) (v2_ids blocks add add2 metadata) →
  hist_covers idLim ySection h →
  in_range 64 h →
  let cells :=
    seqZ 0 16 ≫= λ y_local, seqZ 0 128 ≫= λ zx,
      let idx := zx + y_local * 128 in
      let layer := ySection * 16 + y_local in
      [ layer * idLim
        + concat_id (low_nibble (get add2 idx)) (low_nibble (get add idx))
                    (get blocks (idx * 2 + 0)) (low_nibble (get metadata idx));
        layer * idLim
        + concat_id (high_nibble (get add2 idx)) (high_nibble (get add idx))
                    (get blocks (idx * 2 + 1))
                    (high_nibble (get metadata idx)) ] in
  Z.of_nat (length cells) = 4096
  ∧ ∃ h', dsci_v2 h idLim ySection blocks add add2 metadata = Some h'
          ∧ length h' = length h
          ∧ ∀ (p : nat) c, h !! p = Some c →
              h' !! p = Some (u64 (c + tally cells p)).
Proof.
  intros Hwf HidLim Hids Hcov Hh cells.
  pose proof Hcov as (Hy & Hy0 & _).
  assert (v2_hits idLim ySection blocks add add2 metadata = cells) as Hcells
    by (apply v2_hits_cells; lia).
  rewrite <-Hcells. split; [apply length_v2_hits|].
  exists (add_counts (v2_hits idLim ySection blocks add add2 metadata) h).
  rewrite dsci_v2_incr_all by done.
  split; [|split].
  - apply incr_all_add_counts; [done|].
    apply (hist_covers_bounds idLim ySection); [lia|done|].
    by apply v2_hits_region.
  - apply length_add_counts.
  - intros p c Hc. by rewrite lookup_add_counts, Hc.
Qed.

Lemma dsci_v2_counts_each_cell_witness :
  ∃ h', dsci_v2 Sample.h2 32 3 Sample.blocks2 Sample.add Sample.add
                Sample.metadata2 = Some h'
        ∧ length h' = length Sample.h2.
Proof.
  destruct (dsci_v2_counts_each_cell Sample.h2 32 3 Sample.blocks2 Sample.add
              Sample.add Sample.metadata2)
    as (_ & h' & Hrun & Hlen & _).
  - exact sample_wf_v2.
  - lia.
  - exact sample_v2_ids.
  - split; [lia|]. split; [lia|].
    unfold Sample.h2. rewrite length_zeros by lia. reflexivity.
  - apply Forall_replicate. lia.
  - exists h'. exact (conj Hrun Hlen).
Defined.

(** X9.  The identifiers of a v2 section have 20 bits, whatever the bytes
    of the four arrays are; so with [idLimit] from [2^20] up, [dsci_v2] is
    defined on every content of the arrays, given a histogram that holds
    the 16 layers of the section. *)
Theorem dsci_v2_identifiers_20_bits (h : list Z) (idLim ySection : Z)
    (blocks add add2 metadata : list Z) :
  wf_v2 blocks add add2 metadata →
  Forall (λ id, 0 ≤ id < 2 ^ 20) (v2_ids blocks add add2 metadata)
  ∧ (2 ^ 20 ≤ idLim < 2 ^ 32 →
     hist_holds idLim ySection h →
     ∃ h', dsci_v2 h idLim ySection blocks add add2 metadata = Some h'
           ∧ length h' = length h).
Proof.
  intros Hwf. pose proof (v2_ids_range _ _ _ _ Hwf) as Hr.
  split; [done|]. intros HidLim Hh.
  rewrite dsci_v2_incr_all by (done || lia).
  assert (is_Some (incr_all (v2_hits idLim ySection blocks add add2 metadata)
                     h)) as [h' Hh'].
  { apply incr_all_is_Some.
    apply (hist_holds_bounds idLim ySection); [lia|done|].
    apply v2_hits_region; [done|].
    eapply Forall_impl; [exact Hr|]. simpl. lia. }
  exists h'. split; [done|]. by apply incr_all_length in Hh'.
Qed.

Lemma dsci_v2_identifiers_20_bits_witness :
  Forall (λ id, 0 ≤ id < 2 ^ 20)
    (v2_ids Sample.blocks2 Sample.add Sample.add Sample.metadata2).
Proof.
  exact (proj1 (dsci_v2_identifiers_20_bits [] 0 0 Sample.blocks2 Sample.add
                  Sample.add Sample.metadata2 sample_wf_v2)).
Defined.

(** X10.  [dsci_v2] and [dsci_v13] do not compare an identifier with
    [idLimit] (the test is commented out), and count an identifier at or
    above the limit as well: a cell of local layer [y] with the identifier
    [id] is counted in the entry of the identifier [id mod idLimit],
    [id / idLimit] layers above its own.  When the histogram holds these
    entries the call returns it with every entry grown, as a 64-bit
    counter, by the number of the cells that fall on it. *)
Theorem identifiers_above_limit_are_counted
    (h2 h13 : list Z) (idLim ySection : Z) (blocks add add2 metadata : list Z)
    (blockStates paletteMap : list Z) (maxPaletteIdx : Z) (carry : bool)
    (stack : list Z) :
  0 < idLim < 2 ^ 32 →
  wf_v2 blocks add add2 metadata →
  wf_v13 idLim blockStates paletteMap maxPaletteIdx carry stack →
  in_range 64 h2 →
  in_range 64 h13 →
  let entry y id :=
    ((ySection * 16) `mod` 2 ^ 32 + y + id `div` idLim) * idLim
    + id `mod` idLim in
  let cells2 :=
    seqZ 0 16 ≫= λ y, seqZ 0 128 ≫= λ zx,
      let idx := zx + y * 128 in
      [ entry y (concat_id (low_nibble (get add2 idx))
                           (low_nibble (get add idx))
                           (get blocks (idx * 2 + 0))
                           (low_nibble (get metadata idx)));
        entry y (concat_id (high_nibble (get add2 idx))
                           (high_nibble (get add idx))
                           (get blocks (idx * 2 + 1))
                           (high_nibble (get metadata idx))) ] in
  let cells13 :=
    seqZ 0 16 ≫= λ y, seqZ 0 256 ≫= λ zx,
      [ entry y
          (get paletteMap
             (get (v13_indices carry (idx_width maxPaletteIdx) blockStates)
                  (zx + y * 256))) ] in
  dsci_v2 h2 idLim ySection blocks add add2 metadata = incr_all cells2 h2
  ∧ dsci_v13 h13 idLim ySection blockStates paletteMap maxPaletteIdx carry
             stack
    = incr_all cells13 h13
  ∧ (Forall (λ t, 0 ≤ t < Z.of_nat (length h2)) cells2 →
     ∃ h', dsci_v2 h2 idLim ySection blocks add add2 metadata = Some h'
           ∧ length h' = length h2
           ∧ ∀ (p : nat) c, h2 !! p = Some c →
               h' !! p = Some (u64 (c + tally cells2 p)))
  ∧ (Forall (λ t, 0 ≤ t < Z.of_nat (length h13)) cells13 →
     ∃ h', dsci_v13 h13 idLim ySection blockStates paletteMap maxPaletteIdx
                    carry stack = Some h'
           ∧ length h' = length h13
           ∧ ∀ (p : nat) c, h13 !! p = Some c →
               h' !! p = Some (u64 (c + tally cells13 p))).
Proof.
  intros HidLim Hwf2 Hwf13 Hh2 Hh13 entry cells2 cells13.
  assert (v2_hits idLim ySection blocks add add2 metadata = cells2) as Hc2.
  { unfold v2_hits, cells2. apply bind_ext_in. intros y Hy.
    apply elem_of_seqZ in Hy. apply bind_ext_in. intros zx _.
    unfold v2_pair, entry. rewrite layer_coord_eq by lia.
    unfold u32, wrap. cbv zeta. by rewrite !spill_index by lia. }
  assert (v13_hits idLim ySection paletteMap
            (v13_indices carry (idx_width maxPaletteIdx) blockStates)
          = cells13) as Hc13.
  { unfold v13_hits, cells13. apply bind_ext_in. intros y Hy.
    apply elem_of_seqZ in Hy. apply bind_ext_in. intros zx _.
    unfold entry. rewrite layer_coord_eq by lia.
    unfold u32, wrap. by rewrite spill_index by lia. }
  assert (dsci_v2 h2 idLim ySection blocks add add2 metadata
          = incr_all cells2 h2) as Hrun2.
  { rewrite dsci_v2_incr_all by (done || lia).
    exact (f_equal (λ targets, incr_all targets h2) Hc2). }
  assert (dsci_v13 h13 idLim ySection blockStates paletteMap maxPaletteIdx
                   carry stack = incr_all cells13 h13) as Hrun13.
  { rewrite dsci_v13_incr_all by done.
    exact (f_equal (λ targets, incr_all targets h13) Hc13). }
  split; [exact Hrun2|]. split; [exact Hrun13|]. split.
  - intros Hin. exists (add_counts cells2 h2).
    split; [rewrite Hrun2; by apply incr_all_add_counts|].
    split; [apply length_add_counts|].
    intros p c Hc. by rewrite lookup_add_counts, Hc.
  - intros Hin. exists (add_counts cells13 h13).
    split; [rewrite Hrun13; by apply incr_all_add_counts|].
    split; [apply length_add_counts|].
    intros p c Hc. by rewrite lookup_add_counts, Hc.
Qed.

Lemma identifiers_above_limit_are_counted_witness :
  dsci_v2 (zeros 400) 10 1 Sample.blocks2 Sample.add Sample.add
          Sample.metadata2
  = incr_all
      (seqZ 0 16 ≫= λ y, seqZ 0 128 ≫= λ zx,
         let idx := zx + y * 128 in
         [ ((1 * 16) `mod` 2 ^ 32 + y
            + concat_id (low_nibble (get Sample.add idx))
                        (low_nibble (get Sample.add idx))
                        (get Sample.blocks2 (idx * 2 + 0))
                        (low_nibble (get Sample.metadata2 idx)) `div` 10) * 10
           + concat_id (low_nibble (get Sample.add idx))
                       (low_nibble (get Sample.add idx))
                       (get Sample.blocks2 (idx * 2 + 0))
                       (low_nibble (get Sample.metadata2 idx)) `mod` 10;
           ((1 * 16) `mod` 2 ^ 32 + y
            + concat_id (high_nibble (get Sample.add idx))
                        (high_nibble (get Sample.add idx))
                        (get Sample.blocks2 (idx * 2 + 1))
                        (high_nibble (get Sample.metadata2 idx)) `div` 10) * 10
           + concat_id (high_nibble (get Sample.add idx))
                       (high_nibble (get Sample.add idx))
                       (get Sample.blocks2 (idx * 2 + 1))
                       (high_nibble (get Sample.metadata2 idx)) `mod` 10 ])
      (zeros 400)
  ∧ ∃ h', dsci_v13 (zeros 400) 10 1 (zeros 256) [35] 0 false (zeros 4096)
          = Some h'
          ∧ length h' = length (zeros 400)
          ∧ h' !! Z.to_nat ((1 * 16 + 15 + 35 `div` 10) * 10 + 35 `mod` 10)
            = Some 256.
Proof.
  destruct (identifiers_above_limit_are_counted (zeros 400) (zeros 400) 10 1
              Sample.blocks2 Sample.add Sample.add Sample.metadata2
              (zeros 256) [35] 0 false (zeros 4096))
    as (Hrun2 & _ & _ & H13).
  - lia.
  - exact sample_wf_v2.
  - exact (sample_wf_v13_single false).
  - apply Forall_replicate. lia.
  - apply Forall_replicate. lia.
  - split; [exact Hrun2|].
    assert (v13_indices false (idx_width 0) (zeros 256) = zeros 4096) as Hv
      by (vm_compute; reflexivity).
    rewrite Hv in H13. rewrite length_zeros in H13 by lia.
    destruct H13 as (h13' & Hrun13 & Hlen13 & Hget13); [by_compute|].
    exists h13'. split; [exact Hrun13|]. split; [exact Hlen13|].
    rewrite (Hget13 _ 0) by reflexivity. vm_compute. reflexivity.
Defined.

(** X11.  The two nibble macros split a byte, and a byte is its two
    nibbles: [NIBBLE_LO] and [NIBBLE_HI] of a byte are below 16, the byte
    is [NIBBLE_LO + 16 * NIBBLE_HI], and the nibbles of [lo + 16 * hi] are
    [lo] and [hi]. *)
Theorem nibbles_split_byte (m lo hi : Z) :
  0 ≤ m < 256 →
  0 ≤ lo < 16 →
  0 ≤ hi < 16 →
  0 ≤ NIBBLE_LO m < 16
  ∧ 0 ≤ NIBBLE_HI m < 16
  ∧ NIBBLE_LO m + 16 * NIBBLE_HI m = m
  ∧ NIBBLE_LO (lo + 16 * hi) = lo
  ∧ NIBBLE_HI (lo + 16 * hi) = hi.
Proof.
  intros Hm Hlo Hhi.
  rewrite !NIBBLE_LO_spec, !NIBBLE_HI_spec by lia.
  pose proof (low_nibble_range m). pose proof (high_nibble_range m Hm).
  destruct (nibbles_of_pair lo hi Hlo Hhi) as [-> ->].
  repeat split; try lia.
  unfold low_nibble, high_nibble. pose proof (Z.div_mod m 16). lia.
Qed.

Lemma nibbles_split_byte_witness :
  NIBBLE_LO 171 = 11 ∧ NIBBLE_HI 171 = 10.
Proof.
  destruct (nibbles_split_byte 171 11 10) as (_ & _ & _ & Hlo & Hhi);
    [lia..|].
  exact (conj Hlo Hhi).
Defined.

(** X12.  [dsci_v0] reads [blocks[0..32768)] and [metadata[0..16384)] and
    nothing else: bytes after them make no difference, and a call with a
    shorter array reads outside it.  [dsci_v2] likewise reads
    [blocks[0..4096)] and the first 2048 bytes of [add], [add2] and
    [metadata]. *)
Theorem decoders_input_extent (h blocks0 metadata0 eb0 em0 : list Z)
    (idLim ySection : Z) (blocks add add2 metadata eb ea ea2 em : list Z) :
  (32768 ≤ Z.of_nat (length blocks0) → 16384 ≤ Z.of_nat (length metadata0) →
   dsci_v0 h (blocks0 ++ eb0) (metadata0 ++ em0) = dsci_v0 h blocks0 metadata0)
  ∧ (Z.of_nat (length blocks0) < 32768 ∨ Z.of_nat (length metadata0) < 16384 →
     dsci_v0 h blocks0 metadata0 = None)
  ∧ (4096 ≤ Z.of_nat (length blocks) → 2048 ≤ Z.of_nat (length add) →
     2048 ≤ Z.of_nat (length add2) → 2048 ≤ Z.of_nat (length metadata) →
     dsci_v2 h idLim ySection (blocks ++ eb) (add ++ ea) (add2 ++ ea2)
             (metadata ++ em)
     = dsci_v2 h idLim ySection blocks add add2 metadata)
  ∧ (Z.of_nat (length blocks) < 4096 ∨ Z.of_nat (length add) < 2048
     ∨ Z.of_nat (length add2) < 2048 ∨ Z.of_nat (length metadata) < 2048 →
     dsci_v2 h idLim ySection blocks add add2 metadata = None).
Proof.
  split; [|split; [|split]].
  - intros Hb Hm. unfold dsci_v0.
    apply for_each_ext. intros xz s Hxz. apply elem_of_seqZ in Hxz.
    apply for_each_ext. intros y s' Hy.
    apply elem_of_v0_ys in Hy as (k & -> & Hk).
    apply dsci_v0_body_app; [lia|lia|].
    apply Z.div_lt_upper_bound; lia.
  - intros [Hb|Hm].
    + set (n := Z.of_nat (length blocks0)) in *.
      pose proof (Z.div_mod n 128 ltac:(lia)) as Hn.
      pose proof (Z.mod_pos_bound n 128 ltac:(lia)) as Hr.
      pose proof (Z.div_mod (n `mod` 128) 2 ltac:(lia)) as Hr2.
      pose proof (Z.mod_pos_bound (n `mod` 128) 2 ltac:(lia)) as Hr3.
      apply (dsci_v0_cell_None _ _ _ (n `div` 128) ((n `mod` 128) `div` 2)).
      { split; [apply Z.div_pos|apply Z.div_lt_upper_bound]; lia. }
      { split; [apply Z.div_pos|apply Z.div_lt_upper_bound]; lia. }
      intros s. unfold dsci_v0_body.
      destruct (decide ((n `mod` 128) `mod` 2 = 0)).
      * by rewrite (load_None blocks0 (_ + 0)) by (fold n; lia).
      * rewrite (load_None blocks0 (_ + 1)) by (fold n; lia).
        destruct (load blocks0 (_ + 0)); simpl; [|done].
        destruct (load metadata0 _); simpl; done.
    + set (n := Z.of_nat (length metadata0)) in *.
      pose proof (Z.div_mod n 64 ltac:(lia)) as Hn.
      pose proof (Z.mod_pos_bound n 64 ltac:(lia)) as Hr.
      apply (dsci_v0_cell_None _ _ _ (n `div` 64) (n `mod` 64)).
      { split; [apply Z.div_pos|apply Z.div_lt_upper_bound]; lia. }
      { lia. }
      intros s. unfold dsci_v0_body.
      assert ((2 * (n `mod` 64) + n `div` 64 * 128) `div` 2 = n) as ->.
      { symmetry. apply Z.div_unique with 0; lia. }
      rewrite (load_None metadata0) by (fold n; lia).
      destruct (load blocks0 (_ + 0)); simpl; done.
  - intros Hb Ha Ha2 Hm. unfold dsci_v2.
    apply for_each_ext. intros y s Hy. apply elem_of_seqZ in Hy.
    apply for_each_ext. intros zx s' Hzx. apply elem_of_seqZ in Hzx.
    change (16 * 16 `div` 2) with 128 in Hzx.
    apply dsci_v2_body_app; lia.
  - assert (∀ idx, idx `mod` 128 + idx `div` 128 * (16 * 16 `div` 2) = idx)
      as Hidx.
    { intros idx. change (16 * 16 `div` 2) with 128.
      pose proof (Z.div_mod idx 128). lia. }
    intros [Hb|[Ha|[Ha2|Hm]]].
    + set (n := Z.of_nat (length blocks)) in *.
      pose proof (Z.div_mod n 2 ltac:(lia)) as Hn.
      pose proof (Z.mod_pos_bound n 2 ltac:(lia)) as Hr.
      apply (dsci_v2_cell_None _ _ _ _ _ _ _ (n `div` 2)).
      { split; [apply Z.div_pos|apply Z.div_lt_upper_bound]; lia. }
      intros s. unfold dsci_v2_body. rewrite Hidx.
      destruct (decide (n `mod` 2 = 0)).
      * rewrite (load_None blocks (_ + 0)) by (fold n; lia).
        destruct (load add2 _); simpl; [|done].
        destruct (load add _); simpl; done.
      * rewrite (load_None blocks (_ + 1)) by (fold n; lia).
        destruct (load add2 _); simpl; [|done].
        destruct (load add _); simpl; [|done].
        destruct (load blocks (_ + 0)); simpl; [|done].
        destruct (load metadata _); simpl; done.
    + apply (dsci_v2_cell_None _ _ _ _ _ _ _ (Z.of_nat (length add))); [lia|].
      intros s. unfold dsci_v2_body. rewrite Hidx.
      rewrite (load_None add) by lia.
      destruct (load add2 _); simpl; done.
    + apply (dsci_v2_cell_None _ _ _ _ _ _ _ (Z.of_nat (length add2))); [lia|].
      intros s. unfold dsci_v2_body. rewrite Hidx.
      by rewrite (load_None add2) by lia.
    + apply (dsci_v2_cell_None _ _ _ _ _ _ _ (Z.of_nat (length metadata)));
        [lia|].
      intros s. unfold dsci_v2_body. rewrite Hidx.
      rewrite (load_None metadata) by lia.
      destruct (load add2 _); simpl; [|done].
      destruct (load add _); simpl; [|done].
      destruct (load blocks (_ + 0)); simpl; done.
Qed.

Lemma decoders_input_extent_witness :
  dsci_v0 Sample.h0 (Sample.blocks0 ++ [7]) (Sample.metadata0 ++ [7; 8])
  = dsci_v0 Sample.h0 Sample.blocks0 Sample.metadata0
  ∧ dsci_v0 Sample.h0 [] [] = None
  ∧ dsci_v2 Sample.h2 32 3 (Sample.blocks2 ++ [7]) (Sample.add ++ [7])
            (Sample.add ++ [7]) (Sample.metadata2 ++ [7])
    = dsci_v2 Sample.h2 32 3 Sample.blocks2 Sample.add Sample.add
              Sample.metadata2
  ∧ dsci_v2 Sample.h2 32 3 [] [] [] [] = None.
Proof.
  destruct (decoders_input_extent Sample.h0 Sample.blocks0 Sample.metadata0
              [7] [7; 8] 32 3 [] [] [] [] [] [] [] []) as (H0 & _).
  destruct (decoders_input_extent Sample.h0 [] [] [] [] 32 3 [] [] [] []
              [] [] [] []) as (_ & H0' & _ & _).
  destruct (decoders_input_extent Sample.h2 [] [] [] [] 32 3
              Sample.blocks2 Sample.add Sample.add Sample.metadata2
              [7] [7] [7] [7]) as (_ & _ & H2 & _).
  destruct (decoders_input_extent Sample.h2 [] [] [] [] 32 3 [] [] [] []
              [] [] [] []) as (_ & _ & _ & H2').
  split; [|split; [|split]].
  - apply H0.
    + unfold Sample.blocks0. rewrite length_replicate, Z2Nat.id by lia. lia.
    + unfold Sample.metadata0. rewrite length_replicate, Z2Nat.id by lia. lia.
  - apply H0'. left. simpl. lia.
  - apply H2.
    + unfold Sample.blocks2. rewrite length_replicate, Z2Nat.id by lia. lia.
    + unfold Sample.add. rewrite length_zeros by lia. lia.
    + unfold Sample.add. rewrite length_zeros by lia. lia.
    + unfold Sample.metadata2. rewrite length_replicate, Z2Nat.id by lia. lia.
  - apply H2'. left. simpl. lia.
Defined.

(** X13.  What [unpack_block_idxs_wc] writes: element [k] of the output is
    the value of [idxBits] bits that starts at bit [k * idxBits] of the
    words read as one run of bits, the first word lowest; bit [i] of the
    element is bit [(k*idxBits + i) mod 64] of the word
    [(k*idxBits + i) / 64], so a value may lie across two words. *)
Theorem unpack_wc_element (packed : list Z) (b : Z) (u0 : list Z) (k : Z) :
  1 ≤ b ≤ 16 →
  4096 ≤ Z.of_nat (length u0) →
  in_range 64 packed →
  64 * b ≤ Z.of_nat (length packed) →
  0 ≤ k < 4096 →
  ∃ out v,
    unpack_block_idxs_wc packed b u0 = Some out
    ∧ out !! Z.to_nat k = Some v
    ∧ 0 ≤ v < 2 ^ b
    ∧ ∀ i, 0 ≤ i < b →
        Z.testbit v i
        = Z.testbit (get packed ((k * b + i) `div` 64)) ((k * b + i) `mod` 64).
Proof.
  intros Hb Hu0 Hp Hlen Hk. rewrite <-CELLS_eq in Hu0.
  destruct (unpack_wc_lookup packed b u0 k) as (out & Hout & _ & Hv);
    [done..|rewrite CELLS_eq; lia|].
  exists out, (Z.land (wc_bits packed ≫ (k * b)) (Z.ones b)).
  split; [done|]. split; [done|].
  split; [apply land_ones_range; lia|].
  intros i Hi. rewrite land_ones_testbit, Z.shiftr_spec by lia.
  set (p := k * b + i).
  assert (0 ≤ p < 4096 * b) as Hpr by (unfold p; nia).
  pose proof (Z.div_mod p 64 ltac:(lia)) as Hdm.
  pose proof (Z.mod_pos_bound p 64 ltac:(lia)) as Hmod.
  assert (0 ≤ p `div` 64 < Z.of_nat (length packed)) as Hj.
  { split; [apply Z.div_pos; lia|apply Z.div_lt_upper_bound; lia]. }
  destruct (lookup_lt_is_Some_2 packed (Z.to_nat (p `div` 64))) as [w Hw];
    [lia|].
  replace (get packed (p `div` 64)) with w
    by (unfold get; by rewrite load_lookup, Hw by lia).
  rewrite <-(wc_word_bits packed (Z.to_nat (p `div` 64)) w) by (done || lia).
  f_equal. unfold p in *. lia.
Qed.

Lemma unpack_wc_element_witness :
  ∃ out v,
    unpack_block_idxs_wc Sample.blockStates 5 (zeros 4096) = Some out
    ∧ out !! Z.to_nat 13 = Some v
    ∧ 0 ≤ v < 2 ^ 5
    ∧ ∀ i, 0 ≤ i < 5 →
        Z.testbit v i
        = Z.testbit (get Sample.blockStates ((13 * 5 + i) `div` 64))
                    ((13 * 5 + i) `mod` 64).
Proof.
  apply unpack_wc_element.
  - lia.
  - rewrite length_zeros; lia.
  - apply Forall_replicate. lia.
  - by_compute.
  - lia.
Defined.

(** X14.  What [unpack_block_idxs_nc] writes: every word holds
    [64 / idxBits] values, lowest first, and element [k] of the output is
    the value number [k mod (64 / idxBits)] of the word
    [k / (64 / idxBits)]. *)
Theorem unpack_nc_element (packed : list Z) (b : Z) (u0 : list Z) (k : Z) :
  1 ≤ b ≤ 16 →
  4096 ≤ Z.of_nat (length u0) →
  4096 ≤ 64 `div` b * Z.of_nat (length packed) →
  0 ≤ k < 4096 →
  let per := 64 `div` b in
  ∃ out,
    unpack_block_idxs_nc packed b u0 = Some out
    ∧ out !! Z.to_nat k
      = Some ((get packed (k `div` per) ≫ (k `mod` per * b)) `mod` 2 ^ b).
Proof.
  intros Hb Hu0 Hlen Hk per. rewrite <-CELLS_eq in Hu0, Hlen.
  destruct (unpack_nc_lookup packed b u0 k) as (out & Hout & _ & Hv);
    [done..|rewrite CELLS_eq; lia|].
  exists out. split; [done|]. by rewrite Hv, Z.land_ones by lia.
Qed.

Lemma unpack_nc_element_witness :
  ∃ out,
    unpack_block_idxs_nc SampleWords.words4 4 (zeros 4096) = Some out
    ∧ out !! Z.to_nat 17
      = Some ((get SampleWords.words4 (17 `div` (64 `div` 4))
               ≫ (17 `mod` (64 `div` 4) * 4)) `mod` 2 ^ 4).
Proof.
  apply (unpack_nc_element SampleWords.words4 4 (zeros 4096) 17).
  - lia.
  - rewrite length_zeros; lia.
  - by_compute.
  - lia.
Defined.

(** X15.  The unpackers read as many words as the 4096 values take and are
    defined exactly when [packed] has them: [64 * idxBits] words for
    [unpack_block_idxs_wc], and enough words of [64 / idxBits] values for
    [unpack_block_idxs_nc].  With fewer words the loop reads the word after
    the last, however many turns it is given. *)
Theorem unpackers_need_words (packed : list Z) (b : Z) (u0 : list Z) :
  1 ≤ b ≤ 16 →
  in_range 64 packed →
  4096 ≤ Z.of_nat (length u0) →
  (is_Some (unpack_block_idxs_wc packed b u0)
   ↔ 64 * b ≤ Z.of_nat (length packed))
  ∧ (is_Some (unpack_block_idxs_nc packed b u0)
     ↔ 4096 ≤ 64 `div` b * Z.of_nat (length packed))
  ∧ (Z.of_nat (length packed) < 64 * b →
     ∀ fuel, wc_loop fuel packed b (idx_mask b) (WcState 0 0 0 0 u0) = None)
  ∧ (64 `div` b * Z.of_nat (length packed) < 4096 →
     ∀ fuel, nc_loop fuel packed b (idx_mask b) 0 0 u0 = None).
Proof.
  intros Hb Hp Hu0. rewrite <-CELLS_eq in Hu0.
  assert (Z.of_nat (length packed) < 64 * b →
          ∀ fuel, wc_loop fuel packed b (idx_mask b) (WcState 0 0 0 0 u0)
                  = None) as Hwc.
  { intros Hlen fuel. by apply unpack_wc_short. }
  assert (64 `div` b * Z.of_nat (length packed) < 4096 →
          ∀ fuel, nc_loop fuel packed b (idx_mask b) 0 0 u0 = None) as Hnc.
  { intros Hlen fuel. apply (nc_loop_short b packed packed); [done|done|done|].
    rewrite CELLS_eq. lia. }
  split; [|split; [|split]]; [| |done|done].
  - split.
    + intros Hs. destruct (decide (64 * b ≤ Z.of_nat (length packed)));
        [done|].
      unfold unpack_block_idxs_wc in Hs. rewrite decide_False in Hs by lia.
      rewrite Hwc in Hs by lia. by destruct Hs.
    + intros Hlen. by rewrite unpack_wc_spec.
  - split.
    + intros Hs.
      destruct (decide (4096 ≤ 64 `div` b * Z.of_nat (length packed)));
        [done|].
      unfold unpack_block_idxs_nc in Hs. rewrite decide_False in Hs by lia.
      rewrite Hnc in Hs by lia. by destruct Hs.
    + intros Hlen. rewrite unpack_nc_spec; [done..|]. by rewrite CELLS_eq.
Qed.

Lemma unpackers_need_words_witness :
  is_Some (unpack_block_idxs_wc Sample.blockStates 5 (zeros 4096))
  ∧ ¬ is_Some (unpack_block_idxs_wc (take 319 Sample.blockStates) 5
                 (zeros 4096)).
Proof.
  destruct (unpackers_need_words Sample.blockStates 5 (zeros 4096))
    as (Hwc & _).
  { lia. }
  { apply Forall_replicate. lia. }
  { rewrite length_zeros; lia. }
  destruct (unpackers_need_words (take 319 Sample.blockStates) 5
              (zeros 4096)) as (Hwc' & _).
  { lia. }
  { apply Forall_take, Forall_replicate. lia. }
  { rewrite length_zeros; lia. }
  split.
  - apply (proj2 Hwc). by_compute.
  - intros Hs. apply (proj1 Hwc') in Hs. revert Hs.
    apply (bool_decide_eq_false_1 _). vm_compute. reflexivity.
Defined.

(** X16.  [dsci_v13] with a palette of up to [2^16] entries is defined
    only if [blockStates] has the words that the unpacker of the carry
    mode reads. *)
Theorem dsci_v13_needs_words (h : list Z) (idLim ySection : Z)
    (blockStates paletteMap : list Z) (maxPaletteIdx : Z) (carry : bool)
    (stack : list Z) :
  0 ≤ maxPaletteIdx →
  maxPaletteIdx + 1 ≤ 2 ^ 16 →
  in_range 64 blockStates →
  Z.of_nat (length stack) = 4096 →
  is_Some (dsci_v13 h idLim ySection blockStates paletteMap maxPaletteIdx
                    carry stack) →
  ∃ idxBits,
    compute_idxBits maxPaletteIdx = Some idxBits
    ∧ if carry then 64 * idxBits ≤ Z.of_nat (length blockStates)
      else 4096 ≤ 64 `div` idxBits * Z.of_nat (length blockStates).
Proof.
  intros Hm Hm16 Hbs Hstack Hs.
  pose proof (idx_width_16 maxPaletteIdx Hm Hm16) as Hb.
  exists (idx_width maxPaletteIdx).
  split; [apply compute_idxBits_width; lia|].
  unfold dsci_v13 in Hs.
  rewrite compute_idxBits_width, bind_Some_l in Hs by lia.
  destruct carry.
  - destruct (decide (64 * idx_width maxPaletteIdx
                      ≤ Z.of_nat (length blockStates))); [done|].
    unfold unpack_block_idxs_wc in Hs. rewrite decide_False in Hs by lia.
    rewrite unpack_wc_short in Hs; [by destruct Hs|lia| |done|lia].
    rewrite CELLS_eq. lia.
  - destruct (decide (4096 ≤ 64 `div` idx_width maxPaletteIdx
                             * Z.of_nat (length blockStates))); [done|].
    unfold unpack_block_idxs_nc in Hs. rewrite decide_False in Hs by lia.
    rewrite (nc_loop_short _ blockStates blockStates) in Hs;
      [by destruct Hs|lia|done|done|].
    rewrite CELLS_eq. lia.
Qed.

Lemma dsci_v13_needs_words_witness :
  ∃ idxBits,
    compute_idxBits 16 = Some idxBits
    ∧ 64 * idxBits ≤ Z.of_nat (length Sample.blockStates).
Proof.
  apply (dsci_v13_needs_words Sample.h13 200 1 Sample.blockStates
           Sample.paletteMap 16 true Sample.stack).
  - lia.
  - lia.
  - apply Forall_replicate. lia.
  - apply length_zeros. lia.
  - rewrite dsci_v13_incr_all by exact (sample_wf_v13 true).
    apply incr_all_is_Some.
    apply (hist_holds_bounds 200 1); [lia| |].
    + split; [lia|]. unfold Sample.h13. rewrite length_zeros by lia. lia.
    + destruct (wf_v13_indices _ _ _ _ _ _ (sample_wf_v13 true)).
      apply v13_hits_region; [exact sample_palette|done|done].
Defined.

(** X17.  The two layouts are the same exactly for the widths that divide
    64: for a width from 1 to 16, [unpack_block_idxs_wc] and
    [unpack_block_idxs_nc] give the same result on all words if and only
    if [64 mod idxBits = 0], that is for 1, 2, 4, 8 and 16.  For any other
    width they differ on the words [2^63, 0, 0, ...]: the top bit of the
    first word is part of a value with carry and of none without. *)
Theorem carry_modes_agree_iff (b : Z) :
  1 ≤ b ≤ 16 →
  ((∀ packed u0, in_range 64 packed →
      unpack_block_idxs_wc packed b u0 = unpack_block_idxs_nc packed b u0)
   ↔ 64 `mod` b = 0)
  ∧ (64 `mod` b ≠ 0 →
     unpack_block_idxs_wc (2 ^ 63 :: replicate 1023 0) b (zeros 4096)
     ≠ unpack_block_idxs_nc (2 ^ 63 :: replicate 1023 0) b (zeros 4096)).
Proof.
  intros Hb.
  assert (64 `mod` b ≠ 0 →
          unpack_block_idxs_wc (2 ^ 63 :: replicate 1023 0) b (zeros 4096)
          ≠ unpack_block_idxs_nc (2 ^ 63 :: replicate 1023 0) b (zeros 4096))
    as Hdiff.
  { intros Hne Hsame.
    set (packed := 2 ^ 63 :: replicate 1023 0) in *.
    assert (in_range 64 packed) as Hp.
    { constructor; [lia|]. apply Forall_replicate. lia. }
    assert (Z.of_nat (length packed) = 1024) as Hlp by done.
    pose proof (per_word_range b Hb) as Hper.
    pose proof (Z.div_mod 64 b ltac:(lia)) as Hdm.
    pose proof (Z.mod_pos_bound 64 b ltac:(lia)) as Hmod.
    pose proof CELLS_eq as HC.
    assert (Z.of_nat (length (zeros 4096)) = 4096) as Hz
      by (apply length_zeros; lia).
    destruct (unpack_wc_lookup packed b (zeros 4096) (64 `div` b))
      as (out & Hout & _ & Hv); [done|lia|done|lia|lia|].
    destruct (unpack_nc_lookup packed b (zeros 4096) (64 `div` b))
      as (out' & Hout' & _ & Hv'); [done|lia|nia|lia|].
    rewrite Hsame, Hout' in Hout.
    injection Hout as <-. rewrite Hv' in Hv. injection Hv as Hv.
    rewrite Z.div_same, Z.mod_same in Hv by lia.
    change (get packed 1) with 0 in Hv.
    rewrite Z.shiftr_0_l, Z.land_0_l in Hv.
    apply (f_equal (λ z, Z.testbit z (63 - 64 `div` b * b))) in Hv.
    rewrite Z.bits_0, land_ones_testbit, Z.shiftr_spec in Hv by lia.
    replace (63 - 64 `div` b * b + 64 `div` b * b)
      with (64 * Z.of_nat 0 + 63) in Hv by lia.
    rewrite (wc_word_bits packed 0 (2 ^ 63)) in Hv by (done || lia).
    by rewrite Z.pow2_bits_true in Hv by lia. }
  split; [|done]. split.
  - intros Hsame. destruct (decide (64 `mod` b = 0)) as [|Hne]; [done|].
    exfalso. apply (Hdiff Hne), Hsame.
    constructor; [lia|]. apply Forall_replicate. lia.
  - intros Hdiv packed u0 Hp. apply unpack_wc_nc_aligned; [done| |done].
    assert (b = 1 ∨ b = 2 ∨ b = 3 ∨ b = 4 ∨ b = 5 ∨ b = 6 ∨ b = 7 ∨ b = 8
            ∨ b = 9 ∨ b = 10 ∨ b = 11 ∨ b = 12 ∨ b = 13 ∨ b = 14 ∨ b = 15
            ∨ b = 16) as Hcases by lia.
    repeat (destruct Hcases as [->|Hcases]; [by vm_compute in Hdiv |- *|]).
    subst b. done.
Qed.

Lemma carry_modes_agree_iff_witness :
  (∀ packed u0, in_range 64 packed →
     unpack_block_idxs_wc packed 8 u0 = unpack_block_idxs_nc packed 8 u0)
  ∧ unpack_block_idxs_wc (2 ^ 63 :: replicate 1023 0) 5 (zeros 4096)
    ≠ unpack_block_idxs_nc (2 ^ 63 :: replicate 1023 0) 5 (zeros 4096).
Proof.
  destruct (carry_modes_agree_iff 8) as [Hiff _]; [lia|].
  destruct (carry_modes_agree_iff 5) as [_ Hdiff]; [lia|].
  split.
  - apply (proj2 Hiff). reflexivity.
  - apply Hdiff. vm_compute. discriminate.
Defined.

(** X18.  [dsci_v0] counts 256 cells in each of the 128 layers: when the
    counters have room for the increments of the call, the entries of every
    layer [0..127], that is [histogram[layer*4096 .. layer*4096 + 4095]], grow
    by 256 in total, one for each of the 16x16 columns. *)
Theorem dsci_v0_layer_conservation (h blocks metadata : list Z) :
  wf_v0 blocks metadata →
  128 * idLim_v0 ≤ Z.of_nat (length h) →
  counters_have_room (16 * 16 * 128) h →
  ∃ h', dsci_v0 h blocks metadata = Some h'
        ∧ ∀ layer, 0 ≤ layer < 128 →
            sumZ (layer_row 4096 layer h') - sumZ (layer_row 4096 layer h)
            = 256.
Proof.
  intros Hwf Hlen Hroom.
  assert (in_range 64 h) as Hh.
  { eapply Forall_impl; [exact Hroom|]. simpl. lia. }
  assert (Forall (λ t, 0 ≤ t < Z.of_nat (length h)) (v0_hits blocks metadata))
    as Hin.
  { eapply Forall_impl; [by apply v0_hits_bounds|].
    simpl. unfold idLim_v0 in Hlen. lia. }
  exists (add_counts (v0_hits blocks metadata) h).
  rewrite dsci_v0_incr_all by done.
  split; [by apply incr_all_add_counts|].
  intros layer Hl.
  rewrite sumZ_layer_row, v0_hits_row; [lia|done|done|lia|lia| |done].
  by rewrite length_v0_hits.
Qed.

Lemma dsci_v0_layer_conservation_witness :
  ∃ h', dsci_v0 Sample.h0 Sample.blocks0 Sample.metadata0 = Some h'
        ∧ ∀ layer, 0 ≤ layer < 128 →
            sumZ (layer_row 4096 layer h')
            - sumZ (layer_row 4096 layer Sample.h0) = 256.
Proof.
  apply dsci_v0_layer_conservation.
  - exact sample_wf_v0.
  - unfold Sample.h0. rewrite length_zeros by lia. reflexivity.
  - apply zeros_room. lia.
Defined.

(** X19.  [dsci_v2] and [dsci_v13] count 256 cells in each of the 16
    layers of the section: for identifiers below [idLimit] and counters
    with room for the increments of the call, the entries of every layer
    [ySection*16 + y], [y] in [0..15], grow by 256 in total. *)
Theorem section_layer_conservation
    (h2 : list Z) (idLim2 ySection2 : Z) (blocks2 add add2 metadata2 : list Z)
    (h13 : list Z) (idLim13 ySection13 : Z) (blockStates paletteMap : list Z)
    (maxPaletteIdx : Z) (carry : bool) (stack : list Z) :
  wf_v2 blocks2 add add2 metadata2 →
  0 ≤ idLim2 < 2 ^ 32 →
  Forall (λ id, id < idLim2) (v2_ids blocks2 add add2 metadata2) →
  hist_covers idLim2 ySection2 h2 →
  counters_have_room 4096 h2 →
  wf_v13 idLim13 blockStates paletteMap maxPaletteIdx carry stack →
  Forall (λ id, 0 ≤ id < idLim13) paletteMap →
  hist_covers idLim13 ySection13 h13 →
  counters_have_room 4096 h13 →
  (∃ h', dsci_v2 h2 idLim2 ySection2 blocks2 add add2 metadata2 = Some h'
         ∧ ∀ y, 0 ≤ y < 16 →
             sumZ (layer_row idLim2 (ySection2 * 16 + y) h')
             - sumZ (layer_row idLim2 (ySection2 * 16 + y) h2) = 256)
  ∧ (∃ h', dsci_v13 h13 idLim13 ySection13 blockStates paletteMap
                    maxPaletteIdx carry stack = Some h'
           ∧ ∀ y, 0 ≤ y < 16 →
               sumZ (layer_row idLim13 (ySection13 * 16 + y) h')
               - sumZ (layer_row idLim13 (ySection13 * 16 + y) h13) = 256).
Proof.
  intros Hwf2 HidLim2 Hids2 Hcov2 Hroom2 Hwf13 Hpm Hcov13 Hroom13.
  assert (∀ ySection, 0 ≤ ySection < 2 ^ 28 →
            u32 (ySection * 16) = ySection * 16) as Hu32.
  { intros ySection ?. apply wrap_small. lia. }
  split.
  - assert (in_range 64 h2) as Hh.
    { eapply Forall_impl; [exact Hroom2|]. simpl. lia. }
    pose proof Hcov2 as (Hy & Hy0 & _).
    exists (add_counts (v2_hits idLim2 ySection2 blocks2 add add2 metadata2)
              h2).
    rewrite dsci_v2_incr_all by done.
    assert (Forall (λ t, 0 ≤ t < Z.of_nat (length h2))
              (v2_hits idLim2 ySection2 blocks2 add add2 metadata2)) as Hin.
    { apply (hist_covers_bounds idLim2 ySection2); [lia|done|].
      by apply v2_hits_region. }
    split; [by apply incr_all_add_counts|].
    intros y Hyr.
    rewrite sumZ_layer_row; [|lia|lia| |done].
    + rewrite <-(Hu32 ySection2) by lia.
      rewrite v2_hits_row by done. lia.
    + by rewrite length_v2_hits.
  - assert (in_range 64 h13) as Hh.
    { eapply Forall_impl; [exact Hroom13|]. simpl. lia. }
    pose proof Hcov13 as (Hy & Hy0 & _).
    destruct (wf_v13_indices _ _ _ _ _ _ Hwf13) as [Hlen Hidx].
    pose proof Hwf13 as (_ & _ & _ & _ & HidLim & _).
    exists (add_counts
              (v13_hits idLim13 ySection13 paletteMap
                 (v13_indices carry (idx_width maxPaletteIdx) blockStates))
              h13).
    rewrite dsci_v13_incr_all by done.
    assert (Forall (λ t, 0 ≤ t < Z.of_nat (length h13))
              (v13_hits idLim13 ySection13 paletteMap
                 (v13_indices carry (idx_width maxPaletteIdx) blockStates)))
      as Hin.
    { apply (hist_covers_bounds idLim13 ySection13); [lia|done|].
      by apply v13_hits_region. }
    split; [by apply incr_all_add_counts|].
    intros y Hyr.
    rewrite sumZ_layer_row; [|lia|lia| |done].
    + rewrite <-(Hu32 ySection13) by lia.
      rewrite v13_hits_row by done. lia.
    + by rewrite length_v13_hits.
Qed.

Lemma section_layer_conservation_witness :
  (∃ h', dsci_v2 Sample.h2 32 3 Sample.blocks2 Sample.add Sample.add
                 Sample.metadata2 = Some h'
         ∧ ∀ y, 0 ≤ y < 16 →
             sumZ (layer_row 32 (3 * 16 + y) h')
             - sumZ (layer_row 32 (3 * 16 + y) Sample.h2) = 256)
  ∧ (∃ h', dsci_v13 Sample.h13 200 1 Sample.blockStates Sample.paletteMap
                    16 true Sample.stack = Some h'
           ∧ ∀ y, 0 ≤ y < 16 →
               sumZ (layer_row 200 (1 * 16 + y) h')
               - sumZ (layer_row 200 (1 * 16 + y) Sample.h13) = 256).
Proof.
  apply section_layer_conservation.
  - exact sample_wf_v2.
  - lia.
  - exact sample_v2_ids.
  - split; [lia|]. split; [lia|].
    unfold Sample.h2. rewrite length_zeros by lia. reflexivity.
  - apply zeros_room. lia.
  - exact (sample_wf_v13 true).
  - exact sample_palette.
  - split; [lia|]. split; [lia|].
    unfold Sample.h13. rewrite length_zeros by lia. reflexivity.
  - apply zeros_room. lia.
Defined.

(** X20.  [dsci_v13] on a well-formed section reads the words of
    [blockStates] that hold the 4096 indices and the palette entries up to
    [maxPaletteIdx], and nothing after them: words and palette entries
    that follow make no difference. *)
Theorem dsci_v13_input_extent (h : list Z) (idLim ySection : Z)
    (blockStates paletteMap : list Z) (maxPaletteIdx : Z) (carry : bool)
    (stack : list Z) (extraStates extraPalette : list Z) :
  wf_v13 idLim blockStates paletteMap maxPaletteIdx carry stack →
  in_range 64 extraStates →
  dsci_v13 h idLim ySection (blockStates ++ extraStates)
           (paletteMap ++ extraPalette) maxPaletteIdx carry stack
  = dsci_v13 h idLim ySection blockStates paletteMap maxPaletteIdx carry stack.
Proof.
  intros Hwf Hextra.
  destruct (wf_v13_indices _ _ _ _ _ _ Hwf) as [Hlen Hidx].
  destruct Hwf as (Hm & Hm16 & Hpm & Hpmr & HidLim & Hbs & Hw & _ & Hstack).
  pose proof (idx_width_16 maxPaletteIdx Hm Hm16) as Hb.
  rewrite !dsci_v13_unpacked;
    [|done|done|done|done|done|done|done| |by apply enough_words_app; [lia|]
     |done]; [|by apply Forall_app].
  rewrite v13_indices_app by (done || lia).
  apply for_each_ext. intros y s Hy. apply elem_of_seqZ in Hy.
  apply for_each_ext. intros zx s' Hzx. apply elem_of_seqZ in Hzx.
  unfold dsci_v13_body. rewrite load_lookup by lia.
  destruct (_ !! _) as [pidx|] eqn:Hp; [|done].
  rewrite !bind_Some_l.
  pose proof (Forall_lookup_1 _ _ _ _ Hidx Hp) as Hpr. simpl in Hpr.
  by rewrite load_app_l by lia.
Qed.

Lemma dsci_v13_input_extent_witness :
  dsci_v13 Sample.h13 200 1 (Sample.blockStates ++ [7; 8])
           (Sample.paletteMap ++ [1000]) 16 false Sample.stack
  = dsci_v13 Sample.h13 200 1 Sample.blockStates Sample.paletteMap 16 false
             Sample.stack.
Proof.
  apply dsci_v13_input_extent.
  - exact (sample_wf_v13 false).
  - repeat constructor; lia.
Defined.

(** X21.  The two section formats agree: when the palette of a v13
    section resolves the index of every cell to the identifier that a v2
    section has for the same cell (cell [2*idx] from the low nibbles of
    slot [idx], cell [2*idx + 1] from the high nibbles), [dsci_v13] and
    [dsci_v2] do the same to the histogram. *)
Theorem v2_v13_same_histogram (h : list Z) (idLim ySection : Z)
    (blocks add add2 metadata : list Z)
    (blockStates paletteMap : list Z) (maxPaletteIdx : Z) (carry : bool)
    (stack idxs : list Z) :
  wf_v2 blocks add add2 metadata →
  wf_v13 idLim blockStates paletteMap maxPaletteIdx carry stack →
  (if carry
   then unpack_block_idxs_wc blockStates (idx_width maxPaletteIdx) stack
   else unpack_block_idxs_nc blockStates (idx_width maxPaletteIdx) stack)
  = Some idxs →
  (∀ idx, 0 ≤ idx < 2048 →
     get paletteMap (get idxs (2 * idx))
     = concat_id (low_nibble (get add2 idx)) (low_nibble (get add idx))
                 (get blocks (idx * 2 + 0)) (low_nibble (get metadata idx))
     ∧ get paletteMap (get idxs (2 * idx + 1))
       = concat_id (high_nibble (get add2 idx)) (high_nibble (get add idx))
                   (get blocks (idx * 2 + 1))
                   (high_nibble (get metadata idx))) →
  dsci_v13 h idLim ySection blockStates paletteMap maxPaletteIdx carry stack
  = dsci_v2 h idLim ySection blocks add add2 metadata.
Proof.
  intros Hwf2 Hwf13 Hu Hsame.
  pose proof Hwf13 as (Hm & Hm16 & _ & _ & HidLim & Hbs & Hw & _ & Hstack).
  pose proof (idx_width_16 maxPaletteIdx Hm Hm16) as Hb.
  rewrite v13_unpack in Hu by (done || lia). injection Hu as <-.
  rewrite (dsci_v13_incr_all _ _ _ _ _ _ _ _ Hwf13).
  rewrite (dsci_v2_incr_all _ _ _ _ _ _ _ Hwf2 HidLim).
  apply (f_equal (λ targets, incr_all targets h)).
  unfold v13_hits, v2_hits.
  apply bind_ext_in. intros y Hy. apply elem_of_seqZ in Hy.
  change 256 with (2 * Z.of_nat 128).
  rewrite (bind_pairs (λ zx, layer_coord ySection y * idLim
                             + get paletteMap (get _ (zx + y * (2 * Z.of_nat 128))))).
  apply bind_ext_in. intros zx Hzx. apply elem_of_seqZ in Hzx.
  unfold v2_pair.
  destruct (Hsame (zx + y * 128) ltac:(lia)) as [<- <-].
  change (Z.of_nat 128) with 128.
  replace (2 * zx + y * (2 * 128)) with (2 * (zx + y * 128)) by lia.
  by replace (2 * zx + 1 + y * (2 * 128)) with (2 * (zx + y * 128) + 1)
    by lia.
Qed.

Lemma v2_v13_same_histogram_witness :
  dsci_v13 Sample.h2 32 3 SampleFormats.blockStates SampleFormats.paletteMap
           1 true Sample.stack
  = dsci_v2 Sample.h2 32 3 Sample.blocks2 Sample.add Sample.add
            Sample.metadata2.
Proof.
  assert (wf_v13 32 SampleFormats.blockStates SampleFormats.paletteMap 1 true
            Sample.stack) as Hwf.
  { unfold wf_v13. split; [lia|]. split; [lia|]. split; [reflexivity|].
    split; [by_compute|]. split; [lia|].
    split; [apply Forall_replicate; lia|].
    split; [unfold enough_words; by_compute|].
    split; [by_compute|].
    unfold Sample.stack, zeros.
    by rewrite length_replicate, Z2Nat.id, CELLS_eq by lia. }
  apply (v2_v13_same_histogram _ _ _ _ _ _ _ _ _ _ _ _
           (v13_indices true (idx_width 1) SampleFormats.blockStates)).
  - exact sample_wf_v2.
  - exact Hwf.
  - destruct Hwf as (_ & _ & _ & _ & _ & Hbs & Hw & _ & Hstack).
    apply (v13_unpack true); [by_compute|done|done|done].
  - intros idx Hidx.
    let idxs := eval vm_compute in
          (v13_indices true (idx_width 1) SampleFormats.blockStates) in
    assert (v13_indices true (idx_width 1) SampleFormats.blockStates = idxs)
      as -> by (vm_compute; reflexivity).
    revert idx Hidx. apply (Forall_seqZ (λ idx, _ ∧ _) 0 2048).
    by_compute.
Defined.



(** X23.  [dsci_v13] depends on the block states, the palette, the width
    and the carry mode only through the identifier that each cell
    resolves to: two well-formed calls whose cells resolve to the same
    identifiers, [paletteMap[paletteIdxs[n]]] for every [n], do the same to
    the histogram. *)
Theorem dsci_v13_resolved_identifiers (h : list Z) (idLim ySection : Z)
    (blockStates paletteMap : list Z) (maxPaletteIdx : Z) (carry : bool)
    (stack idxs : list Z)
    (blockStates' paletteMap' : list Z) (maxPaletteIdx' : Z) (carry' : bool)
    (stack' idxs' : list Z) :
  wf_v13 idLim blockStates paletteMap maxPaletteIdx carry stack →
  wf_v13 idLim blockStates' paletteMap' maxPaletteIdx' carry' stack' →
  (if carry
   then unpack_block_idxs_wc blockStates (idx_width maxPaletteIdx) stack
   else unpack_block_idxs_nc blockStates (idx_width maxPaletteIdx) stack)
  = Some idxs →
  (if carry'
   then unpack_block_idxs_wc blockStates' (idx_width maxPaletteIdx') stack'
   else unpack_block_idxs_nc blockStates' (idx_width maxPaletteIdx') stack')
  = Some idxs' →
  (∀ n, 0 ≤ n < 4096 →
     get paletteMap (get idxs n) = get paletteMap' (get idxs' n)) →
  dsci_v13 h idLim ySection blockStates paletteMap maxPaletteIdx carry stack
  = dsci_v13 h idLim ySection blockStates' paletteMap' maxPaletteIdx' carry'
             stack'.
Proof.
  intros Hwf Hwf' Hu Hu' Hsame.
  pose proof Hwf as (Hm & Hm16 & _ & _ & _ & Hbs & Hw & _ & Hstack).
  pose proof Hwf' as (Hm' & Hm16' & _ & _ & _ & Hbs' & Hw' & _ & Hstack').
  pose proof (idx_width_16 maxPaletteIdx Hm Hm16) as Hb.
  pose proof (idx_width_16 maxPaletteIdx' Hm' Hm16') as Hb'.
  rewrite v13_unpack in Hu by (done || lia). injection Hu as <-.
  rewrite v13_unpack in Hu' by (done || lia). injection Hu' as <-.
  rewrite (dsci_v13_incr_all _ _ _ _ _ _ _ _ Hwf).
  rewrite (dsci_v13_incr_all _ _ _ _ _ _ _ _ Hwf').
  apply (f_equal (λ targets, incr_all targets h)).
  unfold v13_hits.
  apply bind_ext_in. intros y Hy. apply elem_of_seqZ in Hy.
  apply bind_ext_in. intros zx Hzx. apply elem_of_seqZ in Hzx.
  by rewrite Hsame by lia.
Qed.

Lemma dsci_v13_resolved_identifiers_witness :
  dsci_v13 Sample.h2 32 3 SampleFormats.blockStates SampleFormats.paletteMap
           1 true Sample.stack
  = dsci_v13 Sample.h2 32 3 SampleFormats.blockStates
             SampleFormats.paletteMap 1 false Sample.stack.
Proof.
  assert (∀ carry : bool, wf_v13 32 SampleFormats.blockStates
                     SampleFormats.paletteMap 1 carry Sample.stack) as Hwf.
  { intros carry. unfold wf_v13.
    split; [lia|]. split; [lia|]. split; [reflexivity|].
    split; [by_compute|]. split; [lia|].
    split; [apply Forall_replicate; lia|].
    split; [destruct carry; unfold enough_words; by_compute|].
    split; [destruct carry; by_compute|].
    unfold Sample.stack, zeros.
    by rewrite length_replicate, Z2Nat.id, CELLS_eq by lia. }
  assert (∀ carry : bool,
            (if carry
             then unpack_block_idxs_wc SampleFormats.blockStates (idx_width 1)
                    Sample.stack
             else unpack_block_idxs_nc SampleFormats.blockStates (idx_width 1)
                    Sample.stack)
            = Some (v13_indices carry (idx_width 1) SampleFormats.blockStates))
    as Hu.
  { intros carry.
    destruct (Hwf carry) as (_ & _ & _ & _ & _ & Hbs & Hw & _ & Hstack).
    apply v13_unpack; [by_compute|done|done|done]. }
  apply (dsci_v13_resolved_identifiers _ _ _ _ _ _ _ _
           (v13_indices true (idx_width 1) SampleFormats.blockStates)
           _ _ _ _ _
           (v13_indices false (idx_width 1) SampleFormats.blockStates)).
  - exact (Hwf true).
  - exact (Hwf false).
  - exact (Hu true).
  - exact (Hu false).
  - intros n Hn.
    assert (v13_indices true (idx_width 1) SampleFormats.blockStates
            = v13_indices false (idx_width 1) SampleFormats.blockStates)
      as -> by (vm_compute; reflexivity).
    reflexivity.
Defined.

(** X24.  The identifier of [dsci_v2] extends that of [dsci_v0]: with zero
    [add] and [add2] bytes it is the identifier that [dsci_v0] computes
    from the same block and metadata bytes, [(block << 4) | nibble], which
    is below 4096; the nibbles of [add] and [add2] are the bits 12 to 19 on
    top of it. *)
Theorem v2_identifier_extends_v0 (a2 a b m : Z) :
  0 ≤ a2 < 256 →
  0 ≤ a < 256 →
  0 ≤ b < 256 →
  0 ≤ m < 256 →
  v2_bid1 0 0 b m = v0_bid1 b m
  ∧ v2_bid2 0 0 b m = v0_bid2 b m
  ∧ 0 ≤ v0_bid1 b m < 4096
  ∧ 0 ≤ v0_bid2 b m < 4096
  ∧ v2_bid1 a2 a b m
    = NIBBLE_LO a2 * 2 ^ 16 + NIBBLE_LO a * 2 ^ 12 + v0_bid1 b m
  ∧ v2_bid2 a2 a b m
    = NIBBLE_HI a2 * 2 ^ 16 + NIBBLE_HI a * 2 ^ 12 + v0_bid2 b m.
Proof.
  intros Ha2 Ha Hb Hm.
  pose proof (low_nibble_range m) as Hlo.
  pose proof (high_nibble_range m Hm) as Hhi.
  pose proof (low_nibble_range a) as Hloa.
  pose proof (high_nibble_range a Ha) as Hhia.
  pose proof (low_nibble_range a2) as Hloa2.
  pose proof (high_nibble_range a2 Ha2) as Hhia2.
  assert (low_nibble 0 = 0 ∧ high_nibble 0 = 0) as [Hl0 Hh0] by done.
  rewrite !v2_bid1_spec, !v2_bid2_spec, v0_bid1_spec, v0_bid2_spec by lia.
  rewrite !NIBBLE_LO_spec, !NIBBLE_HI_spec by lia.
  rewrite Hl0, Hh0.
  destruct (byte_nibble_id b (low_nibble m) Hb Hlo) as [_ ->].
  destruct (byte_nibble_id b (high_nibble m) Hb Hhi) as [_ ->].
  unfold concat_id. repeat split; lia.
Qed.

Lemma v2_identifier_extends_v0_witness :
  v2_bid1 0 0 1 33 = v0_bid1 1 33 ∧ v2_bid2 0 0 1 33 = v0_bid2 1 33.
Proof.
  destruct (v2_identifier_extends_v0 0 0 1 33) as (H1 & H2 & _); [lia..|].
  exact (conj H1 H2).
Defined.
